(** * fastify-boilerplate: image-generation service

    A shallow embedding of the route handlers of the service
    (footballGenerate.ts, footballGenerateHtml.ts, movieGenerate.ts,
    imageGenerate.ts and index.ts) together with the properties that the
    natural-language specification states about them.

    Conventions of the embedding:
    - a JS string and a Node [Buffer] are byte strings ([string]), a JS
      string being held in UTF-8, so that [Buffer.from(s)] is the identity;
      [.length] and [substring] count UTF-16 code units, as they do in JS;
    - an [async] function is a computation in the monad [M] (state of the
      outside world plus exceptions); [await] is monadic bind and
      [Promise.all] runs its members from left to right;
    - a handler is given a reply without headers; [reply.send] refuses an
      object under a content type that is not JSON, as Fastify does, and an
      error that leaves a handler reaches the error handler of index.ts
      with the content type removed;
    - third-party code (node-fetch, sharp, puppeteer, zod's URL check, JS
      built-ins such as [toUpperCase] or [parseInt]) is an oracle held in the
      record [Env];
    - layout arithmetic on JS numbers is done over the rationals [Q]. *)

From Stdlib Require Import ZArith QArith Qround Qminmax String Ascii List Bool Lia.
From Stdlib Require Import Numbers.DecimalString.
From stdpp Require Import base option gmap strings.

Import ListNotations.
Local Open Scope string_scope.
Local Open Scope Z_scope.

(** stdpp blocks the unfolding of string concatenation; proofs by
    computation on templates need it. *)
#[local] Arguments String.append !s1 s2 : simpl nomatch.

(** ** JavaScript strings *)

Module Js.

(** The double-quote character, spliced into markup templates. *)
Definition dq : string := String "034"%char EmptyString.

(** [text.replace(/c/g, rep)] for a one-character pattern [c]. *)
Fixpoint replace_all (c : ascii) (rep : string) (text : string) : string :=
  match text with
  | EmptyString => EmptyString
  | String a rest =>
      if Ascii.eqb a c then rep +:+ replace_all c rep rest
      else String a (replace_all c rep rest)
  end.

(** [text.replace("c", rep)]: a string pattern replaces the first match only. *)
Fixpoint replace_first (c : ascii) (rep : string) (text : string) : string :=
  match text with
  | EmptyString => EmptyString
  | String a rest =>
      if Ascii.eqb a c then rep +:+ rest
      else String a (replace_first c rep rest)
  end.


(** A JS string is held as its UTF-8 encoding, while [length] and
    [substring] count UTF-16 code units.  A byte that continues a character
    counts for nothing, the first byte of a character outside the Basic
    Multilingual Plane (a surrogate pair) for two units, any other first
    byte for one. *)
Definition continuation (a : ascii) : bool :=
  (128 <=? nat_of_ascii a)%nat && (nat_of_ascii a <? 192)%nat.

Definition pair_lead (a : ascii) : bool := (240 <=? nat_of_ascii a)%nat.

Definition units (a : ascii) : nat :=
  if continuation a then 0%nat else if pair_lead a then 2%nat else 1%nat.

(** [s.length] *)
Fixpoint utf16_length (s : string) : nat :=
  match s with
  | EmptyString => 0%nat
  | String a rest => (units a + utf16_length rest)%nat
  end.

(** U+FFFD, which [Buffer.from] writes for half of a surrogate pair. *)
Definition replacement : string :=
  String "239"%char (String "191"%char (String "189"%char EmptyString)).

(** [s.substring(0, n)]: the first [n] code units; a cut inside a
    surrogate pair leaves its first half. *)
Fixpoint take_units (n : nat) (s : string) : string :=
  match s with
  | EmptyString => EmptyString
  | String a rest =>
      if continuation a then String a (take_units n rest)
      else
        match n with
        | O => EmptyString
        | S m =>
            if pair_lead a then
              match m with
              | O => replacement
              | S k => String a (take_units k rest)
              end
            else String a (take_units m rest)
        end
  end.

(** [s.substring(n)]: what follows the first [n] code units; a cut inside
    a surrogate pair leaves its second half. *)
Fixpoint skip_units (n : nat) (s : string) : string :=
  match s with
  | EmptyString => EmptyString
  | String a rest =>
      if continuation a then skip_units n rest
      else
        match n with
        | O => String a rest
        | S m =>
            if pair_lead a then
              match m with
              | O => replacement +:+ skip_units 0 rest
              | S k => skip_units k rest
              end
            else skip_units m rest
        end
  end.

(** [s.substring(a, b)] for [a <= b]. *)
Definition substring (a b : nat) (s : string) : string :=
  take_units (b - a) (skip_units a s).

(** JS truthiness of an optional string: [undefined] and the empty string
    are falsy. *)
Definition truthy (o : option string) : bool :=
  match o with
  | Some (String _ _) => true
  | _ => false
  end.

(** [a || b] on an optional string with a string default. *)
Definition or_else (o : option string) (d : string) : string :=
  match o with
  | Some (String a r) => String a r
  | _ => d
  end.

(** Decimal rendering of an integer, as a template literal prints it. *)
Definition show_Z (z : Z) : string := NilEmpty.string_of_int (Z.to_int z).

(** [s.split(c)] for a one-character separator. *)
Fixpoint split_on (c : ascii) (s : string) : list string :=
  match s with
  | EmptyString => [EmptyString]
  | String a rest =>
      if Ascii.eqb a c then EmptyString :: split_on c rest
      else match split_on c rest with
           | x :: xs => String a x :: xs
           | [] => [String a EmptyString]
           end
  end.

(** [s.startsWith(p)] *)
Fixpoint starts_with (p s : string) : bool :=
  match p, s with
  | EmptyString, _ => true
  | String a p', String b s' => Ascii.eqb a b && starts_with p' s'
  | String _ _, EmptyString => false
  end.

(** [s.endsWith(p)] *)
Fixpoint ends_with (p s : string) : bool :=
  String.eqb p s ||
  match s with
  | EmptyString => false
  | String _ rest => ends_with p rest
  end.

(** Lower case of the ASCII letters, as Node applies it to header
    names. *)
Definition ascii_lower_char (a : ascii) : ascii :=
  let n := nat_of_ascii a in
  if ((65 <=? n) && (n <=? 90))%nat then ascii_of_nat (n + 32) else a.

Fixpoint ascii_lower (s : string) : string :=
  match s with
  | EmptyString => EmptyString
  | String a rest => String (ascii_lower_char a) (ascii_lower rest)
  end.

(** The character [c] occurs in [s]. *)
Fixpoint occurs (c : ascii) (s : string) : bool :=
  match s with
  | EmptyString => false
  | String a rest => Ascii.eqb a c || occurs c rest
  end.

(** [needle] occurs in [hay] (as [hay.includes(needle)]). *)
Fixpoint includes (needle hay : string) : bool :=
  starts_with needle hay ||
  match hay with
  | EmptyString => false
  | String _ rest => includes needle rest
  end.

End Js.

(** ** Base64

    [buffer.toString("base64")] of Node: the standard alphabet with [=]
    padding. *)

Module Base64.

Definition alphabet : string :=
  "ABCDEFGHIJKLMNOPQRSTUVWXYZabcdefghijklmnopqrstuvwxyz0123456789+/".

(** A six-bit value, least significant bit first. *)
Definition sextet (b0 b1 b2 b3 b4 b5 : bool) : ascii :=
  Ascii b0 b1 b2 b3 b4 b5 false false.

(** The character that stands for a six-bit value. *)
Definition digit (v : ascii) : ascii :=
  match String.get (nat_of_ascii v) alphabet with
  | Some c => c
  | None => "="%char
  end.

Fixpoint index_from (n : nat) (c : ascii) (s : string) : option nat :=
  match s with
  | EmptyString => None
  | String a rest => if Ascii.eqb a c then Some n else index_from (S n) c rest
  end.

(** The six-bit value a character stands for. *)
Definition value (c : ascii) : option ascii :=
  ascii_of_nat <$> index_from 0 c alphabet.

Definition encode3 (a b c : ascii) : string :=
  let '(Ascii a0 a1 a2 a3 a4 a5 a6 a7) := a in
  let '(Ascii b0 b1 b2 b3 b4 b5 b6 b7) := b in
  let '(Ascii c0 c1 c2 c3 c4 c5 c6 c7) := c in
  String (digit (sextet a2 a3 a4 a5 a6 a7))
    (String (digit (sextet b4 b5 b6 b7 a0 a1))
      (String (digit (sextet c6 c7 b0 b1 b2 b3))
        (String (digit (sextet c0 c1 c2 c3 c4 c5)) EmptyString))).

Definition encode2 (a b : ascii) : string :=
  let '(Ascii a0 a1 a2 a3 a4 a5 a6 a7) := a in
  let '(Ascii b0 b1 b2 b3 b4 b5 b6 b7) := b in
  String (digit (sextet a2 a3 a4 a5 a6 a7))
    (String (digit (sextet b4 b5 b6 b7 a0 a1))
      (String (digit (sextet false false b0 b1 b2 b3)) "=")).

Definition encode1 (a : ascii) : string :=
  let '(Ascii a0 a1 a2 a3 a4 a5 a6 a7) := a in
  String (digit (sextet a2 a3 a4 a5 a6 a7))
    (String (digit (sextet false false false false a0 a1)) "==").

(** [buffer.toString("base64")] *)
Fixpoint toBase64 (buffer : string) : string :=
  match buffer with
  | EmptyString => EmptyString
  | String a EmptyString => encode1 a
  | String a (String b EmptyString) => encode2 a b
  | String a (String b (String c rest)) => encode3 a b c +:+ toBase64 rest
  end.



(** The payload of a [data:image/jpeg;base64,...] URL. *)
Definition jpeg_data_url (buffer : string) : string :=
  "data:image/jpeg;base64," +:+ toBase64 buffer.



End Base64.

(** ** Escaping of markup-special characters

    [escapeXml] is defined three times in the repository (footballGenerate.ts,
    movieGenerate.ts, imageGenerate.ts) with the same body. *)

Module Xml.

Definition escapeXml (text : string) : string :=
  Js.replace_all "'" "&#39;"
    (Js.replace_all "034" "&quot;"
      (Js.replace_all ">" "&gt;"
        (Js.replace_all "<" "&lt;"
          (Js.replace_all "&" "&amp;" text)))).

(** The entity that a single character ends up as. *)
Definition entity (a : ascii) : string :=
  if Ascii.eqb a "&" then "&amp;"
  else if Ascii.eqb a "<" then "&lt;"
  else if Ascii.eqb a ">" then "&gt;"
  else if Ascii.eqb a "034" then "&quot;"
  else if Ascii.eqb a "'" then "&#39;"
  else String a EmptyString.

Definition special (a : ascii) : bool :=
  Ascii.eqb a "&" || Ascii.eqb a "<" || Ascii.eqb a ">"
  || Ascii.eqb a "034" || Ascii.eqb a "'".

(** The entity, if any, that [s] starts with: the character it stands for
    and its length. *)
Definition entity_at (s : string) : option (ascii * nat) :=
  if Js.starts_with "&amp;" s then Some ("&"%char, 5%nat)
  else if Js.starts_with "&lt;" s then Some ("<"%char, 4%nat)
  else if Js.starts_with "&gt;" s then Some (">"%char, 4%nat)
  else if Js.starts_with "&quot;" s then Some ("034"%char, 6%nat)
  else if Js.starts_with "&#39;" s then Some ("'"%char, 5%nat)
  else None.

(** The inverse entity substitution, read from left to right: each of the
    five entities goes back to its character, anything else is copied.
    [skip] counts the characters of an entity that are still to be dropped. *)
Fixpoint unescape_from (skip : nat) (s : string) : string :=
  match s with
  | EmptyString => EmptyString
  | String a rest =>
      match skip with
      | S k => unescape_from k rest
      | O =>
          match entity_at s with
          | Some (c, n) => String c (unescape_from (Nat.pred n) rest)
          | None => String a (unescape_from 0 rest)
          end
      end
  end.

Definition unescapeXml (s : string) : string := unescape_from 0 s.

(** No markup-special character stands on its own in [s]: there is no
    [<], [>], double or single quote outside an entity, and every [&] opens
    one of the five entities. *)
Fixpoint escaped_from (skip : nat) (s : string) : bool :=
  match s with
  | EmptyString => Nat.eqb skip 0
  | String a rest =>
      match skip with
      | S k => escaped_from k rest
      | O =>
          if special a then
            match entity_at s with
            | Some (_, n) => escaped_from (Nat.pred n) rest
            | None => false
            end
          else escaped_from 0 rest
      end
  end.

Definition well_escaped (s : string) : bool := escaped_from 0 s.

End Xml.

(** ** Paths

    [path.join] of Node's POSIX [path] module, which every handler uses to
    locate an artifact below [UPLOADS_DIR]. *)

Module Path.

(** [s.split("/")] *)
Definition split (s : string) : list string := Js.split_on "/" s.

(** [segs.join("/")] *)
Fixpoint unsplit (segs : list string) : string :=
  match segs with
  | [] => EmptyString
  | [x] => x
  | x :: xs => x +:+ "/" +:+ unsplit xs
  end.

(** One segment of [normalizeString]; [stack] holds the segments kept so
    far, the last one first. *)
Definition step (allowAboveRoot : bool) (stack : list string) (seg : string)
  : list string :=
  if String.eqb seg "" || String.eqb seg "." then stack
  else if String.eqb seg ".." then
    match stack with
    | top :: below =>
        if String.eqb top ".." then
          (if allowAboveRoot then ".." :: stack else stack)
        else below
    | [] => if allowAboveRoot then [".."] else []
    end
  else seg :: stack.

Definition normalizeString (p : string) (allowAboveRoot : bool) : string :=
  unsplit (rev (fold_left (step allowAboveRoot) (split p) [])).

Fixpoint ends_with_slash (s : string) : bool :=
  match s with
  | EmptyString => false
  | String a EmptyString => Ascii.eqb a "/"
  | String _ rest => ends_with_slash rest
  end.

Fixpoint drop_last (s : string) : string :=
  match s with
  | EmptyString => EmptyString
  | String a EmptyString => EmptyString
  | String a rest => String a (drop_last rest)
  end.

Definition normalize (p : string) : string :=
  if String.eqb p "" then "."
  else
    let isAbsolute := Js.starts_with "/" p in
    let trailingSeparator := ends_with_slash p in
    let body := normalizeString p (negb isAbsolute) in
    if String.eqb body "" then
      (if isAbsolute then "/" else if trailingSeparator then "./" else ".")
    else
      let body := if trailingSeparator then body +:+ "/" else body in
      if isAbsolute then "/" +:+ body else body.

(** [path.join(a, b)] *)
Definition join (a b : string) : string :=
  match a, b with
  | EmptyString, EmptyString => "."
  | EmptyString, _ => normalize b
  | _, EmptyString => normalize a
  | _, _ => normalize (a +:+ "/" +:+ b)
  end.

(** The suffix of [s] that starts at its last dot. *)
Fixpoint from_last_dot (s : string) : option string :=
  match s with
  | EmptyString => None
  | String a rest =>
      match from_last_dot rest with
      | Some suffix => Some suffix
      | None => if Ascii.eqb a "." then Some s else None
      end
  end.

(** [path.extname(p)]: the extension of the last segment of [p], trailing
    separators apart; a name that starts with its only dot has none, and
    neither has [..]. *)
Definition extname (p : string) : string :=
  let base :=
    List.last (List.filter (fun seg => negb (String.eqb seg "")) (split p)) "" in
  match from_last_dot base with
  | Some suffix =>
      if String.eqb suffix base || String.eqb base ".." then "" else suffix
  | None => ""
  end.

(** [p] is [dir] itself or lies below it. *)
Definition inside (dir p : string) : bool :=
  String.eqb p dir || Js.starts_with (dir +:+ "/") p.

End Path.

(** ** HTTP values *)

Module Http.

(** The payload objects the handlers pass to [reply.send]. *)
#[local] Unset Elimination Schemes.
Inductive json :=
| JNull
| JBool (b : bool)
| JNum (z : Z)
| JStr (s : string)
| JArr (items : list json)
| JObj (fields : list (string * json)).
#[local] Set Elimination Schemes.

Inductive Payload :=
| Json (value : json)
| Bytes (content : string)
| Text (content : string).

Record Reply := mkReply {
  code : Z;
  headers : list (string * string);
  payload : Payload
}.

(** The parts of a Fastify request that the handlers read besides the
    parsed body, query and params. *)
Record Request := mkRequest {
  method : string;
  url : string;
  req_headers : gmap string string;
  protocol : string;            (* [request.protocol] *)
  socket_encrypted : bool       (* [request.socket.encrypted] *)
}.

(** A raw query-string parameter: absent, given once, or repeated (which
    the parser hands over as an array). *)
Inductive qparam := QAbsent | QString (s : string) | QRepeated (l : list string).

Record RawQuery := mkRawQuery { raw_base64 : qparam; raw_file : qparam }.

(** The parsed query of the generation endpoints. *)
Record Query := mkQuery { base64 : bool; file : bool }.

(** [z.string().optional().transform((val) => val === "true")] *)
Definition flag (p : qparam) : option bool :=
  match p with
  | QAbsent => Some false
  | QString s => Some (String.eqb s "true")
  | QRepeated _ => None
  end.

(** [footballQuerySchema], [movieQuerySchema] and the inline query schema
    of footballGenerateHtml.ts have this same definition. *)
Definition querySchema (q : RawQuery) : option Query :=
  match flag (raw_base64 q), flag (raw_file q) with
  | Some b, Some f => Some (mkQuery b f)
  | _, _ => None
  end.

(** Field access on a payload object. *)
Fixpoint field (name : string) (fields : list (string * json)) : option json :=
  match fields with
  | [] => None
  | (k, v) :: rest => if String.eqb k name then Some v else field name rest
  end.

Definition payload_field (name : string) (r : Reply) : option json :=
  match payload r with
  | Json (JObj fields) => field name fields
  | _ => None
  end.

End Http.

(** ** The outside world *)

Module Sys.

Definition Buffer := string.

(** What a thrown value carries: every [throw] in the code and in the
    libraries raises an [Error] with a message. *)
Inductive exn := JsError (message : string).

Definition message (e : exn) : string := let 'JsError m := e in m.

Inductive node := File (content : Buffer) | Dir.

Inductive Event :=
| EvFetch (url : string)
| EvImage (operation : string)
| EvBrowser
| EvPage (html : string)
| EvWrite (path : string) (content : Buffer)
| EvMkdir (path : string)
| EvUnlink (path : string)
| EvTimer (delay : Z) (path : string)
| EvLog (level text : string).

(** A pending [setTimeout] that unlinks [target] at time [fire_at]. *)
Record Timer := mkTimer { fire_at : Z; target : string }.

Record World := mkWorld {
  fs : gmap string node;
  timers : list Timer;
  now : Z;          (* the clock, in milliseconds *)
  ticks : nat;      (* awaited I/O operations so far *)
  uuids : nat;      (* [randomUUID()] calls so far *)
  randoms : nat;    (* [Math.random()] calls so far *)
  out_headers : list (string * string);
                    (* headers set on the [reply] under construction *)
  trace : list Event
}.

(** A node-fetch [Response]; [body] is what [response.buffer()] resolves
    to, [None] when reading the body fails. *)
Record Response := mkResponse {
  ok : bool;
  status : Z;
  statusText : string;
  body : option Buffer
}.

Inductive Fit := Cover | Inside.

(** The argument of puppeteer's [page.setViewport]. *)
Record Viewport := mkViewport {
  vp_width : Z;
  vp_height : Z;
  deviceScaleFactor : Z
}.

(** The argument of puppeteer's [page.screenshot]. *)
Record ScreenshotOptions := mkScreenshotOptions {
  shot_type : string;
  shot_quality : Z;
  fullPage : bool
}.

(** A member of the array passed to [sharp(...).composite]; [blend] is
    ["over"] at every call site. *)
Record CompositeOp := mkOp {
  input : Buffer;
  left : option Q;
  top : option Q
}.

Record Env := mkEnv {
  (* [process.cwd()] *)
  cwd : string;
  (* node-fetch: what a GET of the URL yields, a network error or a
     response *)
  fetch_result : string -> exn + Response;
  (* [sharp(buf).resize(w, h, {fit}).png().toBuffer()]; [None] when sharp
     rejects the input or the dimensions *)
  sharp_resize_png : Fit -> Z -> Z -> Buffer -> option Buffer;
  (* [sharp(bg).resize(w, h, {fit: "cover"}).composite(ops)
       .jpeg({quality: 95}).toBuffer()] *)
  sharp_composite_jpeg : Buffer -> Z -> Z -> list CompositeOp -> option Buffer;
  (* puppeteer, when installed: the screenshot that a browser session
     gives for a viewport, the content set on the page and the screenshot
     options; [None] inside when a step of the session fails *)
  puppeteer : option (Viewport -> string -> ScreenshotOptions -> option Buffer);
  (* [crypto.randomUUID()], the n-th call *)
  uuid : nat -> string;
  (* [Math.floor(Math.random() * 8)], the n-th call *)
  random8 : nat -> nat;
  (* duration in ms of the n-th awaited I/O operation *)
  latency : nat -> N;
  (* zod's [z.string().url()] *)
  is_url : string -> bool;
  (* [String.prototype.toUpperCase] and [toLowerCase] *)
  toUpperCase : string -> string;
  toLowerCase : string -> string;
  (* [parseInt(s, 16)]; [None] is [NaN] *)
  parseInt16 : string -> option Z;
  (* [Number.prototype.toString] *)
  show_number : Q -> string
}.

(** *** The monad of asynchronous computations *)

Definition M (A : Type) : Type := World -> (exn + A) * World.

Definition ret {A} (a : A) : M A := fun w => (inr a, w).

Definition bind {A B} (m : M A) (k : A -> M B) : M B :=
  fun w => match m w with
           | (inr a, w') => k a w'
           | (inl e, w') => (inl e, w')
           end.

Definition throw {A} (e : exn) : M A := fun w => (inl e, w).

(** [try { body } catch (error) { handler }] *)
Definition try_catch {A} (body : M A) (handler : exn -> M A) : M A :=
  fun w => match body w with
           | (inr a, w') => (inr a, w')
           | (inl e, w') => handler e w'
           end.

(** [try { body } finally { cleanup }] *)
Definition try_finally {A} (body : M A) (cleanup : M unit) : M A :=
  fun w => match body w with
           | (r, w') =>
               match cleanup w' with
               | (inr _, w'') => (r, w'')
               | (inl e, w'') => (inl e, w'')
               end
           end.

Definition get : M World := fun w => (inr w, w).
Definition modify (f : World -> World) : M unit := fun w => (inr tt, f w).

Notation "'let*' x ':=' m 'in' k" := (bind m (fun x => k))
  (at level 10, x name, m at level 100, k at level 200).
Notation "'let*' ' p ':=' m 'in' k" := (bind m (fun p => k))
  (at level 10, p pattern, m at level 100, k at level 200).
Notation "'exec' m 'in' k" := (bind m (fun _ => k))
  (at level 10, m at level 100, k at level 200).

(** [for (const x of xs) { body(x) }] with the loop-carried value [acc]. *)
Fixpoint for_each {A S} (xs : list A) (acc : S) (body : S -> A -> M S) : M S :=
  match xs with
  | [] => ret acc
  | x :: rest => let* acc' := body acc x in for_each rest acc' body
  end.

Definition set_fs (f : gmap string node -> gmap string node) (w : World) :=
  mkWorld (f (fs w)) (timers w) (now w) (ticks w) (uuids w) (randoms w)
    (out_headers w) (trace w).
Definition set_timers (f : list Timer -> list Timer) (w : World) :=
  mkWorld (fs w) (f (timers w)) (now w) (ticks w) (uuids w) (randoms w)
    (out_headers w) (trace w).
Definition set_now (f : Z -> Z) (w : World) :=
  mkWorld (fs w) (timers w) (f (now w)) (ticks w) (uuids w) (randoms w)
    (out_headers w) (trace w).
Definition set_ticks (f : nat -> nat) (w : World) :=
  mkWorld (fs w) (timers w) (now w) (f (ticks w)) (uuids w) (randoms w)
    (out_headers w) (trace w).
Definition set_uuids (f : nat -> nat) (w : World) :=
  mkWorld (fs w) (timers w) (now w) (ticks w) (f (uuids w)) (randoms w)
    (out_headers w) (trace w).
Definition set_randoms (f : nat -> nat) (w : World) :=
  mkWorld (fs w) (timers w) (now w) (ticks w) (uuids w) (f (randoms w))
    (out_headers w) (trace w).
Definition set_out_headers
  (f : list (string * string) -> list (string * string)) (w : World) :=
  mkWorld (fs w) (timers w) (now w) (ticks w) (uuids w) (randoms w)
    (f (out_headers w)) (trace w).
Definition emit (e : Event) (w : World) :=
  mkWorld (fs w) (timers w) (now w) (ticks w) (uuids w) (randoms w)
    (out_headers w) (trace w ++ [e])%list.

Section Primitives.
Context (E : Env).

(** Awaiting an I/O operation lets the clock advance. *)
Definition await_io : M unit :=
  modify (fun w =>
    set_ticks S (set_now (fun t => t + Z.of_N (latency E (ticks w))) w)).

Definition logger (level text : string) : M unit := modify (emit (EvLog level text)).

(** [await fetch(url)] *)
Definition fetch (url : string) : M Response :=
  exec modify (emit (EvFetch url)) in exec await_io in
  match fetch_result E url with
  | inl error => throw error
  | inr response => ret response
  end.

(** [await response.buffer()] (and [response.arrayBuffer()]) *)
Definition response_buffer (response : Response) : M Buffer :=
  exec await_io in
  match body response with
  | Some buffer => ret buffer
  | None => throw (JsError "body stream error")
  end.

(** [await sharp(buf).resize(w, h, {fit}).png().toBuffer()] *)
Definition sharp_resize (fit : Fit) (w h : Z) (buf : Buffer) : M Buffer :=
  exec modify (emit (EvImage "resize")) in exec await_io in
  match sharp_resize_png E fit w h buf with
  | Some out => ret out
  | None => throw (JsError "sharp: unsupported image or dimensions")
  end.

(** [await sharp(bg).resize(w, h, {fit: "cover"}).composite(ops)
      .jpeg({quality: 95}).toBuffer()] *)
Definition sharp_composite (bg : Buffer) (w h : Z) (ops : list CompositeOp)
  : M Buffer :=
  exec modify (emit (EvImage "composite")) in exec await_io in
  match sharp_composite_jpeg E bg w h ops with
  | Some out => ret out
  | None => throw (JsError "sharp: composite failed")
  end.

(** The entry a path designates; with a trailing separator it has to be a
    directory. *)
Definition stat (files : gmap string node) (p : string) : option node :=
  if Path.ends_with_slash p then
    match files !! Path.drop_last p with
    | Some Dir => Some Dir
    | _ => None
    end
  else files !! p.

(** [await fs.access(p)] *)
Definition fs_access (p : string) : M unit :=
  exec await_io in
  let* w := get in
  match stat (fs w) p with
  | Some _ => ret tt
  | None => throw (JsError "ENOENT: no such file or directory")
  end.

(** [await fs.readFile(p)] *)
Definition fs_readFile (p : string) : M Buffer :=
  exec await_io in
  let* w := get in
  match stat (fs w) p with
  | Some (File content) => ret content
  | Some Dir => throw (JsError "EISDIR: illegal operation on a directory")
  | None => throw (JsError "ENOENT: no such file or directory")
  end.

(** [await fs.writeFile(p, buf)] *)
Definition fs_writeFile (p : string) (buf : Buffer) : M unit :=
  exec await_io in
  let* w := get in
  match stat (fs w) p with
  | Some Dir => throw (JsError "EISDIR: illegal operation on a directory")
  | _ => modify (fun w => emit (EvWrite p buf) (set_fs (insert p (File buf)) w))
  end.

(** [await fs.mkdir(p, { recursive: true })] *)
Definition fs_mkdir (p : string) : M unit :=
  exec await_io in
  let* w := get in
  match stat (fs w) p with
  | Some (File _) => throw (JsError "EEXIST: file already exists")
  | _ => modify (fun w => emit (EvMkdir p) (set_fs (insert p Dir) w))
  end.

(** [await fs.unlink(p)] *)
Definition fs_unlink (p : string) : M unit :=
  exec await_io in
  let* w := get in
  match stat (fs w) p with
  | Some (File _) => modify (fun w => emit (EvUnlink p) (set_fs (delete p) w))
  | Some Dir => throw (JsError "EPERM: operation not permitted")
  | None => throw (JsError "ENOENT: no such file or directory")
  end.

(** [randomUUID()] *)
Definition randomUUID : M string :=
  let* w := get in exec modify (set_uuids S) in ret (uuid E (uuids w)).

(** [Math.floor(Math.random() * 8)] *)
Definition random_index : M nat :=
  let* w := get in exec modify (set_randoms S) in ret (random8 E (randoms w)).

(** The [reply] that a handler receives: Fastify builds one for each
    request, with no header set. *)
Definition new_reply : M unit := modify (set_out_headers (fun _ => [])).

(** [reply.header(name, value)] *)
Definition reply_header (name value : string) : M unit :=
  modify (set_out_headers (fun hs => (hs ++ [(name, value)])%list)).

(** [reply.getHeader(name)]: header names are compared in lower case, and
    the value set last wins. *)
Fixpoint get_header (name : string) (hs : list (string * string))
  : option string :=
  match hs with
  | [] => None
  | (k, v) :: rest =>
      match get_header name rest with
      | Some later => Some later
      | None => if String.eqb (Js.ascii_lower k) name then Some v else None
      end
  end.

(** Fastify serialises an object as JSON only when no content type is set
    or the one set mentions [json]; under any other content type it refuses
    a payload that is neither a string nor a buffer. *)
Definition refused (hs : list (string * string)) (p : Http.Payload) : bool :=
  match p with
  | Http.Json _ =>
      match get_header "content-type" hs with
      | Some contentType => negb (Js.includes "json" contentType)
      | None => false
      end
  | _ => false
  end.

(** [reply.code(c).send(payload)]: the reply leaves with the headers set
    so far, unless Fastify refuses the payload
    ([FST_ERR_REP_INVALID_PAYLOAD_TYPE]). *)
Definition send (c : Z) (p : Http.Payload) : M Http.Reply :=
  let* w := get in
  if refused (out_headers w) p then
    throw (JsError "FST_ERR_REP_INVALID_PAYLOAD_TYPE")
  else
    exec modify (set_out_headers (fun _ => [])) in
    ret (Http.mkReply c (out_headers w) p).

(** [Date.now()] *)
Definition date_now : M Z := let* w := get in ret (now w).

(** [setTimeout(() => unlink(path), delay)]: the deletion is recorded as
    pending; it is run by [fire] below, outside of any request. *)
Definition setTimeout_unlink (path : string) (delay : Z) : M unit :=
  modify (fun w =>
    emit (EvTimer delay path)
      (set_timers (fun ts => (ts ++ [mkTimer (now w + delay) path])%list) w)).

(** The callback every [saveImageAndGetLink] schedules. *)
Definition unlink_callback (path : string) : M unit :=
  try_catch
    (exec fs_unlink path in logger "debug" "Deleted temporary file")
    (fun _ => logger "warn" "Failed to delete temporary file").

Definition same_timer (a b : Timer) : bool :=
  Z.eqb (fire_at a) (fire_at b) && String.eqb (target a) (target b).

(** The timer [t] fires: the clock has reached [fire_at t], the timer
    leaves the pending list and its callback runs. *)
Definition fire (t : Timer) (w : World) : World :=
  snd (unlink_callback (target t)
         (set_now (Z.max (fire_at t))
            (set_timers (List.filter (fun t' => negb (same_timer t' t))) w))).

End Primitives.

End Sys.

(** ** Markup templates

    A template literal is kept as the list of its pieces, so that the origin
    of every piece stays visible: static text, an interpolated number, text
    taken from a text field of the request (in whatever form the code splices
    it in), or a URL field of the request. [render] is the string the template literal evaluates to. *)

Module Markup.
Import Sys.

Inductive frag :=
| Lit (s : string)
| Int (z : Z)
| Num (q : Q)
| UserText (s : string)
| UserUrl (s : string).

(** Static markup is written with a backquote wherever the source has a
    double quote. *)
Definition markup (s : string) : string := Js.replace_all "`" Js.dq s.

Definition render_frag (E : Env) (f : frag) : string :=
  match f with
  | Lit s => s
  | Int z => Js.show_Z z
  | Num q => show_number E q
  | UserText s => s
  | UserUrl s => s
  end.

Fixpoint render (E : Env) (fs : list frag) : string :=
  match fs with
  | [] => EmptyString
  | f :: rest => render_frag E f +:+ render E rest
  end.

(** The request-derived pieces of a template. *)
Fixpoint user_texts (fs : list frag) : list string :=
  match fs with
  | [] => []
  | UserText s :: rest => s :: user_texts rest
  | _ :: rest => user_texts rest
  end.

End Markup.

(** ** footballGenerate.ts *)

Module Football.
Import Js Xml Base64 Sys Http Markup.

Definition WATERMARK_TEXT : string := "app.notifique.net".
Definition WATERMARK_ENABLED : bool := true.

Record Canal := mkCanal { channelName : string; logoUrl : string }.

Record Jogo := mkJogo {
  timeHome : string;
  logoHomeUrl : string;
  timeAway : string;
  logoAwayUrl : string;
  horario : string;
  canais : option (list Canal)
}.

Record ScheduleBody := mkScheduleBody {
  logoEmpresaUrl : string;
  data : string;
  jogos : list Jogo;
  corFundo : option string;
  fundoUrl : option string;
  whatsapp : option string
}.

Inductive Alignment := AlignLeft | AlignCenter | AlignRight.
Inductive Positioning := Sides | Inline.
Inductive LogoPosition := BottomCenter | TopRight.

(** A colour channel read by [parseInt]; [None] is [NaN]. *)
Definition channel_add (c : option Z) (k : Z) : option Z := (fun v => v + k) <$> c.
Definition channel_min (k : Z) (c : option Z) : option Z := Z.min k <$> c.
Definition channel_max (k : Z) (c : option Z) : option Z := Z.max k <$> c.
Definition show_channel (c : option Z) : string :=
  match c with Some v => show_Z v | None => "NaN" end.

(** [Math.round] *)
Definition round (q : Q) : Z := Qfloor (q + 0.5).

Section WithEnv.
Context (E : Env).

Definition UPLOADS_DIR : string := Path.join (cwd E) "temp-images".

Definition ensureUploadsDir : M unit :=
  try_catch (fs_access E UPLOADS_DIR) (fun _ => fs_mkdir E UPLOADS_DIR).

(** *** The request schema *)

Definition canalSchema (c : Canal) : bool := is_url E (logoUrl c).

Definition jogoSchema (j : Jogo) : bool :=
  is_url E (logoHomeUrl j) && is_url E (logoAwayUrl j)
  && match canais j with
     | Some cs => forallb canalSchema cs
     | None => true
     end.

Definition footballScheduleSchema (b : ScheduleBody) : bool :=
  is_url E (logoEmpresaUrl b)
  && forallb jogoSchema (jogos b)
  && (length (jogos b) <=? 5)%nat
  && match fundoUrl b with
     | Some u => is_url E u
     | None => true
     end.

(** *** Asset fetching *)

Definition createPlaceholderImage (width height : Z) (color text : string)
  : M Buffer :=
  let svg :=
    (markup "<svg width=`") +:+
    show_Z width +:+
    (markup "` height=`") +:+
    show_Z height +:+
    (markup "` xmlns=`http://www.w3.org/2000/svg`>
		<rect width=`100%` height=`100%` fill=`") +:+
    color +:+
    (markup "`/>
		<text x=`50%` y=`50%` font-family=`Arial` font-size=`20` fill=`white` text-anchor=`middle` dy=`.3em`>") +:+
    text +:+
    "</text>
	</svg>" in
  ret svg.

Definition downloadImageWithFallback (url : string) (width height : Z)
  (fallbackText : string) : M Buffer :=
  try_catch
    (let* response := fetch E url in
     if negb (ok response) then
       throw (JsError ("HTTP " +:+ show_Z (status response)))
     else
       let* buffer := response_buffer E response in
       sharp_resize E Cover width height buffer)
    (fun error =>
       exec logger "warn"
         ("Failed to download image from " +:+ url +:+ ", using placeholder:")
       in createPlaceholderImage width height "#666666" fallbackText).

Definition createFootballGradientBackground (width height : Z) (color : string)
  : Buffer :=
  let baseColor := Js.replace_first "#" "" color in
  let r := parseInt16 E (Js.substring 0 2 baseColor) in
  let g := parseInt16 E (Js.substring 2 4 baseColor) in
  let b := parseInt16 E (Js.substring 4 6 baseColor) in
  (markup "
		<svg width=`") +:+
  show_Z width +:+
  (markup "` height=`") +:+
  show_Z height +:+
  (markup "` xmlns=`http://www.w3.org/2000/svg`>
			<defs>
				<radialGradient id=`footballGrad` cx=`50%` cy=`30%`>
					<stop offset=`0%` style=`stop-color:rgb(") +:+
  show_channel (channel_min 255 (channel_add r 40)) +:+
  "," +:+
  show_channel (channel_min 255 (channel_add g 40)) +:+
  "," +:+
  show_channel (channel_min 255 (channel_add b 40)) +:+
  (markup ");stop-opacity:1` />
					<stop offset=`60%` style=`stop-color:rgb(") +:+
  show_channel r +:+
  "," +:+
  show_channel g +:+
  "," +:+
  show_channel b +:+
  (markup ");stop-opacity:1` />
					<stop offset=`100%` style=`stop-color:rgb(") +:+
  show_channel (channel_max 0 (channel_add r (-60))) +:+
  "," +:+
  show_channel (channel_max 0 (channel_add g (-60))) +:+
  "," +:+
  show_channel (channel_max 0 (channel_add b (-60))) +:+
  (markup ");stop-opacity:1` />
				</radialGradient>
				<pattern id=`footballPattern` patternUnits=`userSpaceOnUse` width=`100` height=`100` patternTransform=`rotate(45)`>
					<rect width=`100` height=`100` fill=`url(#footballGrad)`/>
					<circle cx=`50` cy=`50` r=`40` fill=`none` stroke=`rgba(255,255,255,0.03)` stroke-width=`2`/>
				</pattern>
			</defs>
			<rect width=`100%` height=`100%` fill=`url(#footballPattern)` />
			<!-- Decorative side elements -->
			<rect x=`0` y=`0` width=`8` height=`100%` fill=`rgba(0,255,0,0.6)` />
			<rect x=`") +:+
  show_Z (width - 8) +:+
  (markup "` y=`0` width=`8` height=`100%` fill=`rgba(0,255,0,0.6)` />
		</svg>
	").

(** *** The overlay *)

Definition createGameCard (width gameY : Z) (gameIndex : nat) (gameHeight : Z)
  : list frag :=
  [Lit (markup "
		<defs>
			<linearGradient id=`gameGrad");
   Int (Z.of_nat gameIndex);
   Lit (markup "` x1=`0%` y1=`0%` x2=`100%` y2=`0%`>
				<stop offset=`0%` style=`stop-color:rgba(0,0,0,0.6);stop-opacity:1` />
				<stop offset=`50%` style=`stop-color:rgba(0,0,0,0.8);stop-opacity:1` />
				<stop offset=`100%` style=`stop-color:rgba(0,0,0,0.6);stop-opacity:1` />
			</linearGradient>
			<filter id=`gameShadow");
   Int (Z.of_nat gameIndex);
   Lit (markup "` x=`-10%` y=`-10%` width=`120%` height=`120%`>
				<feDropShadow dx=`0` dy=`6` stdDeviation=`8` flood-color=`rgba(0,0,0,0.5)`/>
			</filter>
		</defs>
		<rect x=`");
   Num (inject_Z width * 0.05);
   Lit (markup "` y=`");
   Int (gameY - 10);
   Lit (markup "` width=`");
   Num (inject_Z width * 0.9);
   Lit (markup "` height=`");
   Int gameHeight;
   Lit (markup "` 
			  rx=`25` fill=`url(#gameGrad");
   Int (Z.of_nat gameIndex);
   Lit (markup ")` stroke=`rgba(0,255,65,0.4)` stroke-width=`2` 
			  filter=`url(#gameShadow");
   Int (Z.of_nat gameIndex);
   Lit (markup ")`/>
	")].

Definition createTimeDisplay (centerX : Q) (gameY : Z) (horario : string)
  (timeFontSize : Q) : list frag :=
  [Lit (markup "
		<rect x=`");
   Num (centerX - 60);
   Lit (markup "` y=`");
   Int (gameY + 5);
   Lit (markup "` width=`120` height=`35` rx=`18` 
			  fill=`linear-gradient(45deg, #ffff00, #ffd700)` stroke=`rgba(0,0,0,0.3)` stroke-width=`2`/>
		<text x=`");
   Num centerX;
   Lit (markup "` y=`");
   Int (gameY + 28);
   Lit (markup "` font-size=`");
   Num timeFontSize;
   Lit (markup "` 
			  class=`time` text-anchor=`middle`>");
   UserText (escapeXml horario);
   Lit "</text>
	"].

Definition createTeamDisplay (teamName : string) (x : Q) (y : Z)
  (teamFontSize : Q) (alignment : Alignment) : list frag :=
  let textAnchor :=
    match alignment with
    | AlignLeft => "start"
    | AlignRight => "end"
    | AlignCenter => "middle"
    end in
  [Lit (markup "
		<text x=`");
   Num x;
   Lit (markup "` y=`");
   Int y;
   Lit (markup "` font-size=`");
   Num teamFontSize;
   Lit (markup "` class=`team` text-anchor=`");
   Lit textAnchor;
   Lit (markup "`>
			");
   UserText (escapeXml (toUpperCase E teamName));
   Lit "
		</text>
	"].

Definition createVsSymbol (centerX : Q) (gameY : Z) (teamFontSize : Q)
  : list frag :=
  [Lit (markup "
		<text x=`");
   Num centerX;
   Lit (markup "` y=`");
   Int (gameY + 70);
   Lit (markup "` font-size=`");
   Num (teamFontSize * 1.1);
   Lit (markup "` class=`vs` text-anchor=`middle`>×</text>
	")].

Definition createChannelDisplay (centerX : Q) (gameY : Z) (canais : list Canal)
  (channelFontSize : Q) : list frag :=
  match canais with
  | [] => []
  | _ =>
    let maxChannelsToShow := Nat.min (length canais) 3 in
    let channelLogoSize := 20%Q in
    let estimatedPairWidth := (channelLogoSize + 5 + 60)%Q in
    let totalWidth := (inject_Z (Z.of_nat maxChannelsToShow) * estimatedPairWidth)%Q in
    let startX := (centerX - totalWidth / 2)%Q in
    let boxWidth := Qmax 200 (totalWidth + 20) in
    let textX (i : nat) :=
      (startX + inject_Z (Z.of_nat i) * estimatedPairWidth + channelLogoSize + 5)%Q in
    let box :=
      [Lit (markup "
		<rect x=`");
       Num (centerX - boxWidth / 2);
       Lit (markup "` y=`");
       Int (gameY + 110);
       Lit (markup "` width=`");
       Num boxWidth;
       Lit (markup "` height=`28` rx=`14` 
			  fill=`rgba(0,0,0,0.9)` stroke=`rgba(255,255,255,0.3)` stroke-width=`1`/>
	")] in
    let names :=
      concat (imap (fun i canal =>
        [Lit (markup "
			<text x=`");
         Num (textX i);
         Lit (markup "` y=`");
         Int (gameY + 128);
         Lit (markup "` font-size=`");
         Num (channelFontSize * 0.8);
         Lit (markup "` class=`channel` text-anchor=`start`>
				");
         UserText (escapeXml (channelName canal));
         Lit "
			</text>
		"])
        (firstn maxChannelsToShow canais)) in
    let more :=
      if (maxChannelsToShow <? length canais)%nat then
        [Lit (markup "
			<text x=`");
         Num (startX + inject_Z (Z.of_nat maxChannelsToShow) * estimatedPairWidth);
         Lit (markup "` y=`");
         Int (gameY + 128);
         Lit (markup "` font-size=`");
         Num (channelFontSize * 0.8);
         Lit (markup "` class=`channel` text-anchor=`start`>
				");
         Lit "+"; Int (Z.of_nat (length canais - maxChannelsToShow));
         Lit "
			</text>
		"]
      else [] in
    (box ++ names ++ more)%list
  end.

Definition createHeader (width : Z) (data : string)
  (titleFontSize dateFontSize : Q) (topMargin : Z) : list frag :=
  [Lit (markup "
		<!-- Main title `JOGOS DO DIA` centered at top -->
		<text x=`");
   Num (inject_Z width / 2);
   Lit (markup "` y=`");
   Int topMargin;
   Lit (markup "` font-size=`");
   Num titleFontSize;
   Lit (markup "` class=`main-title` text-anchor=`middle`>JOGOS DO DIA</text>
		
		<!-- Date centered below title -->
		<text x=`");
   Num (inject_Z width / 2);
   Lit (markup "` y=`");
   Int (topMargin + 60);
   Lit (markup "` font-size=`");
   Num dateFontSize;
   Lit (markup "` class=`date-title` text-anchor=`middle`>");
   UserText (escapeXml data);
   Lit "</text>
	"].

Definition createContactSection (width contactY : Z) (whatsapp : string)
  (contactFontSize : Q) : list frag :=
  [Lit (markup "
		<rect x=`");
   Num (inject_Z width * 0.05);
   Lit (markup "` y=`");
   Int contactY;
   Lit (markup "` width=`");
   Num (inject_Z width * 0.9);
   Lit (markup "` height=`80` rx=`40` 
			  fill=`linear-gradient(45deg, #25d366, #128c7e)` stroke=`rgba(255,255,255,0.4)` stroke-width=`3`/>
		<text x=`");
   Num (inject_Z width / 2);
   Lit (markup "` y=`");
   Int (contactY + 50);
   Lit (markup "` font-size=`");
   Num contactFontSize;
   Lit (markup "` class=`contact` text-anchor=`middle`>
			📱 ");
   UserText (escapeXml whatsapp);
   Lit "
		</text>
	"].

Definition createWatermark (width height : Z) (watermarkFontSize : Q)
  : list frag :=
  let watermarkY := height - 30 in
  [Lit (markup "
		<text x=`");
   Num (inject_Z width / 2);
   Lit (markup "` y=`");
   Int watermarkY;
   Lit (markup "` font-size=`");
   Num watermarkFontSize;
   Lit (markup "` class=`watermark` text-anchor=`middle`>
			");
   Lit (escapeXml WATERMARK_TEXT);
   Lit "
		</text>
	"].

Definition createGameSection (width gameY : Z) (gameIndex : nat) (jogo : Jogo)
  (teamFontSize timeFontSize channelFontSize : Q) : list frag :=
  let centerX := (inject_Z width / 2)%Q in
  (createGameCard width gameY gameIndex 120
   ++ createTimeDisplay centerX gameY (horario jogo) timeFontSize
   ++ createTeamDisplay (timeHome jogo) (inject_Z width * 0.18) (gameY + 65)
        teamFontSize AlignLeft
   ++ createVsSymbol centerX gameY teamFontSize
   ++ createTeamDisplay (timeAway jogo) (inject_Z width * 0.82) (gameY + 65)
        teamFontSize AlignRight
   ++ match canais jogo with
      | Some (c :: cs) =>
          createChannelDisplay centerX gameY (c :: cs) channelFontSize
      | _ => []
      end)%list.

Definition createFootballScheduleOverlay (width height : Z) (data : string)
  (jogos : list Jogo) (whatsapp : option string) : list frag :=
  let titleFontSize := Qmin (inject_Z width * 0.12) 80 in
  let dateFontSize := Qmin (inject_Z width * 0.08) 60 in
  let teamFontSize := Qmin (inject_Z width * 0.06) 45 in
  let timeFontSize := Qmin (inject_Z width * 0.05) 38 in
  let channelFontSize := Qmin (inject_Z width * 0.04) 30 in
  let contactFontSize := Qmin (inject_Z width * 0.07) 50 in
  let watermarkFontSize := Qmin (inject_Z width * 0.03) 24 in
  let topMargin := 80 in
  let gameStartY := 200 in
  let gameSpacing := 180 in
  let contactY := gameStartY + Z.of_nat (length jogos) * gameSpacing + 60 in
  ([Lit (markup "
		<svg width=`");
     Int width;
     Lit (markup "` height=`");
     Int height;
     Lit (markup "` xmlns=`http://www.w3.org/2000/svg`>
			<defs>
				<style>
					.main-title { 
						font-family: 'Arial Black', Arial, sans-serif; 
						font-weight: 900; 
						fill: #00ff41; 
						text-shadow: 3px 3px 6px rgba(0,0,0,0.8);
						letter-spacing: 3px;
					}
					.date-title { 
						font-family: 'Arial Black', Arial, sans-serif; 
						font-weight: 900; 
						fill: white; 
						text-shadow: 2px 2px 4px rgba(0,0,0,0.8);
						letter-spacing: 2px;
					}
					.team { 
						font-family: 'Arial Black', Arial, sans-serif; 
						font-weight: 900; 
						fill: white; 
						text-shadow: 2px 2px 4px rgba(0,0,0,0.8);
						letter-spacing: 1.5px;
					}
					.time { 
						font-family: 'Arial Black', Arial, sans-serif; 
						font-weight: 900; 
						fill: #000; 
						text-shadow: 1px 1px 2px rgba(255,255,255,0.3);
					}
					.channel { 
						font-family: Arial, sans-serif; 
						fill: white; 
						font-weight: 700;
						text-shadow: 1px 1px 2px rgba(0,0,0,0.8);
					}
					.vs { 
						font-family: 'Arial Black', Arial, sans-serif; 
						font-weight: 900; 
						fill: #00ff41; 
						text-shadow: 2px 2px 4px rgba(0,0,0,0.8);
					}
					.contact { 
						font-family: 'Arial Black', Arial, sans-serif; 
						fill: white; 
						font-weight: 900;
						text-shadow: 2px 2px 4px rgba(0,0,0,0.8);
						letter-spacing: 1px;
					}
					.watermark { 
						font-family: Arial, sans-serif; 
						fill: rgba(255,255,255,0.6); 
						font-weight: 500;
					}
				</style>
			</defs>
	")]
   ++ createHeader width data titleFontSize dateFontSize topMargin
   ++ concat (imap (fun index jogo =>
        let gameY := gameStartY + Z.of_nat index * gameSpacing in
        createGameSection width gameY index jogo
          teamFontSize timeFontSize channelFontSize) jogos)
   ++ match whatsapp with
      | Some (String a rest) =>
          createContactSection width contactY (String a rest) contactFontSize
      | _ => []
      end
   ++ (if WATERMARK_ENABLED
       then createWatermark width height watermarkFontSize else [])
   ++ [Lit "</svg>"])%list.

(** *** Composition *)

(** [sharp(teamLogos[i])]: the constructor rejects a missing input. *)
Definition logo_at (teamLogos : list Buffer) (i : nat) : M Buffer :=
  match teamLogos !! i with
  | Some b => ret b
  | None => throw (JsError "Unsupported input")
  end.

Definition createTeamLogoComposite (teamLogos : list Buffer) (gameIndex : nat)
  (gameY width : Z) (teamLogoSize : Q) (positioning : Positioning)
  : M (list CompositeOp) :=
  let* home := logo_at teamLogos (gameIndex * 2) in
  let* logoHomeResized :=
    sharp_resize E Inside (round teamLogoSize) (round teamLogoSize) home in
  let* away := logo_at teamLogos (gameIndex * 2 + 1) in
  let* logoAwayResized :=
    sharp_resize E Inside (round teamLogoSize) (round teamLogoSize) away in
  match positioning with
  | Sides =>
      ret [ mkOp logoHomeResized
              (Some (inject_Z (round (inject_Z width * 0.15))))
              (Some (inject_Z (round (inject_Z (gameY + 25)))));
            mkOp logoAwayResized
              (Some (inject_Z (round (inject_Z width * 0.75))))
              (Some (inject_Z (round (inject_Z (gameY + 25))))) ]
  | Inline =>
      ret [ mkOp logoHomeResized
              (Some (inject_Z (round (inject_Z width * 0.08))))
              (Some (inject_Z (round (inject_Z (gameY + 35)))));
            mkOp logoAwayResized
              (Some (inject_Z (round (inject_Z width * 0.88))))
              (Some (inject_Z (round (inject_Z (gameY + 35))))) ]
  end.

Definition createCompanyLogoComposite (logoBuffer : Buffer) (logoSize : Q)
  (width logoY height : Z) (position : LogoPosition) : M CompositeOp :=
  let* logoResized :=
    sharp_resize E Cover (round logoSize) (round logoSize) logoBuffer in
  match position with
  | BottomCenter =>
      ret (mkOp logoResized
             (Some (inject_Z (round ((inject_Z width - logoSize) / 2))))
             (Some (Qmin (inject_Z logoY) (inject_Z height - logoSize - 60))))
  | TopRight =>
      ret (mkOp logoResized
             (Some (inject_Z (width - round logoSize - 30)))
             (Some 30%Q))
  end.

Definition createChannelLogoComposite (canais : list Canal) (gameY width : Z)
  (channelLogoSize : Z) : M (list CompositeOp) :=
  match canais with
  | [] => ret []
  | _ =>
    let centerX := (inject_Z width / 2)%Q in
    let maxChannelsToShow := Nat.min (length canais) 3 in
    let estimatedPairWidth := (inject_Z channelLogoSize + 5 + 60)%Q in
    let totalWidth :=
      (inject_Z (Z.of_nat maxChannelsToShow) * estimatedPairWidth)%Q in
    let startX := (centerX - totalWidth / 2)%Q in
    for_each (imap pair (firstn maxChannelsToShow canais)) []
      (fun operations '(i, canal) =>
         try_catch
           (let* channelLogo :=
              downloadImageWithFallback (logoUrl canal)
                channelLogoSize channelLogoSize
                (substring 0 2 (channelName canal)) in
            let* logoResized :=
              sharp_resize E Inside channelLogoSize channelLogoSize
                channelLogo in
            ret (operations ++
                 [mkOp logoResized
                    (Some (inject_Z (round
                       (startX + inject_Z (Z.of_nat i) * estimatedPairWidth))))
                    (Some (inject_Z (round (inject_Z (gameY + 118)))))])%list)
           (fun error =>
              exec logger "warn"
                ("Failed to load channel logo for " +:+ channelName canal +:+ ":")
              in ret operations))
  end.

Definition createFootballScheduleImage (data : ScheduleBody) (width height : Z)
  : M Buffer :=
  try_catch
    (let* logoEmpresaBuffer :=
       downloadImageWithFallback (logoEmpresaUrl data) 200 200 "LOGO" in
     let* backgroundBuffer :=
       match fundoUrl data with
       | Some (String a rest) =>
           downloadImageWithFallback (String a rest) width height "FUNDO"
       | _ =>
           let color := or_else (corFundo data) "#1E3A8A" in
           ret (createFootballGradientBackground width height color)
       end in
     let* teamLogos :=
       for_each (jogos data) []
         (fun teamLogos jogo =>
            let* logoHome :=
              downloadImageWithFallback (logoHomeUrl jogo) 100 100
                (substring 0 3 (timeHome jogo)) in
            let* logoAway :=
              downloadImageWithFallback (logoAwayUrl jogo) 100 100
                (substring 0 3 (timeAway jogo)) in
            ret (teamLogos ++ [logoHome; logoAway])%list) in
     let logoSize := Qmin (inject_Z width * 0.15) 120 in
     let logoY :=
       if truthy (whatsapp data)
       then 200 + Z.of_nat (length (jogos data)) * 140 + 60 + 80
       else 200 + Z.of_nat (length (jogos data)) * 140 + 60 + 20 in
     let* companyLogoComposite :=
       createCompanyLogoComposite logoEmpresaBuffer logoSize width logoY height
         BottomCenter in
     let scheduleOverlay :=
       createFootballScheduleOverlay width height (Football.data data)
         (jogos data) (whatsapp data) in
     let gameStartY := 200 in
     let gameSpacing := 180 in
     let compositeOperations :=
       [ mkOp (render E scheduleOverlay) None None; companyLogoComposite ] in
     let* compositeOperations :=
       for_each (imap pair (jogos data)) compositeOperations
         (fun compositeOperations '(i, jogo) =>
            let gameY := gameStartY + Z.of_nat i * gameSpacing in
            let teamLogoSize := 70%Q in
            let* teamLogoOperations :=
              createTeamLogoComposite teamLogos i gameY width teamLogoSize
                Inline in
            let compositeOperations :=
              (compositeOperations ++ teamLogoOperations)%list in
            match canais jogo with
            | Some (c :: cs) =>
                let* channelLogoOperations :=
                  createChannelLogoComposite (c :: cs) gameY width 20 in
                ret (compositeOperations ++ channelLogoOperations)%list
            | _ => ret compositeOperations
            end) in
     sharp_composite E backgroundBuffer width height compositeOperations)
    (fun error =>
       exec logger "error" "Error creating football schedule image:" in
       throw error).

(** *** Persistence *)

Definition saveImageAndGetLink (imageBuffer : Buffer) (filename : string)
  (request : Request) : M string :=
  exec ensureUploadsDir in
  let filePath := Path.join UPLOADS_DIR filename in
  exec fs_writeFile E filePath imageBuffer in
  exec setTimeout_unlink filePath (60 * 60 * 1000) in
  let protocol :=
    or_else (req_headers request !! "x-forwarded-proto")
      (if socket_encrypted request then "https" else "http") in
  let host :=
    match req_headers request !! "x-forwarded-host" with
    | Some (String a rest) => String a rest
    | _ => default "undefined" (req_headers request !! "host")
    end in
  ret (protocol +:+ "://" +:+ host +:+ "/api/download/" +:+ filename).

(** *** Route handlers *)

(** [POST /generate-football-schedule] *)
Definition generate_football_schedule (request : Request)
  (body : ScheduleBody) (query : Query) : M Reply :=
  exec new_reply in
  try_catch
    (let data := body in
     let useBase64 := Bool.eqb (base64 query) true in
     let useFile :=
       Bool.eqb (file query) true || (negb (base64 query) && negb (file query)) in
     let* landscapeImage := createFootballScheduleImage data 1920 1080 in
     let* portraitImage := createFootballScheduleImage data 1080 1920 in
     let* squareImage := createFootballScheduleImage data 1080 1080 in
     if useBase64 then
       let images :=
         JObj [ ("landscape",
                 JStr ("data:image/jpeg;base64," +:+ toBase64 landscapeImage));
                ("portrait",
                 JStr ("data:image/jpeg;base64," +:+ toBase64 portraitImage));
                ("square",
                 JStr ("data:image/jpeg;base64," +:+ toBase64 squareImage)) ] in
       send 200 (Json (JObj
         [ ("success", JBool true);
           ("images", images);
           ("message",
            JStr "Football schedule images generated successfully (base64)") ]))
     else
       let* sessionId := randomUUID E in
       let* landscapeLink :=
         saveImageAndGetLink landscapeImage
           ("football_" +:+ sessionId +:+ "_landscape.jpg") request in
       let* portraitLink :=
         saveImageAndGetLink portraitImage
           ("football_" +:+ sessionId +:+ "_portrait.jpg") request in
       let* squareLink :=
         saveImageAndGetLink squareImage
           ("football_" +:+ sessionId +:+ "_square.jpg") request in
       let downloads :=
         JObj [ ("landscape", JStr landscapeLink);
                ("portrait", JStr portraitLink);
                ("square", JStr squareLink) ] in
       send 200 (Json (JObj
         [ ("success", JBool true);
           ("downloads", downloads);
           ("message",
            JStr "Football schedule images generated successfully (download links)");
           ("expiresIn", JStr "1 hour") ])))
    (fun error =>
       exec logger "error" "Error generating football schedule images:" in
       send 500 (Json (JObj
         [ ("success", JBool false);
           ("message", JStr (message error));
           ("images",
            JObj [ ("landscape", JStr ""); ("portrait", JStr "");
                   ("square", JStr "") ]) ]))).

(** [GET /download/:filename] *)
Definition download (filename : string) : M Reply :=
  exec new_reply in
  try_catch
    (let filePath := Path.join UPLOADS_DIR filename in
     exec fs_access E filePath in
     exec reply_header "Content-Disposition"
       (markup "attachment; filename=`" +:+ filename +:+ dq) in
     exec reply_header "Content-Type" "image/jpeg" in
     let* fileStream := fs_readFile E filePath in
     send 200 (Bytes fileStream))
    (fun error =>
       exec logger "error" "Error downloading file:" in
       send 404 (Json (JObj
         [ ("success", JBool false);
           ("error", JStr "File not found or expired");
           ("message",
            JStr "The requested file does not exist or has expired") ]))).

End WithEnv.

End Football.

(** ** movieGenerate.ts *)

Module Movie.
Import Js Xml Base64 Sys Http Markup.

Definition WATERMARK_TEXT : string := "app.notifique.net".
Definition WATERMARK_ENABLED : bool := true.

Record ImageBody := mkImageBody {
  logoUrl : string;
  contato : option string;
  whatsapp : option string;
  capaFilmeUrl : string;
  fundoUrl : option string;
  titulo : string;
  descricao : string
}.

Definition channel_add (c : option Z) (k : Z) : option Z := (fun v => v + k) <$> c.
Definition channel_min (k : Z) (c : option Z) : option Z := Z.min k <$> c.
Definition channel_max (k : Z) (c : option Z) : option Z := Z.max k <$> c.
Definition show_channel (c : option Z) : string :=
  match c with Some v => show_Z v | None => "NaN" end.

(** [Math.round] *)
Definition round (q : Q) : Z := Qfloor (q + 0.5).

(** [wrapText]: the loop over the words carries [lines] and
    [currentLine]. *)
Definition wrapText (text : string) (maxCharsPerLine : Z) : list string :=
  let words := split_on " " text in
  let '(lines, currentLine) :=
    fold_left
      (fun '(lines, currentLine) word =>
         if Z.of_nat (utf16_length (currentLine +:+ word)) <=? maxCharsPerLine
         then
           (lines,
            currentLine +:+ (if truthy (Some currentLine) then " " else "") +:+ word)
         else if truthy (Some currentLine)
           then ((lines ++ [currentLine])%list, word)
           else ((lines ++ [word])%list, currentLine))
      words ([], EmptyString) in
  if truthy (Some currentLine) then (lines ++ [currentLine])%list else lines.

Section WithEnv.
Context (E : Env).

Definition UPLOADS_DIR : string := Path.join (cwd E) "temp-images".

Definition ensureUploadsDir : M unit :=
  try_catch (fs_access E UPLOADS_DIR) (fun _ => fs_mkdir E UPLOADS_DIR).

(** [imageGenerationSchema] *)
Definition imageGenerationSchema (b : ImageBody) : bool :=
  is_url E (logoUrl b) && is_url E (capaFilmeUrl b)
  && match fundoUrl b with
     | Some u => is_url E u
     | None => true
     end.

Definition createPlaceholderImage (width height : Z) (color text : string)
  : M Buffer :=
  let svg :=
    (markup "<svg width=`") +:+
    show_Z width +:+
    (markup "` height=`") +:+
    show_Z height +:+
    (markup "` xmlns=`http://www.w3.org/2000/svg`>
		<rect width=`100%` height=`100%` fill=`") +:+
    color +:+
    (markup "`/>
		<text x=`50%` y=`50%` font-family=`Arial` font-size=`20` fill=`white` text-anchor=`middle` dy=`.3em`>") +:+
    text +:+
    "</text>
	</svg>" in
  ret svg.

Definition downloadImageWithFallback (url : string) (width height : Z)
  (fallbackText : string) : M Buffer :=
  try_catch
    (let* response := fetch E url in
     if negb (ok response) then
       throw (JsError ("HTTP " +:+ show_Z (status response)))
     else
       let* buffer := response_buffer E response in
       sharp_resize E Cover width height buffer)
    (fun error =>
       exec logger "warn"
         ("Failed to download image from " +:+ url +:+ ", using placeholder:")
       in createPlaceholderImage width height "#666666" fallbackText).

Definition createAdvancedGradientBackground (width height : Z) (color : string)
  : Buffer :=
  let baseColor := Js.replace_first "#" "" color in
  let r := parseInt16 E (Js.substring 0 2 baseColor) in
  let g := parseInt16 E (Js.substring 2 4 baseColor) in
  let b := parseInt16 E (Js.substring 4 6 baseColor) in
  (markup "
		<svg width=`") +:+
  show_Z width +:+
  (markup "` height=`") +:+
  show_Z height +:+
  (markup "` xmlns=`http://www.w3.org/2000/svg`>
			<defs>
				<radialGradient id=`movieGrad` cx=`30%` cy=`30%` r=`70%`>
					<stop offset=`0%` style=`stop-color:rgb(") +:+
  show_channel (channel_min 255 (channel_add r 60)) +:+
  "," +:+
  show_channel (channel_min 255 (channel_add g 60)) +:+
  "," +:+
  show_channel (channel_min 255 (channel_add b 60)) +:+
  (markup ");stop-opacity:0.9` />
					<stop offset=`40%` style=`stop-color:rgb(") +:+
  show_channel r +:+
  "," +:+
  show_channel g +:+
  "," +:+
  show_channel b +:+
  (markup ");stop-opacity:1` />
					<stop offset=`100%` style=`stop-color:rgb(") +:+
  show_channel (channel_max 0 (channel_add r (-40))) +:+
  "," +:+
  show_channel (channel_max 0 (channel_add g (-40))) +:+
  "," +:+
  show_channel (channel_max 0 (channel_add b (-40))) +:+
  (markup ");stop-opacity:1` />
				</radialGradient>
			</defs>
			<rect width=`100%` height=`100%` fill=`url(#movieGrad)` />
		</svg>
	").

Definition createCardBackground (width height : Z) : M Buffer :=
  let cardSvg :=
    (markup "
		<svg width=`") +:+
    show_Z width +:+
    (markup "` height=`") +:+
    show_Z height +:+
    (markup "` xmlns=`http://www.w3.org/2000/svg`>
			<defs>
				<filter id=`cardShadow` x=`-10%` y=`-10%` width=`120%` height=`120%`>
					<feDropShadow dx=`8` dy=`12` stdDeviation=`15` flood-color=`rgba(0,0,0,0.3)`/>
				</filter>
			</defs>
			<rect x=`40` y=`40` width=`") +:+
    show_Z (width - 80) +:+
    (markup "` height=`") +:+
    show_Z (height - 80) +:+
    (markup "` rx=`20` fill=`white` filter=`url(#cardShadow)`/>
		</svg>
	") in
  ret cardSvg.

Definition createAdvancedTextOverlay (totalWidth totalHeight : Z)
  (contentX contentY contentWidth : Q) (titulo descricao : string)
  (contato whatsapp : option string)
  (titleFontSize descFontSize metaFontSize : Q) : list frag :=
  let maxTitleChars := Qfloor (contentWidth / (titleFontSize * 0.6)) in
  let maxDescChars := Qfloor (contentWidth / (descFontSize * 0.6)) in
  let titleLines := wrapText titulo maxTitleChars in
  let descLines := wrapText descricao maxDescChars in
  let svg :=
    [Lit (markup "
		<svg width=`");
     Int totalWidth;
     Lit (markup "` height=`");
     Int totalHeight;
     Lit (markup "` xmlns=`http://www.w3.org/2000/svg`>
			<defs>
				<style>
					.title { 
						font-family: 'Arial Black', Arial, sans-serif; 
						font-weight: 900; 
						fill: #1a1a2e; 
						text-shadow: 1px 1px 2px rgba(0,0,0,0.1);
					}
					.description { 
						font-family: Arial, sans-serif; 
						fill: #333; 
						font-weight: 400;
						line-height: 1.4;
					}
					.meta { 
						font-family: Arial, sans-serif; 
						fill: #666; 
						font-weight: 600;
					}
					.watermark { 
						font-family: Arial, sans-serif; 
						fill: rgba(0,0,0,0.4); 
						font-weight: 500;
					}
				</style>
			</defs>
	")] in
  let currentY := (contentY + 40)%Q in
  let '(svg, currentY) :=
    fold_left
      (fun '(svg, currentY) line =>
         ((svg ++
           [Lit (markup "<text x=`");
          Num (contentX + 20);
          Lit (markup "` y=`");
          Num currentY;
          Lit (markup "` font-size=`");
          Num titleFontSize;
          Lit (markup "` class=`title`>");
          UserText (escapeXml line);
          Lit "</text>"])%list,
          (currentY + (titleFontSize + 8))%Q))
      titleLines (svg, currentY) in
  let currentY := (currentY + 20)%Q in
  let '(svg, currentY) :=
    fold_left
      (fun '(svg, currentY) line =>
         ((svg ++
           [Lit (markup "<text x=`");
          Num (contentX + 20);
          Lit (markup "` y=`");
          Num currentY;
          Lit (markup "` font-size=`");
          Num descFontSize;
          Lit (markup "` class=`description`>");
          UserText (escapeXml line);
          Lit "</text>"])%list,
          (currentY + (descFontSize + 6))%Q))
      descLines (svg, currentY) in
  let bottomY := (contentY + contentWidth * 0.7)%Q in
  let svg :=
    match contato with
    | Some (String a rest) =>
        let contato := String a rest in
        (svg ++
         [Lit (markup "<text x=`");
        Num (contentX + 20);
        Lit (markup "` y=`");
        Num bottomY;
        Lit (markup "` font-size=`");
        Num metaFontSize;
        Lit (markup "` class=`meta`>ðŸ“§ ");
        UserText (escapeXml contato);
        Lit "</text>"])%list
    | _ => svg
    end in
  let svg :=
    match whatsapp with
    | Some (String a rest) =>
        let whatsapp := String a rest in
        let whatsappY :=
          if truthy contato then (bottomY + metaFontSize + 8)%Q else bottomY in
        (svg ++
         [Lit (markup "<text x=`");
        Num (contentX + 20);
        Lit (markup "` y=`");
        Num whatsappY;
        Lit (markup "` font-size=`");
        Num metaFontSize;
        Lit (markup "` class=`meta`>ðŸ“± WhatsApp: ");
        UserText (escapeXml whatsapp);
        Lit "</text>"])%list
    | _ => svg
    end in
  let svg :=
    if WATERMARK_ENABLED then
      let watermarkFontSize := Qmin (inject_Z totalWidth * 0.015) 16 in
      (svg ++
       [Lit (markup "
			<text x=`");
      Int (totalWidth - 20);
      Lit (markup "` y=`");
      Int (totalHeight - 20);
      Lit (markup "` font-size=`");
      Num watermarkFontSize;
      Lit (markup "` class=`watermark` text-anchor=`end`>
				");
      Lit (escapeXml WATERMARK_TEXT);
      Lit "
			</text>
		"])%list
    else svg in
  (svg ++ [Lit "</svg>"])%list.

Definition createPromotionalImage (data : ImageBody) (width height : Z)
  : M Buffer :=
  try_catch
    (let* logoBuffer := downloadImageWithFallback (logoUrl data) 150 150 "LOGO" in
     let* capaBuffer :=
       downloadImageWithFallback (capaFilmeUrl data) 300 450 "MOVIE" in
     let* backgroundBuffer :=
       match fundoUrl data with
       | Some (String a rest) =>
           downloadImageWithFallback (String a rest) width height "BACKGROUND"
       | _ => ret (createAdvancedGradientBackground width height "#1a1a2e")
       end in
     let* cardBackground := createCardBackground width height in
     let cardMargin := 40 in
     let cardWidth := width - cardMargin * 2 in
     let cardHeight := height - cardMargin * 2 in
     let posterWidth := Qmin (inject_Z cardWidth * 0.35) 300 in
     let posterHeight := (posterWidth * 1.5)%Q in
     let contentX := (inject_Z cardMargin + posterWidth + 30)%Q in
     let contentY := inject_Z cardMargin in
     let contentWidth := (inject_Z cardWidth - posterWidth - 50)%Q in
     let logoSize := Qmin (contentWidth * 0.25) 100 in
     let titleFontSize := Qmin (inject_Z width * 0.025) 32 in
     let descFontSize := Qmin (inject_Z width * 0.015) 18 in
     let metaFontSize := Qmin (inject_Z width * 0.012) 14 in
     let* logoResized :=
       sharp_resize E Inside (round logoSize) (round logoSize) logoBuffer in
     let* capaResized :=
       sharp_resize E Cover (round posterWidth) (round posterHeight)
         capaBuffer in
     let textOverlay :=
       createAdvancedTextOverlay width height contentX contentY contentWidth
         (titulo data) (descricao data) (contato data) (whatsapp data)
         titleFontSize descFontSize metaFontSize in
     sharp_composite E backgroundBuffer width height
       [ mkOp cardBackground None None;
         mkOp capaResized
           (Some (inject_Z (cardMargin + 20))) (Some (inject_Z (cardMargin + 20)));
         mkOp (render E textOverlay) None None;
         mkOp logoResized
           (Some (inject_Z (round (contentX + contentWidth - logoSize - 20))))
           (Some (inject_Z (cardMargin + 20))) ])
    (fun error =>
       exec logger "error" "Error creating promotional image:" in
       throw error).

Definition saveImageAndGetLink (imageBuffer : Buffer) (filename : string)
  (request : Request) : M string :=
  exec ensureUploadsDir in
  let filePath := Path.join UPLOADS_DIR filename in
  exec fs_writeFile E filePath imageBuffer in
  exec setTimeout_unlink filePath (60 * 60 * 1000) in
  let protocol :=
    or_else (req_headers request !! "x-forwarded-proto")
      (if socket_encrypted request then "https" else "http") in
  let host :=
    match req_headers request !! "x-forwarded-host" with
    | Some (String a rest) => String a rest
    | _ => default "undefined" (req_headers request !! "host")
    end in
  ret (protocol +:+ "://" +:+ host +:+ "/api/download/" +:+ filename).

(** [POST /generate-images] *)
Definition generate_images (request : Request) (body : ImageBody)
  (query : Query) : M Reply :=
  exec new_reply in
  try_catch
    (let data := body in
     let useBase64 := Bool.eqb (base64 query) true in
     let useFile :=
       Bool.eqb (file query) true || (negb (base64 query) && negb (file query)) in
     let* landscapeImage := createPromotionalImage data 1920 1080 in
     let* portraitImage := createPromotionalImage data 1080 1920 in
     let* squareImage := createPromotionalImage data 1080 1080 in
     if useBase64 then
       let images :=
         JObj [ ("landscape",
                 JStr ("data:image/jpeg;base64," +:+ toBase64 landscapeImage));
                ("portrait",
                 JStr ("data:image/jpeg;base64," +:+ toBase64 portraitImage));
                ("square",
                 JStr ("data:image/jpeg;base64," +:+ toBase64 squareImage)) ] in
       send 200 (Json (JObj
         [ ("success", JBool true);
           ("images", images);
           ("message",
            JStr "Promotional images generated successfully (base64)") ]))
     else
       let* sessionId := randomUUID E in
       let* landscapeLink :=
         saveImageAndGetLink landscapeImage
           ("movie_" +:+ sessionId +:+ "_landscape.jpg") request in
       let* portraitLink :=
         saveImageAndGetLink portraitImage
           ("movie_" +:+ sessionId +:+ "_portrait.jpg") request in
       let* squareLink :=
         saveImageAndGetLink squareImage
           ("movie_" +:+ sessionId +:+ "_square.jpg") request in
       let downloads :=
         JObj [ ("landscape", JStr landscapeLink);
                ("portrait", JStr portraitLink);
                ("square", JStr squareLink) ] in
       send 200 (Json (JObj
         [ ("success", JBool true);
           ("downloads", downloads);
           ("message",
            JStr "Promotional images generated successfully (download links)");
           ("expiresIn", JStr "1 hour") ])))
    (fun error =>
       exec logger "error" "Error generating promotional images:" in
       send 500 (Json (JObj
         [ ("success", JBool false);
           ("message", JStr (message error));
           ("images",
            JObj [ ("landscape", JStr ""); ("portrait", JStr "");
                   ("square", JStr "") ]) ]))).

End WithEnv.

End Movie.

(** ** footballGenerateHtml.ts

    The module declares the same [footballScheduleSchema] as
    footballGenerate.ts; the request types of [Football] are shared. *)

Module FootballHtml.
Import Js Xml Base64 Sys Http Markup.
Import Football (Canal, Jogo, ScheduleBody, channelName, logoUrl, timeHome,
  logoHomeUrl, timeAway, logoAwayUrl, horario, canais, logoEmpresaUrl, data,
  jogos, corFundo, fundoUrl, whatsapp).

Definition WATERMARK_TEXT : string := "app.notifique.net".
Definition WATERMARK_ENABLED : bool := true.

Section WithEnv.
Context (E : Env).

Definition UPLOADS_DIR : string := Path.join (cwd E) "temp-images".

Definition ensureUploadsDir : M unit :=
  try_catch (fs_access E UPLOADS_DIR) (fun _ => fs_mkdir E UPLOADS_DIR).

Definition footballScheduleSchema (b : ScheduleBody) : bool :=
  Football.footballScheduleSchema E b.

Definition generateCSS (b : ScheduleBody) : list frag :=
  let backgroundImage :=
    match fundoUrl b with
    | Some (String a rest) =>
        [Lit "url('"; UserUrl (String a rest); Lit "')"]
    | _ =>
        [Lit "linear-gradient(135deg, ";
         match corFundo b with
         | Some (String a rest) => UserText (String a rest)
         | _ => Lit "#1E3A8A"
         end;
         Lit " 0%, #0F172A 100%)"]
    end in
  ([Lit "
		* {
			margin: 0;
			padding: 0;
			box-sizing: border-box;
		}

		body {
			width: 1080px;
			height: 1920px;
			background: "]
  ++ backgroundImage
  ++ [Lit ";
			background-size: cover;
			background-position: center;
			font-family: 'Arial Black', Arial, sans-serif;
			color: white;
			display: flex;
			flex-direction: column;
			position: relative;
			overflow: hidden;
		}

		body::before {
			content: '';
			position: absolute;
			top: 0;
			left: 0;
			right: 0;
			bottom: 0;
			background: 
				radial-gradient(circle at 20% 20%, rgba(0,255,65,0.1) 0%, transparent 50%),
				radial-gradient(circle at 80% 80%, rgba(255,255,0,0.05) 0%, transparent 50%),
				linear-gradient(45deg, transparent 49%, rgba(0,255,65,0.02) 50%, transparent 51%);
			pointer-events: none;
			z-index: 1;
		}

		.container {
			flex: 1;
			display: grid;
			grid-template-rows: auto 1fr auto;
			padding: 40px;
			gap: 30px;
			min-height: 100vh;
			position: relative;
			z-index: 2;
		}

		.header {
			text-align: center;
			margin-bottom: 20px;
		}

		.title {
			font-size: 80px;
			font-weight: 900;
			color: #00ff41;
			text-shadow: 3px 3px 6px rgba(0,0,0,0.8);
			letter-spacing: 3px;
			margin-bottom: 10px;
		}

		.date {
			font-size: 60px;
			font-weight: 900;
			color: white;
			text-shadow: 2px 2px 4px rgba(0,0,0,0.8);
			letter-spacing: 2px;
		}

		.games {
			display: grid;
			gap: 40px;
			flex: 1;
			grid-template-columns: 1fr;
			align-content: start;
			position: relative;
			z-index: 1;
		}

		.game-card {
			background: linear-gradient(90deg, rgba(0,0,0,0.6) 0%, rgba(0,0,0,0.8) 50%, rgba(0,0,0,0.6) 100%);
			border: 2px solid rgba(0,255,65,0.4);
			border-radius: 25px;
			padding: 20px;
			display: grid;
			grid-template-rows: auto auto auto;
			gap: 15px;
			box-shadow: 0 6px 20px rgba(0,0,0,0.5);
			backdrop-filter: blur(10px);
			position: relative;
			overflow: hidden;
		}

		.game-card::before {
			content: '';
			position: absolute;
			top: 0;
			left: 0;
			right: 0;
			height: 4px;
			background: linear-gradient(90deg, #00ff41 0%, #ffff00 50%, #00ff41 100%);
		}

		.time-display {
			background: linear-gradient(45deg, #ffff00, #ffd700);
			color: #000;
			font-weight: 900;
			font-size: 38px;
			text-align: center;
			padding: 8px 20px;
			border-radius: 18px;
			border: 2px solid rgba(0,0,0,0.3);
			text-shadow: 1px 1px 2px rgba(255,255,255,0.3);
			align-self: center;
			min-width: 120px;
		}

		.teams {
			display: grid;
			grid-template-columns: 1fr auto 1fr;
			align-items: center;
			gap: 20px;
			padding: 0 20px;
		}

		.team {
			display: flex;
			align-items: center;
			gap: 15px;
			min-width: 0; /* Allow text truncation */
		}

		.team.home {
			flex-direction: row;
			justify-self: start;
		}

		.team.away {
			flex-direction: row-reverse;
			justify-self: end;
		}

		.vs {
			justify-self: center;
		}

		.team-logo {
			width: 70px;
			height: 70px;
			object-fit: contain;
			border-radius: 8px;
		}

		.team-name {
			font-size: 45px;
			font-weight: 900;
			text-shadow: 2px 2px 4px rgba(0,0,0,0.8);
			letter-spacing: 1.5px;
			white-space: nowrap;
			overflow: hidden;
			text-overflow: ellipsis;
			max-width: 300px;
		}

		.vs {
			font-size: 50px;
			font-weight: 900;
			color: #00ff41;
			text-shadow: 2px 2px 4px rgba(0,0,0,0.8);
			padding: 10px;
			background: rgba(0,255,65,0.1);
			border-radius: 50%;
			min-width: 70px;
			text-align: center;
		}

		.channels {
			display: flex;
			align-items: center;
			justify-content: center;
			flex-wrap: wrap;
			gap: 20px;
			background: rgba(0,0,0,0.9);
			border: 1px solid rgba(255,255,255,0.3);
			border-radius: 14px;
			padding: 12px 20px;
			margin-top: 10px;
			backdrop-filter: blur(5px);
		}

		.channel-item {
			display: flex;
			align-items: center;
			gap: 8px;
			background: rgba(255,255,255,0.1);
			padding: 4px 8px;
			border-radius: 8px;
			transition: transform 0.2s ease;
		}

		.channel-item:hover {
			transform: scale(1.05);
		}

		.channel-logo {
			width: 20px;
			height: 20px;
			object-fit: contain;
		}

		.channel-name {
			font-size: 24px;
			font-weight: 700;
			text-shadow: 1px 1px 2px rgba(0,0,0,0.8);
		}

		.contact {
			background: linear-gradient(45deg, #25d366, #128c7e);
			border: 3px solid rgba(255,255,255,0.4);
			border-radius: 40px;
			padding: 25px;
			text-align: center;
			font-size: 50px;
			font-weight: 900;
			text-shadow: 2px 2px 4px rgba(0,0,0,0.8);
			letter-spacing: 1px;
			box-shadow: 0 8px 25px rgba(37, 211, 102, 0.3);
			display: flex;
			align-items: center;
			justify-content: center;
			gap: 15px;
		}

		.company-logo {
			width: 100px;
			height: 100px;
			object-fit: cover;
			border-radius: 50%;
			border: 3px solid rgba(0,255,65,0.6);
			box-shadow: 
				0 4px 15px rgba(0,255,65,0.3),
				0 0 30px rgba(0,255,65,0.2),
				inset 0 0 20px rgba(0,255,65,0.1);
			position: absolute;
			top: 30px;
			right: 30px;
			z-index: 10;
			animation: logoGlow 3s ease-in-out infinite alternate;
		}

		@keyframes logoGlow {
			0% {
				box-shadow: 
					0 4px 15px rgba(0,255,65,0.3),
					0 0 30px rgba(0,255,65,0.2),
					inset 0 0 20px rgba(0,255,65,0.1);
			}
			100% {
				box-shadow: 
					0 6px 20px rgba(0,255,65,0.5),
					0 0 40px rgba(0,255,65,0.4),
					inset 0 0 25px rgba(0,255,65,0.2);
			}
		}

		.watermark {
			position: absolute;
			font-size: 18px;
			color: rgba(255,255,255,0.4);
			font-weight: 500;
			pointer-events: none;
			user-select: none;
		}

		.watermark.bottom-center {
			bottom: 20px;
			left: 50%;
			transform: translateX(-50%);
		}

		.watermark.top-left {
			top: 150px;
			left: 30px;
			transform: rotate(-90deg);
			transform-origin: left bottom;
		}

		.watermark.middle-left {
			top: 50%;
			left: 20px;
			transform: translateY(-50%) rotate(-90deg);
			transform-origin: center;
		}

		.watermark.middle-right {
			top: 50%;
			right: 20px;
			transform: translateY(-50%) rotate(90deg);
			transform-origin: center;
		}

		.watermark.diagonal-1 {
			top: 25%;
			left: 15%;
			transform: rotate(-45deg);
			opacity: 0.2;
		}

		.watermark.diagonal-2 {
			top: 75%;
			right: 15%;
			transform: rotate(45deg);
			opacity: 0.2;
		}

		.watermark.behind-games {
			position: absolute;
			font-size: 120px;
			color: rgba(255,255,255,0.03);
			font-weight: 900;
			z-index: 0;
			pointer-events: none;
			user-select: none;
			top: 50%;
			left: 50%;
			transform: translate(-50%, -50%) rotate(-15deg);
			letter-spacing: 20px;
		}

		.watermark.between-games {
			position: relative;
			text-align: center;
			font-size: 14px;
			color: rgba(255,255,255,0.3);
			font-weight: 400;
			margin: 10px 0;
			letter-spacing: 2px;
		}

		.more-channels {
			font-size: 20px;
			color: #00ff41;
			font-weight: 700;
		}
	"])%list.

Definition generateHTML (b : ScheduleBody) : list frag :=
  let css := generateCSS b in
  let gamesHTML :=
    concat (imap (fun index jogo =>
      let channels :=
        match canais jogo with
        | Some (c :: cs') =>
          let cs := c :: cs' in
          let items :=
            concat (map (fun canal =>
            [Lit (markup "
						<div class=`channel-item` role=`text`>
							<img src=`");
             UserUrl (logoUrl canal);
             Lit (markup "` alt=`Logo ");
             UserText (channelName canal);
             Lit (markup "` class=`channel-logo` />
							<span class=`channel-name`>");
             UserText (channelName canal);
             Lit "</span>
						</div>
					"])
              (firstn 3 cs)) in
          let more :=
            if (3 <? length cs)%nat then
            [Lit (markup "<span class=`more-channels`>+");
             Int (Z.of_nat (length cs) - 3);
             Lit " mais</span>"]
            else [] in
          ([Lit (markup "
				<div class=`channels` role=`group` aria-label=`Canais de transmissão`>
					")]
          ++ items
          ++ [Lit "
					"]
          ++ more
          ++ [Lit "
				</div>
			"])%list
        | _ => []
        end in
      let between :=
        if WATERMARK_ENABLED && (Z.of_nat index <? Z.of_nat (length (jogos b)) - 1)
        then
          [Lit (markup "<div class=`watermark between-games` aria-hidden=`true`>• ");
           Lit WATERMARK_TEXT;
           Lit " •</div>"]
        else [] in
      ([Lit (markup "
		<article class=`game-card` aria-label=`Jogo ");
       Int (Z.of_nat index + 1);
       Lit (markup "`>
			<div class=`time-display` role=`text` aria-label=`Horário do jogo`>
				");
       UserText (horario jogo);
       Lit (markup "
			</div>
			
			<div class=`teams` role=`group` aria-label=`Times do jogo`>
				<div class=`team home` role=`group` aria-label=`Time da casa`>
					<img src=`");
       UserUrl (logoHomeUrl jogo);
       Lit (markup "` alt=`Logo ");
       UserText (timeHome jogo);
       Lit (markup "` class=`team-logo` />
					<h3 class=`team-name`>");
       UserText (toUpperCase E (timeHome jogo));
       Lit (markup "</h3>
				</div>
				
				<div class=`vs` role=`text` aria-label=`versus`>×</div>
				
				<div class=`team away` role=`group` aria-label=`Time visitante`>
					<h3 class=`team-name`>");
       UserText (toUpperCase E (timeAway jogo));
       Lit (markup "</h3>
					<img src=`");
       UserUrl (logoAwayUrl jogo);
       Lit (markup "` alt=`Logo ");
       UserText (timeAway jogo);
       Lit (markup "` class=`team-logo` />
				</div>
			</div>
			
			")]
      ++ channels
      ++ [Lit "
		</article>
		"]
      ++ between
      ++ [Lit "
	"])%list)
      (jogos b)) in
  let behind :=
    if WATERMARK_ENABLED then
      [Lit (markup "<div class=`watermark behind-games` aria-hidden=`true`>");
       Lit WATERMARK_TEXT;
       Lit "</div>"]
    else [] in
  let contact :=
    match whatsapp b with
    | Some (String a rest) =>
        let whatsapp := String a rest in
        [Lit (markup "
					<aside class=`contact` aria-label=`Contato WhatsApp`>
						<span>📱</span>
						<span>");
         UserText whatsapp;
         Lit "</span>
					</aside>
				"]
    | _ => []
    end in
  let corners :=
    if WATERMARK_ENABLED then
      [Lit (markup "
				<!-- Multiple watermarks positioned strategically -->
				<div class=`watermark bottom-center` aria-hidden=`true`>");
       Lit WATERMARK_TEXT;
       Lit (markup "</div>
				<div class=`watermark top-left` aria-hidden=`true`>");
       Lit WATERMARK_TEXT;
       Lit (markup "</div>
				<div class=`watermark middle-left` aria-hidden=`true`>");
       Lit WATERMARK_TEXT;
       Lit (markup "</div>
				<div class=`watermark middle-right` aria-hidden=`true`>");
       Lit WATERMARK_TEXT;
       Lit (markup "</div>
				<div class=`watermark diagonal-1` aria-hidden=`true`>");
       Lit WATERMARK_TEXT;
       Lit (markup "</div>
				<div class=`watermark diagonal-2` aria-hidden=`true`>");
       Lit WATERMARK_TEXT;
       Lit "</div>
			"]
    else [] in
  ([Lit (markup "
		<!DOCTYPE html>
		<html lang=`pt-BR`>
		<head>
			<meta charset=`UTF-8`>
			<meta name=`viewport` content=`width=device-width, initial-scale=1.0`>
			<title>Jogos do Dia - ");
   UserText (data b);
   Lit "</title>
			<style>"]
  ++ css
  ++ [Lit (markup "</style>
		</head>
		<body>
			<main class=`container`>
				<header class=`header`>
					<h1 class=`title`>JOGOS DO DIA</h1>
					<time class=`date` datetime=`");
   UserText (data b);
   Lit (markup "`>");
   UserText (data b);
   Lit (markup "</time>
				</header>
				
				<section class=`games` aria-label=`Lista de jogos`>
					<!-- Large background watermark behind games -->
					")]
  ++ behind
  ++ [Lit "
					"]
  ++ gamesHTML
  ++ [Lit "
				</section>
				
				"]
  ++ contact
  ++ [Lit (markup "
				
				<!-- Company logo positioned absolutely in top-right -->
				<img src=`");
   UserUrl (logoEmpresaUrl b);
   Lit (markup "` alt=`Logo da empresa` class=`company-logo` />
			</main>
			
			")]
  ++ corners
  ++ [Lit "
		</body>
		</html>
	"])%list.

(** [htmlToImage]: the screenshot when puppeteer is installed and works,
    the markup itself otherwise. *)
Definition htmlToImage (html : string) (width height : Z) : M Buffer :=
  try_catch
    (match puppeteer E with
     | None =>
         exec logger "warn" "Puppeteer not installed - returning HTML as buffer" in
         ret html
     | Some session =>
         (* puppeteer.launch *)
         exec modify (emit EvBrowser) in
         exec await_io E in
         try_finally
           ((* browser.newPage, page.setViewport *)
            exec await_io E in
            exec await_io E in
            (* page.setContent(html, { waitUntil: "networkidle0" }): the
               browser loads the page and whatever the page refers to *)
            exec modify (emit (EvPage html)) in
            exec await_io E in
            (* page.screenshot *)
            exec await_io E in
            match session (mkViewport width height 2) html
                    (mkScreenshotOptions "jpeg" 95 true) with
            | Some image => ret image
            | None => throw (JsError "puppeteer: page error")
            end)
           ((* browser.close *)
            await_io E)
     end)
    (fun error =>
       exec logger "error" "Error converting HTML to image:" in
       ret html).

Definition saveImageAndGetLink (imageBuffer : Buffer) (filename : string)
  (request : Request) : M string :=
  exec ensureUploadsDir in
  let filePath := Path.join UPLOADS_DIR filename in
  exec fs_writeFile E filePath imageBuffer in
  exec setTimeout_unlink filePath (60 * 60 * 1000) in
  let protocol :=
    or_else (req_headers request !! "x-forwarded-proto")
      (if socket_encrypted request then "https" else "http") in
  let host :=
    match req_headers request !! "x-forwarded-host" with
    | Some (String a rest) => String a rest
    | _ => default "undefined" (req_headers request !! "host")
    end in
  ret (protocol +:+ "://" +:+ host +:+ "/api/download/" +:+ filename).

(** [POST /generate-football-html] *)
Definition generate_football_html (request : Request) (body : ScheduleBody)
  (query : Query) : M Reply :=
  exec new_reply in
  try_catch
    (let data := body in
     let useBase64 := Bool.eqb (base64 query) true in
     let useFile :=
       Bool.eqb (file query) true || (negb (base64 query) && negb (file query)) in
     let html := render E (generateHTML data) in
     let* imageBuffer := htmlToImage html 1080 1920 in
     if useBase64 then
       send 200 (Json (JObj
         [ ("success", JBool true);
           ("image", JStr ("data:image/jpeg;base64," +:+ toBase64 imageBuffer));
           ("message",
            JStr "Football schedule image generated successfully using HTML (base64)") ]))
     else
       let* sessionId := randomUUID E in
       let* downloadLink :=
         saveImageAndGetLink imageBuffer
           ("football_html_" +:+ sessionId +:+ "_portrait.jpg") request in
       send 200 (Json (JObj
         [ ("success", JBool true);
           ("download", JStr downloadLink);
           ("message",
            JStr "Football schedule image generated successfully using HTML (download link)");
           ("expiresIn", JStr "1 hour") ])))
    (fun error =>
       exec logger "error" "Error generating HTML football schedule:" in
       send 500 (Json (JObj
         [ ("success", JBool false);
           ("message", JStr (message error)) ]))).

(** [POST /preview-football-html] *)
Definition preview_football_html (body : ScheduleBody) : M Reply :=
  exec new_reply in
  try_catch
    (let html := render E (generateHTML body) in
     exec reply_header "content-type" "text/html" in
     send 200 (Text html))
    (fun error =>
       exec logger "error" "Error generating HTML preview:" in
       send 500 (Json (JObj
         [ ("success", JBool false);
           ("message", JStr (message error)) ]))).

End WithEnv.

End FootballHtml.

(** ** imageGenerate.ts

    The earlier, link-only generation module. Its football-schedule pair
    ([createFootballScheduleImage], [/generate-football-schedule]) saves and
    answers exactly as [/generate-images] below does and is not repeated. *)

Module ImageGenerate.
Import Js Xml Sys Http Markup.

Record ImageBody := mkImageBody {
  logoUrl : string;
  contato : option string;
  whatsapp : option string;
  capaFilmeUrl : string;
  fundoUrl : option string;
  titulo : string;
  descricao : string;
  corFundo : option string
}.

Definition channel_add (c : option Z) (k : Z) : option Z := (fun v => v + k) <$> c.
Definition channel_min (k : Z) (c : option Z) : option Z := Z.min k <$> c.
Definition channel_max (k : Z) (c : option Z) : option Z := Z.max k <$> c.
Definition show_channel (c : option Z) : string :=
  match c with Some v => show_Z v | None => "NaN" end.

(** [Math.round] *)
Definition round (q : Q) : Z := Qfloor (q + 0.5).

(** [a < b] on numbers *)
Definition Qltb (a b : Q) : bool := negb (Qle_bool b a).

(** [wrapText]; at most four lines are kept. *)
Definition wrapText (text : string) (maxCharsPerLine : Z) : list string :=
  let words := split_on " " text in
  let '(lines, currentLine) :=
    fold_left
      (fun '(lines, currentLine) word =>
         if Z.of_nat (utf16_length (currentLine +:+ word)) <=? maxCharsPerLine
         then
           (lines,
            currentLine +:+ (if truthy (Some currentLine) then " " else "") +:+ word)
         else
           ((if truthy (Some currentLine)
             then (lines ++ [currentLine])%list else lines),
            word))
      words ([], EmptyString) in
  let lines :=
    if truthy (Some currentLine) then (lines ++ [currentLine])%list else lines in
  firstn 4 lines.

Definition colors : list string :=
  ["#FF6B6B"; "#4ECDC4"; "#45B7D1"; "#96CEB4"; "#FFEAA7"; "#DDA0DD";
   "#98D8C8"; "#F7DC6F"].

Section WithEnv.
Context (E : Env).

Definition UPLOADS_DIR : string := Path.join (cwd E) "temp-images".

Definition ensureUploadsDir : M unit :=
  try_catch (fs_access E UPLOADS_DIR) (fun _ => fs_mkdir E UPLOADS_DIR).

Definition imageGenerationSchema (b : ImageBody) : bool :=
  is_url E (logoUrl b) && is_url E (capaFilmeUrl b)
  && match fundoUrl b with
     | Some u => is_url E u
     | None => true
     end.

Definition createPlaceholderImage (width height : Z) (color text : string)
  : M Buffer :=
  let svg :=
    (markup "
		<svg width=`") +:+
    show_Z width +:+
    (markup "` height=`") +:+
    show_Z height +:+
    (markup "` xmlns=`http://www.w3.org/2000/svg`>
			<rect width=`100%` height=`100%` fill=`") +:+
    color +:+
    (markup "`/>
			<text x=`50%` y=`50%` font-family=`Arial, sans-serif` font-size=`") +:+
    show_number E (inject_Z (Z.min width height) * 0.1) +:+
    (markup "` 
				  fill=`white` text-anchor=`middle` dominant-baseline=`middle`>") +:+
    text +:+
    "</text>
		</svg>
	" in
  ret svg.

(** Here the fetched bytes are returned as they are, and the placeholder is
    rasterised by sharp inside the [catch] block. *)
Definition downloadImageWithFallback (url : string) (width height : Z)
  (fallbackText : string) : M Buffer :=
  try_catch
    (let* response := fetch E url in
     if negb (ok response) then
       throw (JsError ("Failed to download image: " +:+ statusText response))
     else response_buffer E response)
    (fun error =>
       exec logger "warn"
         ("Failed to download image from " +:+ url +:+ ", using placeholder:") in
       let* i := random_index E in
       let randomColor := default "#FF6B6B" (colors !! i) in
       let* svg := createPlaceholderImage width height randomColor fallbackText in
       sharp_resize E Cover width height svg).

Definition createAdvancedGradientBackground (width height : Z) (color : string)
  : Buffer :=
  let baseColor := Js.replace_first "#" "" color in
  let r := parseInt16 E (Js.substring 0 2 baseColor) in
  let g := parseInt16 E (Js.substring 2 4 baseColor) in
  let b := parseInt16 E (Js.substring 4 6 baseColor) in
  (markup "
		<svg width=`") +:+
  show_Z width +:+
  (markup "` height=`") +:+
  show_Z height +:+
  (markup "` xmlns=`http://www.w3.org/2000/svg`>
			<defs>
				<radialGradient id=`bgGrad` cx=`30%` cy=`30%`>
					<stop offset=`0%` style=`stop-color:rgb(") +:+
  show_channel (channel_min 255 (channel_add r 30)) +:+
  "," +:+
  show_channel (channel_min 255 (channel_add g 30)) +:+
  "," +:+
  show_channel (channel_min 255 (channel_add b 30)) +:+
  (markup ");stop-opacity:1` />
					<stop offset=`50%` style=`stop-color:rgb(") +:+
  show_channel r +:+
  "," +:+
  show_channel g +:+
  "," +:+
  show_channel b +:+
  (markup ");stop-opacity:1` />
					<stop offset=`100%` style=`stop-color:rgb(") +:+
  show_channel (channel_max 0 (channel_add r (-40))) +:+
  "," +:+
  show_channel (channel_max 0 (channel_add g (-40))) +:+
  "," +:+
  show_channel (channel_max 0 (channel_add b (-40))) +:+
  (markup ");stop-opacity:1` />
				</radialGradient>
			</defs>
			<rect width=`100%` height=`100%` fill=`url(#bgGrad)` />
		</svg>
	").

Definition createCardBackground (width height : Q) : M Buffer :=
  let cardSvg :=
    (markup "
		<svg width=`") +:+
    show_number E width +:+
    (markup "` height=`") +:+
    show_number E height +:+
    (markup "` xmlns=`http://www.w3.org/2000/svg`>
			<defs>
				<filter id=`shadow` x=`-20%` y=`-20%` width=`140%` height=`140%`>
					<feDropShadow dx=`4` dy=`8` stdDeviation=`8` flood-color=`rgba(0,0,0,0.3)`/>
				</filter>
			</defs>
			<rect x=`0` y=`0` width=`100%` height=`100%` rx=`12` ry=`12` 
				  fill=`rgba(255,255,255,0.95)` filter=`url(#shadow)` />
		</svg>
	") in
  ret cardSvg.

Definition createAdvancedTextOverlay (totalWidth totalHeight : Z)
  (contentX contentY contentWidth : Q) (titulo descricao : string)
  (contato whatsapp : option string)
  (titleFontSize descFontSize metaFontSize : Q) : list frag :=
  let titleY := (contentY + titleFontSize + 20)%Q in
  let descY := (titleY + titleFontSize + 30)%Q in
  let contactStartY := (inject_Z totalHeight - 120)%Q in
  let maxTitleLength := Qfloor (contentWidth / (titleFontSize * 0.6)) in
  let maxDescLength := Qfloor ((contentWidth * 3) / (descFontSize * 0.6)) in
  let truncatedTitle :=
    if maxTitleLength <? Z.of_nat (utf16_length titulo)
    then substring 0 (Z.to_nat (maxTitleLength - 3)) titulo +:+ "..."
    else titulo in
  let truncatedDesc :=
    if maxDescLength <? Z.of_nat (utf16_length descricao)
    then substring 0 (Z.to_nat (maxDescLength - 3)) descricao +:+ "..."
    else descricao in
  let descLines :=
    wrapText truncatedDesc (Qfloor (contentWidth / (descFontSize * 0.6))) in
  let textSvg :=
    [Lit (markup "
		<svg width=`");
     Int totalWidth;
     Lit (markup "` height=`");
     Int totalHeight;
     Lit (markup "` xmlns=`http://www.w3.org/2000/svg`>
			<defs>
				<style>
					.title { font-family: 'Arial Black', Arial, sans-serif; font-weight: bold; fill: #2c3e50; }
					.desc { font-family: Arial, sans-serif; fill: #34495e; line-height: 1.4; }
					.meta { font-family: Arial, sans-serif; fill: #7f8c8d; font-weight: 500; }
				</style>
			</defs>
			
			<!-- Title -->
			<text x=`");
     Num contentX;
     Lit (markup "` y=`");
     Num titleY;
     Lit (markup "` font-size=`");
     Num titleFontSize;
     Lit (markup "` class=`title`>
				");
     UserText (escapeXml truncatedTitle);
     Lit "
			</text>
	"] in
  let textSvg :=
    (textSvg ++ concat (imap (fun index line =>
       let lineY := (descY + inject_Z (Z.of_nat index) * (descFontSize + 8))%Q in
       if Qltb lineY (contactStartY - 40) then
         [Lit (markup "
				<text x=`");
          Num contentX;
          Lit (markup "` y=`");
          Num lineY;
          Lit (markup "` font-size=`");
          Num descFontSize;
          Lit (markup "` class=`desc`>
					");
          UserText (escapeXml line);
          Lit "
				</text>
			"]
       else []) descLines))%list in
  let contactY := contactStartY in
  let '(textSvg, contactY) :=
    match contato with
    | Some (String a rest) =>
        let contato := String a rest in
        ((textSvg ++
          [Lit (markup "
			<text x=`");
        Num contentX;
        Lit (markup "` y=`");
        Num contactY;
        Lit (markup "` font-size=`");
        Num metaFontSize;
        Lit (markup "` class=`meta`>
				📧 ");
        UserText (escapeXml contato);
        Lit "
			</text>
		"])%list,
         (contactY + (metaFontSize + 12))%Q)
    | _ => (textSvg, contactY)
    end in
  let textSvg :=
    match whatsapp with
    | Some (String a rest) =>
        let whatsapp := String a rest in
        (textSvg ++
         [Lit (markup "
			<text x=`");
        Num contentX;
        Lit (markup "` y=`");
        Num contactY;
        Lit (markup "` font-size=`");
        Num metaFontSize;
        Lit (markup "` class=`meta`>
				📱 ");
        UserText (escapeXml whatsapp);
        Lit "
			</text>
		"])%list
    | _ => textSvg
    end in
  (textSvg ++ [Lit "</svg>"])%list.

Definition createPromotionalImage (data : ImageBody) (width height : Z)
  : M Buffer :=
  try_catch
    (let* logoBuffer := downloadImageWithFallback (logoUrl data) 200 200 "LOGO" in
     let* capaBuffer :=
       downloadImageWithFallback (capaFilmeUrl data) 400 600 "FILME" in
     let* backgroundBuffer :=
       match fundoUrl data with
       | Some (String a rest) =>
           downloadImageWithFallback (String a rest) width height "FUNDO"
       | _ =>
           let color := or_else (corFundo data) "#1a1a2e" in
           ret (createAdvancedGradientBackground width height color)
       end in
     let cardMargin := Qmin (inject_Z width * 0.05) (inject_Z height * 0.05) in
     let cardWidth := (inject_Z width - cardMargin * 2)%Q in
     let cardHeight := (inject_Z height - cardMargin * 2)%Q in
     let posterWidth := Qmin (cardHeight * 0.7) (cardWidth * 0.3) in
     let posterHeight := (posterWidth * 1.5)%Q in
     let posterX := (cardMargin + cardHeight * 0.1)%Q in
     let posterY := (cardMargin + (cardHeight - posterHeight) / 2)%Q in
     let contentX := (posterX + posterWidth + cardWidth * 0.05)%Q in
     let contentWidth := (cardWidth - posterWidth - cardWidth * 0.15)%Q in
     let contentY := (cardMargin + cardHeight * 0.1)%Q in
     let* posterResized :=
       sharp_resize E Cover (round posterWidth) (round posterHeight)
         capaBuffer in
     let logoSize := Qmin (contentWidth * 0.15) 80 in
     let* logoResized :=
       sharp_resize E Inside (round logoSize) (round logoSize) logoBuffer in
     let* cardBackground := createCardBackground cardWidth cardHeight in
     let titleFontSize :=
       Qmin (Qmin (inject_Z width * 0.035) (inject_Z height * 0.05)) 48 in
     let descFontSize :=
       Qmin (Qmin (inject_Z width * 0.018) (inject_Z height * 0.025)) 24 in
     let metaFontSize :=
       Qmin (Qmin (inject_Z width * 0.015) (inject_Z height * 0.02)) 18 in
     let textOverlay :=
       createAdvancedTextOverlay width height contentX contentY contentWidth
         (titulo data) (descricao data) (contato data) (whatsapp data)
         titleFontSize descFontSize metaFontSize in
     sharp_composite E backgroundBuffer width height
       [ mkOp cardBackground
           (Some (inject_Z (round cardMargin))) (Some (inject_Z (round cardMargin)));
         mkOp posterResized
           (Some (inject_Z (round posterX))) (Some (inject_Z (round posterY)));
         mkOp logoResized
           (Some (inject_Z (round (contentX + contentWidth - logoSize))))
           (Some (inject_Z (round contentY)));
         mkOp (render E textOverlay) None None ])
    (fun error =>
       exec logger "error" "Error creating promotional image:" in
       throw error).

(** The deletion is scheduled thirty minutes ahead. *)
Definition saveImageAndGetLink (imageBuffer : Buffer) (filename : string)
  (request : Request) : M string :=
  exec ensureUploadsDir in
  let filepath := Path.join UPLOADS_DIR filename in
  exec fs_writeFile E filepath imageBuffer in
  exec setTimeout_unlink filepath (30 * 60 * 1000) in
  let protocol := protocol request in
  let host := default "undefined" (req_headers request !! "host") in
  ret (protocol +:+ "://" +:+ host +:+ "/api/download/" +:+ filename).

(** [POST /generate-images]. [expiresAt] is kept as the millisecond
    timestamp that [toISOString] prints. *)
Definition generate_images (request : Request) (body : ImageBody) : M Reply :=
  exec new_reply in
  try_catch
    (let data := body in
     let* sessionId := randomUUID E in
     let* landscapeImage := createPromotionalImage data 1920 1080 in
     let* portraitImage := createPromotionalImage data 1080 1920 in
     let* squareImage := createPromotionalImage data 1080 1080 in
     let* landscapeLink :=
       saveImageAndGetLink landscapeImage (sessionId +:+ "_landscape.jpg")
         request in
     let* portraitLink :=
       saveImageAndGetLink portraitImage (sessionId +:+ "_portrait.jpg")
         request in
     let* squareLink :=
       saveImageAndGetLink squareImage (sessionId +:+ "_square.jpg") request in
     let* today := date_now in
     let expiresAt := today + 30 * 60 * 1000 in
     send 200 (Json (JObj
       [ ("success", JBool true);
         ("downloadLinks",
          JObj [ ("landscape", JStr landscapeLink);
                 ("portrait", JStr portraitLink);
                 ("square", JStr squareLink) ]);
         ("expiresAt", JNum expiresAt) ])))
    (fun error =>
       exec logger "error" "Error in image generation endpoint:" in
       send 500 (Json (JObj
         [ ("success", JBool false);
           ("error", JStr "Failed to generate images");
           ("message", JStr (message error)) ]))).

(** [ext === ".jpg" || ext === ".jpeg"] for
    [ext = path.extname(filename).toLowerCase()]. *)
Definition is_jpeg_name (filename : string) : bool :=
  let ext := toLowerCase E (Path.extname filename) in
  String.eqb ext ".jpg" || String.eqb ext ".jpeg".

(** [GET /download/:filename] *)
Definition download (filename : string) : M Reply :=
  exec new_reply in
  try_catch
    (let filepath := Path.join UPLOADS_DIR filename in
     let* found :=
       try_catch (exec fs_access E filepath in ret true)
                 (fun _ => ret false) in
     if negb found then
       send 404 (Json (JObj
         [ ("success", JBool false);
           ("error", JStr "File not found or expired") ]))
     else
       let mimeType := if is_jpeg_name filename then "image/jpeg" else "image/png" in
       exec reply_header "Content-Type" mimeType in
       exec reply_header "Content-Disposition"
         (markup "attachment; filename=`" +:+ filename +:+ dq) in
       let* fileBuffer := fs_readFile E filepath in
       send 200 (Bytes fileBuffer))
    (fun error =>
       exec logger "error" "Error in download endpoint:" in
       send 500 (Json (JObj
         [ ("success", JBool false);
           ("error", JStr "Failed to download image");
           ("message", JStr (message error)) ]))).

End WithEnv.

End ImageGenerate.

(** ** index.ts

    The application: the error handler installed on the Fastify instance and
    the life cycle of a request on the routes registered under [/api]
    (validation of body and query string by the zod validator compiler, then
    the handler; anything that fails or is thrown goes to the error
    handler). *)

Module App.
Import Js Sys Http.

Inductive FastifyError :=
| SchemaValidationError (part : string)
| ResponseSerializationError (cause : string)
| BadStatusCode
| Thrown (error : exn).

Definition hasZodFastifySchemaValidationErrors (error : FastifyError) : bool :=
  match error with SchemaValidationError _ => true | _ => false end.

Definition isResponseSerializationError (error : FastifyError) : bool :=
  match error with ResponseSerializationError _ => true | _ => false end.

Definition is_bad_status_code (error : FastifyError) : bool :=
  match error with BadStatusCode => true | _ => false end.

Definition describe (error : FastifyError) : string :=
  match error with
  | SchemaValidationError part => part
  | ResponseSerializationError cause => cause
  | BadStatusCode => "FST_ERR_BAD_STATUS_CODE"
  | Thrown e => message e
  end.

(** [app.setErrorHandler((error, request, reply) => ...)]. In the last
    case [reply.send(error)] leaves the answer to Fastify, which replies
    with status 500 to an error that carries no status code. *)
Definition setErrorHandler (error : FastifyError) (request : Request) : M Reply :=
  if hasZodFastifySchemaValidationErrors error then
    send 400 (Json (JObj
      [ ("error", JStr "Response Validation Error");
        ("message", JStr "Request doesn't match the schema");
        ("statusCode", JNum 400);
        ("details",
         JObj [ ("issues", JStr (describe error));
                ("method", JStr (method request));
                ("url", JStr (url request)) ]) ]))
  else if isResponseSerializationError error then
    send 500 (Json (JObj
      [ ("error", JStr "Internal Server Error");
        ("message", JStr "Response doesn't match the schema");
        ("statusCode", JNum 500);
        ("details",
         JObj [ ("issues", JStr (describe error));
                ("method", JStr (method request));
                ("url", JStr (url request)) ]) ]))
  else if is_bad_status_code error then
    exec logger "error" "[setErrorHandler]" in
    send 500 (Json (JObj [ ("ok", JBool false) ]))
  else
    exec logger "error" "[setErrorHandler]" in
    send 500 (Json (JObj
      [ ("statusCode", JNum 500);
        ("error", JStr "Internal Server Error");
        ("message", JStr (describe error)) ])).

(** How Fastify hands an error to the error handler: the content type and
    the content length set on the reply so far are removed first, so that
    what the error handler sends is serialised on its own terms. *)
Definition handleError (error : FastifyError) (request : Request) : M Reply :=
  exec modify (set_out_headers (List.filter (fun header =>
         negb (String.eqb (ascii_lower (fst header)) "content-type"
               || String.eqb (ascii_lower (fst header)) "content-length")))) in
  setErrorHandler error request.

(** A route with a body schema and the query schema of the generation
    endpoints. *)
Definition route {B} (bodySchema : B -> bool)
  (handler : Request -> B -> Query -> M Reply)
  (request : Request) (body : B) (raw : RawQuery) : M Reply :=
  if bodySchema body then
    match querySchema raw with
    | Some query =>
        try_catch (handler request body query)
          (fun error => handleError (Thrown error) request)
    | None => handleError (SchemaValidationError "querystring") request
    end
  else handleError (SchemaValidationError "body") request.

(** The generation requests the application accepts. *)
Inductive Generation :=
| GenerateImages (body : Movie.ImageBody)
| GenerateFootballSchedule (body : Football.ScheduleBody)
| GenerateFootballHtml (body : Football.ScheduleBody).

Section WithEnv.
Context (E : Env).

(** [POST /api/generate-football-schedule] *)
Definition post_generate_football_schedule :=
  route (Football.footballScheduleSchema E) (Football.generate_football_schedule E).

(** [POST /api/generate-football-html] *)
Definition post_generate_football_html :=
  route (FootballHtml.footballScheduleSchema E)
    (FootballHtml.generate_football_html E).

(** [POST /api/generate-images] *)
Definition post_generate_images :=
  route (Movie.imageGenerationSchema E) (Movie.generate_images E).

(** [GET /api/download/:filename]; the params schema accepts any string. *)
Definition get_download (request : Request) (filename : string) : M Reply :=
  try_catch (Football.download E filename)
    (fun error => handleError (Thrown error) request).

Definition serve (request : Request) (g : Generation) (raw : RawQuery)
  : M Reply :=
  match g with
  | GenerateImages body => post_generate_images request body raw
  | GenerateFootballSchedule body =>
      post_generate_football_schedule request body raw
  | GenerateFootballHtml body => post_generate_football_html request body raw
  end.

End WithEnv.

End App.

(** ** Sample environments

    Concrete worlds on which the handlers can be run. *)

Module Sample.
Import Js Sys Http.

Definition hex_digit (a : ascii) : option Z :=
  match Base64.index_from 0 a "0123456789abcdef" with
  | Some n => Some (Z.of_nat n)
  | None => Z.of_nat <$> Base64.index_from 10 a "ABCDEF"
  end.

(** [parseInt(s, 16)] on up to two hexadecimal digits. *)
Definition parse_hex (s : string) : option Z :=
  match s with
  | String a EmptyString => hex_digit a
  | String a (String b EmptyString) =>
      match hex_digit a, hex_digit b with
      | Some x, Some y => Some (16 * x + y)
      | Some x, None => Some x
      | None, _ => None
      end
  | _ => None
  end.

Definition upper_char (a : ascii) : ascii :=
  let n := nat_of_ascii a in
  if ((97 <=? n) && (n <=? 122))%nat then ascii_of_nat (n - 32) else a.

Fixpoint upper (s : string) : string :=
  match s with
  | EmptyString => EmptyString
  | String a rest => String (upper_char a) (upper rest)
  end.

Definition lower_char (a : ascii) : ascii :=
  let n := nat_of_ascii a in
  if ((65 <=? n) && (n <=? 90))%nat then ascii_of_nat (n + 32) else a.

Fixpoint lower (s : string) : string :=
  match s with
  | EmptyString => EmptyString
  | String a rest => String (lower_char a) (lower rest)
  end.

(** Integers print in decimal, other numbers as a fraction. *)
Definition show_Q (q : Q) : string :=
  let r := Qred q in
  if Pos.eqb (Qden r) 1 then show_Z (Qnum r)
  else show_Z (Qnum r) +:+ "/" +:+ show_Z (Zpos (Qden r)).

Definition show_fit (f : Fit) : string :=
  match f with Cover => "cover" | Inside => "inside" end.

(** An imaging library that labels its output with what was asked. *)
Definition resize (f : Fit) (w h : Z) (input : Buffer) : option Buffer :=
  if (0 <? w) && (0 <? h)
  then Some ("png " +:+ show_Z w +:+ "x" +:+ show_Z h +:+ " " +:+ show_fit f)
  else None.

Definition composite (bg : Buffer) (w h : Z) (ops : list CompositeOp)
  : option Buffer :=
  Some ("jpeg " +:+ show_Z w +:+ "x" +:+ show_Z h +:+ " layers "
        +:+ show_Z (Z.of_nat (length ops))).

(** An ampersand that does not open one of the predefined entities; XML
    does not allow it. *)
Fixpoint stray_ampersand (s : string) : bool :=
  match s with
  | EmptyString => false
  | String a rest =>
      (Ascii.eqb a "&"
       && match Xml.entity_at s with Some _ => false | None => true end)
      || stray_ampersand rest
  end.

(** Like [resize], for an imaging library that refuses markup with such an
    ampersand, as an XML parser does. *)
Definition strict_resize (f : Fit) (w h : Z) (input : Buffer) : option Buffer :=
  if stray_ampersand input then None else resize f w h input.

(** No upstream server answers, no headless browser is installed, every
    awaited operation takes one millisecond. *)
Definition offline : Env :=
  mkEnv "/srv/app"
    (fun _ => inl (JsError "connect ECONNREFUSED"))
    resize composite None
    (fun n => "session" +:+ show_Z (Z.of_nat n))
    (fun n => n mod 8)%nat
    (fun _ => 1%N)
    (fun u => starts_with "http://" u || starts_with "https://" u)
    upper lower parse_hex show_Q.

(** The same with the imaging library that checks the markup it is
    given. *)
Definition strict : Env :=
  mkEnv (cwd offline) (fetch_result offline) strict_resize composite None
    (uuid offline) (random8 offline) (latency offline) (is_url offline)
    (toUpperCase offline) (toLowerCase offline) (parseInt16 offline)
    (show_number offline).

(** Every URL answers 200 with some bytes, and a headless browser is
    installed. *)
Definition online : Env :=
  mkEnv "/srv/app"
    (fun u => inr (mkResponse true 200 "OK" (Some ("bytes of " +:+ u))))
    resize composite
    (Some (fun viewport html options =>
       Some ("jpeg screenshot " +:+ show_Z (vp_width viewport) +:+ "x"
             +:+ show_Z (vp_height viewport) +:+ " @"
             +:+ show_Z (deviceScaleFactor viewport))))
    (fun n => "session" +:+ show_Z (Z.of_nat n))
    (fun n => n mod 8)%nat
    (fun _ => 1%N)
    (fun u => starts_with "http://" u || starts_with "https://" u)
    upper lower parse_hex show_Q.

(** A freshly started server at time 0. *)
Definition boot : World := mkWorld ∅ [] 0 0 0 0 [] [].

Definition request : Request :=
  mkRequest "POST" "/api/generate" {[ "host" := "example.org" ]} "http" false.

Definition game (home away : string) : Football.Jogo :=
  Football.mkJogo home "https://cdn.example/home.png" away
    "https://cdn.example/away.png" "15:00"
    (Some [Football.mkCanal "SPORTV" "https://cdn.example/tv.png"]).

Definition schedule (games : list Football.Jogo) : Football.ScheduleBody :=
  Football.mkScheduleBody "https://cdn.example/logo.png" "20/06/2025" games
    None None (Some "85997487096").

Definition one_game : Football.ScheduleBody :=
  schedule [game "Flamengo" "Chelsea"].

Definition six_games : Football.ScheduleBody :=
  schedule (repeat (game "Flamengo" "Chelsea") 6).

Definition movie : Movie.ImageBody :=
  Movie.mkImageBody "https://cdn.example/logo.png" (Some "contato@empresa.com")
    (Some "(11) 99999-9999") "https://cdn.example/poster.png" None
    "Filme de Teste" "Uma aventura que vai emocionar toda a familia.".

Definition legacy_movie : ImageGenerate.ImageBody :=
  ImageGenerate.mkImageBody "https://cdn.example/logo.png"
    (Some "contato@empresa.com") (Some "(11) 99999-9999")
    "https://cdn.example/poster.png" None
    "Filme de Teste" "Uma aventura que vai emocionar toda a familia." None.

Definition no_flags : RawQuery := mkRawQuery QAbsent QAbsent.
Definition base64_flag : RawQuery := mkRawQuery (QString "true") QAbsent.

End Sample.

(** * Properties *)

(** ** Strings *)

Module StringFacts.
Import Js.

Lemma append_assoc (a b c : string) : (a +:+ b) +:+ c = a +:+ (b +:+ c).
Proof. induction a as [|x a IH]; simpl; [reflexivity|now rewrite IH]. Qed.

Lemma append_nil_r (a : string) : a +:+ "" = a.
Proof. induction a as [|x a IH]; simpl; [reflexivity|now rewrite IH]. Qed.

Lemma starts_with_app (p s : string) : starts_with p (p +:+ s) = true.
Proof.
  induction p as [|a p IH]; simpl; [reflexivity|].
  now rewrite Ascii.eqb_refl.
Qed.

Lemma starts_with_app_same (a p s : string) :
  starts_with (a +:+ p) (a +:+ s) = starts_with p s.
Proof.
  induction a as [|x a IH]; simpl; [reflexivity|].
  now rewrite Ascii.eqb_refl.
Qed.

Lemma starts_with_app_l (p s t : string) :
  starts_with p s = true -> starts_with p (s +:+ t) = true.
Proof.
  revert s. induction p as [|a p IH]; intros s; [reflexivity|].
  destruct s as [|b s]; [discriminate|]. simpl.
  intros H. apply andb_prop in H as [-> H]. now apply IH.
Qed.

Lemma includes_app_l (n s t : string) :
  includes n s = true -> includes n (s +:+ t) = true.
Proof.
  induction s as [|a s IH].
  - cbn [includes]. rewrite orb_false_r. destruct n; [|discriminate].
    intros _. now destruct t.
  - cbn [includes String.append]. intros H.
    apply orb_prop in H as [H|H]; apply orb_true_intro.
    + left. now apply (starts_with_app_l n (String a s) t).
    + right. now apply IH.
Qed.

Lemma includes_app_r (n s t : string) :
  includes n t = true -> includes n (s +:+ t) = true.
Proof.
  intros H. induction s as [|a s IH]; [exact H|].
  cbn [includes String.append]. rewrite IH. apply orb_true_r.
Qed.

Lemma includes_here (n t : string) : includes n (n +:+ t) = true.
Proof.
  destruct (n +:+ t) eqn:E; cbn [includes]; rewrite <- E, starts_with_app;
    reflexivity.
Qed.

End StringFacts.

(** ** Escaping *)

Module XmlFacts.
Import Js Xml StringFacts.

Lemma replace_all_app c rep (x y : string) :
  replace_all c rep (x +:+ y) = replace_all c rep x +:+ replace_all c rep y.
Proof.
  induction x as [|a x IH]; simpl; [reflexivity|].
  destruct (Ascii.eqb a c); simpl; rewrite IH; [|reflexivity].
  now rewrite append_assoc.
Qed.

(** The five passes of [escapeXml] never touch the output of an earlier
    pass: the whole function acts character by character. *)
Lemma escapeXml_cons a s : escapeXml (String a s) = entity a +:+ escapeXml s.
Proof.
  unfold escapeXml, entity.
  change (String a s) with (String a EmptyString +:+ s).
  rewrite !replace_all_app. f_equal.
  simpl replace_all at 5.
  destruct (Ascii.eqb a "&") eqn:E1; [reflexivity|].
  simpl replace_all at 4.
  destruct (Ascii.eqb a "<") eqn:E2; [reflexivity|].
  simpl replace_all at 3.
  destruct (Ascii.eqb a ">") eqn:E3; [reflexivity|].
  simpl replace_all at 2.
  destruct (Ascii.eqb a "034") eqn:E4; [reflexivity|].
  simpl replace_all.
  destruct (Ascii.eqb a "'") eqn:E5; reflexivity.
Qed.

Lemma escapeXml_nil : escapeXml EmptyString = EmptyString.
Proof. reflexivity. Qed.

Lemma entity_at_plain a t :
  Ascii.eqb a "&" = false -> entity_at (String a t) = None.
Proof.
  intros E. unfold entity_at. cbn [Js.starts_with].
  now rewrite (Ascii.eqb_sym _ a), E.
Qed.

Lemma special_amp_false a : special a = false -> Ascii.eqb a "&" = false.
Proof. unfold special. now destruct (Ascii.eqb a "&"). Qed.

(** What [entity] produces for a special character is recognised by
    [entity_at], whatever follows. *)
Lemma entity_at_entity a t :
  special a = true ->
  exists tail, entity a +:+ t = String "&" (tail +:+ t) /\
    entity_at (entity a +:+ t) = Some (a, S (String.length tail)).
Proof.
  unfold special, entity. intros H.
  destruct (Ascii.eqb a "&") eqn:E1.
  { apply Ascii.eqb_eq in E1 as ->. now exists "amp;". }
  destruct (Ascii.eqb a "<") eqn:E2.
  { apply Ascii.eqb_eq in E2 as ->. now exists "lt;". }
  destruct (Ascii.eqb a ">") eqn:E3.
  { apply Ascii.eqb_eq in E3 as ->. now exists "gt;". }
  destruct (Ascii.eqb a "034") eqn:E4.
  { apply Ascii.eqb_eq in E4 as ->. now exists "quot;". }
  destruct (Ascii.eqb a "'") eqn:E5; [|discriminate H].
  apply Ascii.eqb_eq in E5 as ->. now exists "#39;".
Qed.

Lemma entity_plain a : special a = false -> entity a = String a EmptyString.
Proof.
  unfold special, entity.
  destruct (Ascii.eqb a "&"), (Ascii.eqb a "<"), (Ascii.eqb a ">"),
    (Ascii.eqb a "034"), (Ascii.eqb a "'"); (discriminate || reflexivity).
Qed.

Lemma unescape_from_skip (u t : string) :
  unescape_from (String.length u) (u +:+ t) = unescape_from 0 t.
Proof. induction u as [|x u IH]; simpl; [now destruct t|exact IH]. Qed.

Lemma escaped_from_skip (u t : string) :
  escaped_from (String.length u) (u +:+ t) = escaped_from 0 t.
Proof. induction u as [|x u IH]; simpl; [now destruct t|exact IH]. Qed.

Lemma unescape_entity a t :
  unescape_from 0 (entity a +:+ t) = String a (unescape_from 0 t).
Proof.
  destruct (special a) eqn:S.
  - destruct (entity_at_entity a t S) as (tail & E & A).
    rewrite E in A |- *. cbn [unescape_from]. rewrite A.
    cbn [Nat.pred]. now rewrite unescape_from_skip.
  - rewrite (entity_plain a S). cbn [String.append unescape_from].
    now rewrite entity_at_plain by now apply special_amp_false.
Qed.

Lemma escaped_entity a t :
  escaped_from 0 (entity a +:+ t) = escaped_from 0 t.
Proof.
  destruct (special a) eqn:S.
  - destruct (entity_at_entity a t S) as (tail & E & A).
    rewrite E in A |- *. cbn [escaped_from]. rewrite A.
    cbn [Nat.pred]. change (special "&") with true. cbn iota.
    now rewrite escaped_from_skip.
  - rewrite (entity_plain a S). cbn [String.append escaped_from].
    now rewrite S.
Qed.

Lemma unescape_escape s : unescapeXml (escapeXml s) = s.
Proof.
  unfold unescapeXml. induction s as [|a s IH]; [reflexivity|].
  now rewrite escapeXml_cons, unescape_entity, IH.
Qed.

Lemma escapeXml_well_escaped s : well_escaped (escapeXml s) = true.
Proof.
  unfold well_escaped. induction s as [|a s IH]; [reflexivity|].
  now rewrite escapeXml_cons, escaped_entity.
Qed.

(** A character that is special never survives on its own: the raw
    characters [<], [>] and the two quotes do not occur in the result. *)
Lemma occurs_app c (x y : string) :
  occurs c (x +:+ y) = occurs c x || occurs c y.
Proof.
  induction x as [|a x IH]; simpl; [reflexivity|].
  now rewrite IH, orb_assoc.
Qed.

Lemma special_cases c :
  special c = true ->
  c = "&"%char \/ c = "<"%char \/ c = ">"%char \/ c = "034"%char \/ c = "'"%char.
Proof.
  unfold special. intros H.
  repeat (apply orb_prop in H as [H|H]); apply Ascii.eqb_eq in H; auto.
Qed.

Lemma occurs_entity c a :
  special c = true -> c <> "&"%char -> occurs c (entity a) = false.
Proof.
  intros Sc Nc.
  destruct (special_cases c Sc) as [ -> | [ -> | [ -> | [ -> | -> ] ] ] ]; [contradiction|..];
    unfold entity;
    (destruct (Ascii.eqb a "&") eqn:E1; [reflexivity|]);
    (destruct (Ascii.eqb a "<") eqn:E2; [reflexivity|]);
    (destruct (Ascii.eqb a ">") eqn:E3; [reflexivity|]);
    (destruct (Ascii.eqb a "034") eqn:E4; [reflexivity|]);
    (destruct (Ascii.eqb a "'") eqn:E5; [reflexivity|]);
    cbn [occurs]; rewrite ?E2, ?E3, ?E4, ?E5; reflexivity.
Qed.

Lemma occurs_escapeXml c s :
  special c = true -> c <> "&"%char -> occurs c (escapeXml s) = false.
Proof.
  intros Sc Nc. induction s as [|a s IH]; [reflexivity|].
  now rewrite escapeXml_cons, occurs_app, occurs_entity, IH.
Qed.

(** C9. For every string [s], [escapeXml s] has no markup-special
    character outside the entities it produces (every [&] opens an entity and
    the raw characters [<], [>] and the two quotes do not occur at all), the
    inverse entity substitution gives [s] back, and the escaping is
    injective. *)
Theorem escapeXml_roundtrip (s t : string) :
  well_escaped (escapeXml s) = true
  /\ occurs "<" (escapeXml s) = false
  /\ occurs ">" (escapeXml s) = false
  /\ occurs "034" (escapeXml s) = false
  /\ occurs "'" (escapeXml s) = false
  /\ unescapeXml (escapeXml s) = s
  /\ (escapeXml s = escapeXml t -> s = t).
Proof.
  split; [apply escapeXml_well_escaped|].
  repeat (split; [now apply occurs_escapeXml|]).
  split; [apply unescape_escape|].
  intros H. rewrite <- (unescape_escape s), H. apply unescape_escape.
Qed.

Lemma escapeXml_roundtrip_witness :
  escapeXml "Tom & <Jerry>" = "Tom &amp; &lt;Jerry&gt;"
  /\ unescapeXml (escapeXml "Tom & <Jerry>") = "Tom & <Jerry>"
  /\ "Tom & <Jerry>" = "Tom & <Jerry>".
Proof.
  destruct (escapeXml_roundtrip "Tom & <Jerry>" "Tom & <Jerry>")
    as (_ & _ & _ & _ & _ & Hround & Hinj).
  split; [reflexivity|]. split; [exact Hround|]. apply Hinj. reflexivity.
Defined.

End XmlFacts.

(** ** Base64 *)

Module Base64Facts.
Import Base64.








End Base64Facts.

(** ** Reasoning about computations *)

Module Logic.
Import Sys Http.

(** Whatever [m] returns satisfies [S] (nothing is said when it throws). *)
Definition yields {A} (m : M A) (S : A -> Prop) : Prop :=
  forall w a w', m w = (inr a, w') -> S a.

Lemma yields_ret {A} (a : A) (S : A -> Prop) : S a -> yields (ret a) S.
Proof. intros H w a' w' [= <- _]. exact H. Qed.

Lemma yields_throw {A} e (S : A -> Prop) : yields (throw e) S.
Proof. intros w a w' [=]. Qed.

Lemma yields_bind {A B} (m : M A) (k : A -> M B) (S : B -> Prop) :
  (forall a, yields (k a) S) -> yields (bind m k) S.
Proof.
  intros H w b w'. unfold bind. destruct (m w) as [[e|a] w1]; [intros [=]|].
  apply H.
Qed.

Lemma yields_try_catch {A} (body : M A) (h : exn -> M A) (S : A -> Prop) :
  yields body S -> (forall e, yields (h e) S) -> yields (try_catch body h) S.
Proof.
  intros Hb Hh w a w'. unfold try_catch.
  destruct (body w) as [[e|a'] w1] eqn:Eb.
  - apply Hh.
  - intros [= <- <-]. exact (Hb _ _ _ Eb).
Qed.

Lemma yields_send c p (S : Reply -> Prop) :
  (forall hs, S (mkReply c hs p)) -> yields (send c p) S.
Proof.
  intros H w r w'. unfold send, bind, get, modify, ret, throw.
  destruct (refused (out_headers w) p); intros [= <- _]. apply H.
Qed.

(** A payload that is not refused leaves with the headers set so far. *)
Lemma send_accepted c p w :
  refused (out_headers w) p = false ->
  send c p w
  = (inr (mkReply c (out_headers w) p), set_out_headers (fun _ => []) w).
Proof. intros H. unfold send, bind, get, modify, ret. now rewrite H. Qed.

(** What [send] returns, when it does. *)
Lemma send_returned c p w r w' :
  send c p w = (inr r, w') ->
  r = mkReply c (out_headers w) p /\ w' = set_out_headers (fun _ => []) w.
Proof.
  unfold send, bind, get, modify, ret, throw.
  destruct (refused (out_headers w) p); intros [= <- <-]. now split.
Qed.

(** An object is refused under a content type that is not JSON. *)
Lemma send_refused c value w contentType :
  get_header "content-type" (out_headers w) = Some contentType ->
  Js.includes "json" contentType = false ->
  send c (Json value) w = (inl (JsError "FST_ERR_REP_INVALID_PAYLOAD_TYPE"), w).
Proof.
  intros Hct Hjson. unfold send, bind, get, throw, refused.
  now rewrite Hct, Hjson.
Qed.

(** A reply without headers takes any payload. *)
Lemma accepted_without_headers p : refused [] p = false.
Proof. now destruct p. Qed.


End Logic.

(** ** Errors on their way to the error handler *)

Module DispatchFacts.
Import Js Sys Http App Logic.

Definition kept (header : string * string) : bool :=
  negb (String.eqb (ascii_lower (fst header)) "content-type"
        || String.eqb (ascii_lower (fst header)) "content-length").

Lemma no_content_type_left hs :
  get_header "content-type" (List.filter kept hs) = None.
Proof.
  induction hs as [|[k v] hs IH]; [reflexivity|].
  cbn [List.filter]. unfold kept at 1. cbn [fst].
  destruct (String.eqb (ascii_lower k) "content-type") eqn:E; cbn [orb negb];
    [exact IH|].
  destruct (String.eqb (ascii_lower k) "content-length"); cbn [negb];
    [exact IH|].
  cbn [get_header]. now rewrite IH, E.
Qed.

Lemma accepted_after_dispatch hs p : refused (List.filter kept hs) p = false.
Proof. destruct p; cbn [refused]; now rewrite ?no_content_type_left. Qed.

(** The error handler always answers, and touches nothing but the reply
    and the log. *)
Lemma handleError_answers error request w :
  exists reply w',
    handleError error request w = (inr reply, w')
    /\ code reply = (if hasZodFastifySchemaValidationErrors error
                     then 400 else 500)
    /\ fs w' = fs w /\ timers w' = timers w /\ ticks w' = ticks w
    /\ now w' = now w /\ uuids w' = uuids w
    /\ (hasZodFastifySchemaValidationErrors error = true ->
        trace w' = trace w).
Proof.
  unfold handleError, setErrorHandler, bind, modify, logger.
  fold kept.
  destruct (hasZodFastifySchemaValidationErrors error);
    [|destruct (isResponseSerializationError error);
      [|destruct (is_bad_status_code error)]];
    cbn -[send];
    rewrite send_accepted
      by (cbn [out_headers set_out_headers emit]; apply accepted_after_dispatch);
    eexists _, _; (split; [reflexivity|]); cbn; auto 10;
    repeat split; discriminate.
Qed.

End DispatchFacts.

(** ** Response mode of the generation endpoints *)

Module ModeFacts.
Import Js Sys Http Logic App.




Ltac yields_step :=
  lazymatch goal with
  | |- yields (send _ _) _ => apply yields_send; intros ?
  | |- yields (throw _) _ => apply yields_throw
  | |- yields (try_catch _ _) _ => apply yields_try_catch; [|intros ?]
  | |- yields (bind _ _) _ => apply yields_bind; intros ?
  end.




Lemma error_handler_not_200 error request :
  yields (setErrorHandler error request) (fun r => code r <> 200).
Proof.
  unfold setErrorHandler.
  destruct (hasZodFastifySchemaValidationErrors error),
    (isResponseSerializationError error), (is_bad_status_code error);
    repeat yields_step; discriminate.
Qed.

Lemma dispatched_error_not_200 error request :
  yields (handleError error request) (fun r => code r <> 200).
Proof.
  unfold handleError. yields_step. apply error_handler_not_200.
Qed.


Lemma base64_flag raw q :
  querySchema raw = Some q ->
  (base64 q = true <-> raw_base64 raw = QString "true").
Proof.
  unfold querySchema.
  destruct (flag (raw_base64 raw)) as [b|] eqn:Eb; [|discriminate].
  destruct (flag (raw_file raw)) as [f|]; [|discriminate].
  intros [= <-]. cbn [base64].
  destruct (raw_base64 raw) as [|s|l]; cbn [flag] in Eb;
    [injection Eb as <-|injection Eb as <-|discriminate].
  - split; discriminate.
  - rewrite String.eqb_eq. split; [now intros ->|now intros [= ->]].
Qed.



End ModeFacts.

(** ** The asset fetcher *)

Module FetchFacts.
Import Js Sys Http Markup StringFacts.

(** The image a URL yields at the given size, when the download, the status
    check, the body read and the decoding all succeed. *)
Definition fetched (E : Env) (url : string) (width height : Z) : option Buffer :=
  match fetch_result E url with
  | inr response =>
      if ok response then
        buffer ← body response; sharp_resize_png E Cover width height buffer
      else None
  | inl _ => None
  end.

(** An SVG of the given size holding a grey rectangle and the label. *)
Definition is_placeholder (width height : Z) (label : string) (buffer : Buffer)
  : Prop :=
  starts_with
    (markup "<svg width=`" +:+ show_Z width +:+ markup "` height=`"
     +:+ show_Z height +:+ dq) buffer = true
  /\ includes (markup "<rect width=`100%` height=`100%` fill=`#666666`/>") buffer
     = true
  /\ includes (">" +:+ label +:+ "</text>") buffer = true.

Lemma placeholder_shape width height label w :
  exists buffer,
    Football.createPlaceholderImage width height "#666666" label w
      = (inr buffer, w)
    /\ Movie.createPlaceholderImage width height "#666666" label w
      = (inr buffer, w)
    /\ is_placeholder width height label buffer.
Proof.
  unfold is_placeholder, Football.createPlaceholderImage,
    Movie.createPlaceholderImage, ret.
  generalize (show_Z width) (show_Z height). intros sw sh.
  eexists. split; [reflexivity|]. split; [reflexivity|].
  split; [|split].
  - rewrite !starts_with_app_same. reflexivity.
  - do 4 apply includes_app_r.
    match goal with |- includes _ (?c +:+ ?col +:+ ?d +:+ ?r) = _ =>
      replace (c +:+ col +:+ d +:+ r) with ((c +:+ col +:+ d) +:+ r)
        by (now rewrite !append_assoc)
    end.
    apply includes_app_l. vm_compute. reflexivity.
  - do 6 apply includes_app_r.
    match goal with |- includes ?n (?d +:+ label +:+ ?t) = _ =>
      replace (d +:+ label +:+ t)
        with (String.substring 0 (String.length d - 1) d +:+ n
              +:+ String.substring 7 (String.length t - 7) t)
        by (rewrite !append_assoc; reflexivity)
    end.
    apply includes_app_r, includes_here.
Qed.

(** [downloadImageWithFallback] (footballGenerate.ts and movieGenerate.ts)
    returns a buffer for every URL and size, in every state of the world:
    the fetched image resized to the requested size when the download, the
    status check and the decoding succeed, and otherwise the placeholder
    markup of that size, with the label as it was given.  No error reaches
    the caller. *)
Lemma fallback_never_throws E url width height label w :
  exists buffer w',
    Football.downloadImageWithFallback E url width height label w
      = (inr buffer, w')
    /\ Movie.downloadImageWithFallback E url width height label w
      = (inr buffer, w')
    /\ match fetched E url width height with
       | Some image => buffer = image
       | None => is_placeholder width height label buffer
       end.
Proof.
  unfold Football.downloadImageWithFallback, Movie.downloadImageWithFallback,
    fetched, try_catch, bind, fetch, response_buffer, sharp_resize, logger,
    await_io, modify, throw, ret.
  destruct (fetch_result E url) as [e|response]; cbn -[String.append].
  2: destruct (ok response); cbn -[String.append].
  2: destruct (body response) as [b|]; cbn -[String.append].
  2: destruct (sharp_resize_png E Cover width height b) as [image|];
       cbn -[String.append].
  2: { eauto. }
  all: match goal with
       | |- context [Football.createPlaceholderImage _ _ _ _ ?w0] =>
           destruct (placeholder_shape width height label w0)
             as (buffer & -> & -> & Hp)
       end; eauto.
Qed.

(** The label of a placeholder is spliced into the markup as it is, while
    the overlays of the same module pass every text through [escapeXml].
    The label of a crest is the first three characters of the team name. *)
Definition crest_label (team : string) : string := substring 0 3 team.

Definition ampersand_team : Football.ScheduleBody :=
  Sample.schedule [Sample.game "A&B United" "Chelsea"].

(** C1. [downloadImageWithFallback] does not always hand its caller a
    placeholder image.  For the team name "A&B United", which the body schema
    of [POST /generate-football-schedule] accepts, the label of the crest is
    "A&B"; when the crest cannot be fetched the function returns, without
    throwing, markup in which [>A&B</text>] stands unescaped.  That buffer is
    not well-formed XML, so an imaging library that parses what it is given
    refuses it when the crest is resized, and the request is answered with
    status 500; the same request with the name "Flamengo" is answered with
    200, and so would this one be had the label gone through [escapeXml],
    whose result is well escaped. *)
Theorem placeholder_label_not_escaped :
  Football.footballScheduleSchema Sample.strict ampersand_team = true
  /\ crest_label "A&B United" = "A&B"
  /\ Xml.well_escaped (crest_label "A&B United") = false
  /\ Xml.well_escaped (Xml.escapeXml (crest_label "A&B United")) = true
  /\ (exists buffer w',
        Football.downloadImageWithFallback Sample.strict
          "https://cdn.example/home.png" 100 100 (crest_label "A&B United")
          Sample.boot = (inr buffer, w')
        /\ includes ">A&B</text>" buffer = true
        /\ Sample.stray_ampersand buffer = true
        /\ sharp_resize_png Sample.strict Inside 70 70 buffer = None)
  /\ (exists reply w',
        App.serve Sample.strict Sample.request
          (App.GenerateFootballSchedule ampersand_team) Sample.no_flags
          Sample.boot = (inr reply, w')
        /\ code reply = 500)
  /\ (exists reply w',
        App.serve Sample.strict Sample.request
          (App.GenerateFootballSchedule Sample.one_game) Sample.no_flags
          Sample.boot = (inr reply, w')
        /\ code reply = 200).
Proof.
  split; [reflexivity|]. split; [reflexivity|].
  split; [reflexivity|]. split; [reflexivity|].
  split; [|split].
  - destruct (fallback_never_throws Sample.strict
                "https://cdn.example/home.png" 100 100
                (crest_label "A&B United") Sample.boot)
      as (buffer & w' & Hrun & _ & Hshape).
    exists buffer, w'. split; [exact Hrun|].
    change (fetched Sample.strict "https://cdn.example/home.png" 100 100)
      with (@None Buffer) in Hshape.
    destruct Hshape as (_ & _ & Hlabel).
    split; [exact Hlabel|].
    assert (Hbuffer : fst (Football.downloadImageWithFallback Sample.strict
                             "https://cdn.example/home.png" 100 100
                             (crest_label "A&B United") Sample.boot)
                      = inr buffer) by now rewrite Hrun.
    vm_compute in Hbuffer. injection Hbuffer as <-.
    split; vm_compute; reflexivity.
  - eexists _, _. split; [vm_compute; reflexivity|reflexivity].
  - eexists _, _. split; [vm_compute; reflexivity|reflexivity].
Qed.

(** The variant of imageGenerate.ts is a different function: it hands the
    fetched bytes over as they are, and its placeholder is rasterised inside
    the [catch] block, where a failure of the imaging library is not caught. *)
Example legacy_fallback_returns_raw_bytes :
  fst (ImageGenerate.downloadImageWithFallback Sample.online
         "https://cdn.example/logo.png" 200 200 "LOGO" Sample.boot)
  = inr "bytes of https://cdn.example/logo.png".
Proof. reflexivity. Qed.

Example legacy_fallback_can_throw :
  fst (ImageGenerate.downloadImageWithFallback Sample.offline
         "https://cdn.example/logo.png" 0 0 "LOGO" Sample.boot)
  = inl (JsError "sharp: unsupported image or dimensions").
Proof. reflexivity. Qed.

End FetchFacts.

(** ** Validation *)

Module ValidationFacts.
Import Js Sys Http App DispatchFacts.

(** C3. A request to [POST /generate-football-schedule] whose [jogos] list
    has more than five entries is answered with status 400 by the error
    handler, and the handler body is not entered: nothing is fetched,
    rendered or written, no I/O operation is awaited and no timer is set. *)
Theorem too_many_games_rejected E request body raw w :
  (5 < length (Football.jogos body))%nat ->
  exists reply w',
    post_generate_football_schedule E request body raw w = (inr reply, w')
    /\ code reply = 400
    /\ trace w' = trace w /\ fs w' = fs w /\ timers w' = timers w
    /\ ticks w' = ticks w /\ now w' = now w.
Proof.
  intros Hlen.
  unfold post_generate_football_schedule, route, Football.footballScheduleSchema.
  replace (length (Football.jogos body) <=? 5)%nat with false
    by (symmetry; apply Nat.leb_gt; exact Hlen).
  rewrite andb_false_r, andb_false_l.
  destruct (handleError_answers (SchemaValidationError "body") request w)
    as (reply & w' & Hrun & Hcode & Hfs & Htimers & Hticks & Hnow & _ & Htrace).
  exists reply, w'. rewrite Htrace by reflexivity. auto 10.
Qed.

Lemma too_many_games_rejected_witness :
  (5 < length (Football.jogos Sample.six_games))%nat
  /\ exists reply w',
       post_generate_football_schedule Sample.online Sample.request
         Sample.six_games Sample.no_flags Sample.boot = (inr reply, w')
       /\ code reply = 400
       /\ trace w' = trace Sample.boot /\ fs w' = fs Sample.boot
       /\ timers w' = timers Sample.boot
       /\ ticks w' = ticks Sample.boot /\ now w' = now Sample.boot.
Proof.
  assert (H : (5 < length (Football.jogos Sample.six_games))%nat)
    by (cbn; lia).
  split; [exact H|].
  exact (too_many_games_rejected Sample.online Sample.request Sample.six_games
           Sample.no_flags Sample.boot H).
Defined.

(** With five entries the same request goes through to the handler. *)
Example five_games_accepted :
  match fst (post_generate_football_schedule Sample.online Sample.request
               (Sample.schedule (repeat (Sample.game "A" "B") 5))
               Sample.no_flags Sample.boot) with
  | inr reply => code reply = 200
  | inl _ => False
  end.
Proof. vm_compute. reflexivity. Qed.

End ValidationFacts.

(** ** Downloading an artifact *)

Module DownloadFacts.
Import Js Sys Http App Logic DispatchFacts.

Ltac run_download :=
  unfold get_download, Football.download, ImageGenerate.download, try_catch,
    bind, new_reply, fs_access, fs_readFile, await_io, modify, get,
    reply_header, logger, ret, throw;
  cbn -[String.append Path.join send handleError].

(** No entry at the joined path: [fs.access] throws before any header is
    set, and the [catch] clause answers 404. *)
Lemma download_absent E request filename w :
  stat (fs w) (Path.join (Football.UPLOADS_DIR E) filename) = None ->
  exists reply w',
    get_download E request filename w = (inr reply, w') /\ code reply = 404.
Proof.
  intros H. run_download. rewrite H. cbn -[send handleError].
  rewrite send_accepted by reflexivity. eauto.
Qed.

(** A regular file at the joined path is sent as it is. *)
Lemma download_file E request filename w c :
  stat (fs w) (Path.join (Football.UPLOADS_DIR E) filename) = Some (File c) ->
  exists reply w',
    get_download E request filename w = (inr reply, w')
    /\ code reply = 200 /\ payload reply = Bytes c.
Proof.
  intros H. run_download. rewrite H.
  cbn -[String.append Path.join send handleError].
  rewrite H. cbn -[String.append send handleError].
  rewrite send_accepted by reflexivity. eauto.
Qed.

(** A directory at the joined path: [fs.access] succeeds, the headers are
    set, [fs.readFile] throws, and the object that the [catch] clause sends
    is refused under the content type [image/jpeg]; the error handler of the
    application answers 500. *)
Lemma download_directory E request filename w :
  stat (fs w) (Path.join (Football.UPLOADS_DIR E) filename) = Some Dir ->
  exists reply w',
    get_download E request filename w = (inr reply, w') /\ code reply = 500.
Proof.
  intros H. run_download. rewrite H.
  cbn -[String.append Path.join send handleError].
  rewrite H. cbn -[String.append send handleError].
  rewrite (send_refused _ _ _ "image/jpeg") by reflexivity.
  match goal with
  | |- context [handleError ?e request ?w0] =>
      destruct (handleError_answers e request w0)
        as (reply & w' & -> & Hcode & _)
  end.
  eauto.
Qed.

Lemma stat_trailing_slash files p c :
  Path.ends_with_slash p = true -> stat files p <> Some (File c).
Proof.
  unfold stat. intros ->. now destruct (files !! Path.drop_last p) as [[]|].
Qed.

(** Once its timer has fired, the target is not a regular file any more. *)
Lemma fire_removes_file E t w c :
  stat (fs (fire E t w)) (target t) <> Some (File c).
Proof.
  destruct (Path.ends_with_slash (target t)) eqn:Eslash;
    [now apply stat_trailing_slash|].
  unfold fire, unlink_callback, try_catch, bind, fs_unlink, await_io, modify,
    get, logger, ret, throw.
  cbn -[stat].
  destruct (stat (fs w) (target t)) as [[c'|]|] eqn:Es; cbn -[stat];
    unfold stat in *; rewrite Eslash in *.
  - now rewrite lookup_delete_eq.
  - now rewrite Es.
  - now rewrite Es.
Qed.

(** The callback does not remove a directory, and does not create one. *)
Lemma fire_keeps_directories E t w :
  stat (fs (fire E t w)) (target t) = Some Dir <->
  stat (fs w) (target t) = Some Dir.
Proof.
  unfold fire, unlink_callback, try_catch, bind, fs_unlink, await_io, modify,
    get, logger, ret, throw.
  cbn -[stat].
  destruct (stat (fs w) (target t)) as [[c'|]|] eqn:Es; cbn -[stat];
    rewrite ?Es; try tauto.
  unfold stat in *. destruct (Path.ends_with_slash (target t)).
  - destruct (fs w !! Path.drop_last (target t)) as [[]|]; discriminate.
  - rewrite lookup_delete_eq. split; discriminate.
Qed.

(** When the timer of an artifact has fired, nothing is left at its
    path. *)
Lemma fire_leaves_nothing E t w :
  stat (fs w) (target t) <> Some Dir ->
  stat (fs (fire E t w)) (target t) = None.
Proof.
  intros Hdir.
  destruct (stat (fs (fire E t w)) (target t)) as [[c|]|] eqn:Es;
    [|apply fire_keeps_directories in Es|]; try contradiction; [|reflexivity].
  now apply fire_removes_file in Es.
Qed.

(** C2. [GET /download/:filename] answers 404 for every filename whose
    file is absent from the uploads directory: when nothing is at the path,
    and in particular in the state that the deletion timer of an artifact
    leaves behind when it fires.  (The timer removes files only; a directory
    at the path is not an absent file, and [directory_is_a_server_error]
    below shows what a request for it gets.) *)
Theorem absent_file_404 E request filename :
  (forall w,
     stat (fs w) (Path.join (Football.UPLOADS_DIR E) filename) = None ->
     exists reply w',
       get_download E request filename w = (inr reply, w')
       /\ code reply = 404)
  /\ (forall w t,
        target t = Path.join (Football.UPLOADS_DIR E) filename ->
        stat (fs w) (target t) <> Some Dir ->
        stat (fs (fire E t w)) (target t) = None
        /\ exists reply w',
             get_download E request filename (fire E t w) = (inr reply, w')
             /\ code reply = 404).
Proof.
  split.
  - intros w H. now apply download_absent.
  - intros w t Ht Hdir.
    pose proof (fire_leaves_nothing E t w Hdir) as Hgone.
    split; [exact Hgone|]. apply download_absent. now rewrite <- Ht.
Qed.

Lemma absent_file_404_witness :
  let path := "/srv/app/temp-images/football_session0_square.jpg" in
  let saved :=
    snd (Football.saveImageAndGetLink Sample.offline "jpeg bytes"
           "football_session0_square.jpg" Sample.request Sample.boot) in
  stat (fs Sample.boot) path = None
  /\ (exists reply w',
        get_download Sample.offline Sample.request
          "football_session0_square.jpg" Sample.boot = (inr reply, w')
        /\ code reply = 404)
  /\ stat (fs saved) path = Some (File "jpeg bytes")
  /\ timers saved = [mkTimer 3600003 path]
  /\ (exists reply w',
        get_download Sample.offline Sample.request
          "football_session0_square.jpg"
          (fire Sample.offline (mkTimer 3600003 path) saved) = (inr reply, w')
        /\ code reply = 404).
Proof.
  destruct (absent_file_404 Sample.offline Sample.request
              "football_session0_square.jpg") as [Habsent Hfired].
  cbv zeta. split; [reflexivity|].
  split; [apply Habsent; reflexivity|].
  split; [vm_compute; reflexivity|].
  split; [vm_compute; reflexivity|].
  apply Hfired; [reflexivity|]. vm_compute. discriminate.
Defined.

(** A name that designates a directory is another matter: the uploads
    directory itself, asked for as [.], is there, and the request ends in
    the error handler. *)
Example directory_is_a_server_error :
  let w :=
    snd (Football.ensureUploadsDir Sample.offline Sample.boot) in
  stat (fs w) (Path.join (Football.UPLOADS_DIR Sample.offline) ".")
  = Some Dir
  /\ exists reply w',
       get_download Sample.offline Sample.request "." w = (inr reply, w')
       /\ code reply = 500
       /\ payload_field "message" reply
          = Some (JStr "FST_ERR_REP_INVALID_PAYLOAD_TYPE").
Proof.
  cbv zeta. split; [reflexivity|].
  eexists _, _. split; [vm_compute; reflexivity|]. split; reflexivity.
Qed.

End DownloadFacts.

(** ** Effects of computations *)

Module Effects.
Import Js Sys Http.

(** *** What a computation may leave behind *)

(** The file contents written so far. *)
Fixpoint writes (events : list Event) : list (string * Buffer) :=
  match events with
  | [] => []
  | EvWrite path content :: rest => (path, content) :: writes rest
  | _ :: rest => writes rest
  end.

Lemma writes_app (a b : list Event) : writes (a ++ b) = (writes a ++ writes b)%list.
Proof.
  induction a as [|e a IH]; [reflexivity|].
  destruct e; cbn [writes app]; rewrite ?IH; reflexivity.
Qed.

(** [w'] differs from [w] by elapsed time, random draws and events other
    than file writes. *)
Record frame (w w' : World) : Prop := mkFrame {
  frame_fs : fs w' = fs w;
  frame_timers : timers w' = timers w;
  frame_uuids : uuids w' = uuids w;
  frame_headers : out_headers w' = out_headers w;
  frame_writes : writes (trace w') = writes (trace w);
  frame_now : now w <= now w'
}.

Lemma frame_refl w : frame w w.
Proof. split; (reflexivity || lia). Qed.

Lemma frame_trans w1 w2 w3 : frame w1 w2 -> frame w2 w3 -> frame w1 w3.
Proof.
  intros [] []. split; try (etransitivity; eassumption); lia.
Qed.

(** [m] only reads the outside world, lets time pass and logs. *)
Definition steady {A} (m : M A) : Prop := forall w, frame w (snd (m w)).

(** The outcome of [m] does not depend on the state of the world. *)
Definition determinate {A} (m : M A) : Prop :=
  exists r, forall w, fst (m w) = r.

Lemma steady_ret {A} (a : A) : steady (ret a).
Proof. intros w. apply frame_refl. Qed.

Lemma steady_throw {A} e : steady (@throw A e).
Proof. intros w. apply frame_refl. Qed.

Lemma steady_bind {A B} (m : M A) (k : A -> M B) :
  steady m -> (forall a, steady (k a)) -> steady (bind m k).
Proof.
  intros Hm Hk w. unfold bind. specialize (Hm w).
  destruct (m w) as [[e|a] w1]; [exact Hm|].
  eapply frame_trans; [exact Hm|apply Hk].
Qed.

Lemma steady_try_catch {A} (body : M A) (h : exn -> M A) :
  steady body -> (forall e, steady (h e)) -> steady (try_catch body h).
Proof.
  intros Hb Hh w. unfold try_catch. specialize (Hb w).
  destruct (body w) as [[e|a] w1]; [|exact Hb].
  eapply frame_trans; [exact Hb|apply Hh].
Qed.

Lemma steady_try_finally {A} (body : M A) (cleanup : M unit) :
  steady body -> steady cleanup -> steady (try_finally body cleanup).
Proof.
  intros Hb Hc w. unfold try_finally. specialize (Hb w).
  destruct (body w) as [r w1]. specialize (Hc w1).
  destruct (cleanup w1) as [[e|[]] w2]; eapply frame_trans; eassumption.
Qed.

Lemma steady_for_each {A S} (xs : list A) (body : S -> A -> M S) :
  (forall acc x, steady (body acc x)) ->
  forall acc, steady (for_each xs acc body).
Proof.
  intros Hb. induction xs as [|x xs IH]; intros acc; cbn [for_each].
  - apply steady_ret.
  - apply steady_bind; [apply Hb|intros acc'; apply IH].
Qed.

Lemma steady_modify f : (forall w, frame w (f w)) -> steady (modify f).
Proof. intros H w. apply H. Qed.

Lemma steady_get : steady get.
Proof. intros w. apply frame_refl. Qed.

Lemma frame_emit e w : writes [e] = [] -> frame w (emit e w).
Proof.
  intros H. split; cbn; try reflexivity; try lia.
  rewrite writes_app, H. apply app_nil_r.
Qed.

Lemma steady_emit e : writes [e] = [] -> steady (modify (emit e)).
Proof. intros H. apply steady_modify. intros w. now apply frame_emit. Qed.

Lemma steady_logger level text : steady (logger level text).
Proof. apply steady_modify. intros w. now apply frame_emit. Qed.

Section WithEnv.
Context (E : Env).

Lemma steady_await_io : steady (await_io E).
Proof. apply steady_modify. intros w. split; cbn; try reflexivity; lia. Qed.

Lemma steady_fetch url : steady (fetch E url).
Proof.
  unfold fetch. apply steady_bind; [|intros _; apply steady_bind].
  - apply steady_modify. intros w. now apply frame_emit.
  - apply steady_await_io.
  - intros _. destruct (fetch_result E url); [apply steady_throw|apply steady_ret].
Qed.

Lemma steady_response_buffer r : steady (response_buffer E r).
Proof.
  unfold response_buffer. apply steady_bind; [apply steady_await_io|].
  intros _. destruct (body r); [apply steady_ret|apply steady_throw].
Qed.

Lemma steady_sharp_resize fit w h b : steady (sharp_resize E fit w h b).
Proof.
  unfold sharp_resize. apply steady_bind; [|intros _; apply steady_bind].
  - apply steady_modify. intros w0. now apply frame_emit.
  - apply steady_await_io.
  - intros _. destruct (sharp_resize_png E fit w h b);
      [apply steady_ret|apply steady_throw].
Qed.

Lemma steady_sharp_composite bg w h ops : steady (sharp_composite E bg w h ops).
Proof.
  unfold sharp_composite. apply steady_bind; [|intros _; apply steady_bind].
  - apply steady_modify. intros w0. now apply frame_emit.
  - apply steady_await_io.
  - intros _. destruct (sharp_composite_jpeg E bg w h ops);
      [apply steady_ret|apply steady_throw].
Qed.

Lemma steady_random_index : steady (random_index E).
Proof.
  unfold random_index. apply steady_bind; [apply steady_get|intros w0].
  apply steady_bind; [|intros _; apply steady_ret].
  apply steady_modify. intros w. split; cbn; try reflexivity; lia.
Qed.

End WithEnv.

(** *** Outcomes that do not depend on the world *)

Lemma determinate_ret {A} (a : A) : determinate (ret a).
Proof. now exists (inr a). Qed.

Lemma determinate_throw {A} e : determinate (@throw A e).
Proof. now exists (inl e). Qed.

Lemma determinate_bind {A B} (m : M A) (k : A -> M B) :
  determinate m -> (forall a, determinate (k a)) -> determinate (bind m k).
Proof.
  intros [r Hr] Hk. destruct r as [e|a].
  - exists (inl e). intros w. unfold bind. specialize (Hr w).
    destruct (m w) as [[e'|a'] w1]; cbn in *; congruence.
  - destruct (Hk a) as [r' Hr']. exists r'. intros w. unfold bind.
    specialize (Hr w). destruct (m w) as [[e'|a'] w1]; cbn in *;
      [discriminate|]. injection Hr as ->. apply Hr'.
Qed.

Lemma determinate_try_catch {A} (body : M A) (h : exn -> M A) :
  determinate body -> (forall e, determinate (h e)) ->
  determinate (try_catch body h).
Proof.
  intros [r Hr] Hh. destruct r as [e|a].
  - destruct (Hh e) as [r' Hr']. exists r'. intros w. unfold try_catch.
    specialize (Hr w). destruct (body w) as [[e'|a'] w1]; cbn in *;
      [|discriminate]. injection Hr as ->. apply Hr'.
  - exists (inr a). intros w. unfold try_catch. specialize (Hr w).
    destruct (body w) as [[e'|a'] w1]; cbn in *; congruence.
Qed.

Lemma determinate_for_each {A S} (xs : list A) (body : S -> A -> M S) :
  (forall acc x, determinate (body acc x)) ->
  forall acc, determinate (for_each xs acc body).
Proof.
  intros Hb. induction xs as [|x xs IH]; intros acc; cbn [for_each].
  - apply determinate_ret.
  - apply determinate_bind; [apply Hb|intros acc'; apply IH].
Qed.

Lemma determinate_modify f : determinate (modify f).
Proof. now exists (inr tt). Qed.

Lemma determinate_logger level text : determinate (logger level text).
Proof. apply determinate_modify. Qed.

Section WithEnv.
Context (E : Env).

Lemma determinate_await_io : determinate (await_io E).
Proof. apply determinate_modify. Qed.

Lemma determinate_fetch url : determinate (fetch E url).
Proof.
  unfold fetch. repeat (apply determinate_bind; [apply determinate_modify|intros _]).
  destruct (fetch_result E url); [apply determinate_throw|apply determinate_ret].
Qed.

Lemma determinate_response_buffer r : determinate (response_buffer E r).
Proof.
  unfold response_buffer. apply determinate_bind; [apply determinate_modify|].
  intros _. destruct (body r); [apply determinate_ret|apply determinate_throw].
Qed.

Lemma determinate_sharp_resize fit w h b : determinate (sharp_resize E fit w h b).
Proof.
  unfold sharp_resize.
  repeat (apply determinate_bind; [apply determinate_modify|intros _]).
  destruct (sharp_resize_png E fit w h b);
    [apply determinate_ret|apply determinate_throw].
Qed.

Lemma determinate_sharp_composite bg w h ops :
  determinate (sharp_composite E bg w h ops).
Proof.
  unfold sharp_composite.
  repeat (apply determinate_bind; [apply determinate_modify|intros _]).
  destruct (sharp_composite_jpeg E bg w h ops);
    [apply determinate_ret|apply determinate_throw].
Qed.

End WithEnv.

(** A steady computation with a fixed outcome runs the same way from every
    world. *)
Lemma run_bind {A B} (m : M A) (k : A -> M B) r :
  (forall w, fst (m w) = r) ->
  forall w,
    bind m k w = match r with
                 | inr a => k a (snd (m w))
                 | inl e => (inl e, snd (m w))
                 end.
Proof.
  intros Hr w. unfold bind. specialize (Hr w).
  destruct (m w) as [[e|a] w1]; cbn in *; subst r; reflexivity.
Qed.

Create HintDb steady discriminated.
#[export] Hint Resolve steady_ret steady_throw steady_logger steady_await_io
  steady_fetch steady_response_buffer steady_sharp_resize
  steady_sharp_composite steady_random_index steady_get : steady.

#[export] Hint Extern 1 (steady (modify (emit _))) =>
  apply steady_emit; reflexivity : steady.

Create HintDb determinate discriminated.
#[export] Hint Resolve determinate_modify : determinate.
#[export] Hint Resolve determinate_ret determinate_throw determinate_logger
  determinate_await_io determinate_fetch determinate_response_buffer
  determinate_sharp_resize determinate_sharp_composite : determinate.

(** One step through the structure of a computation. *)
Ltac effect_step :=
  lazymatch goal with
  | |- steady (bind _ _) => apply steady_bind; [|intros ?]
  | |- steady (try_catch _ _) => apply steady_try_catch; [|intros ?]
  | |- steady (try_finally _ _) => apply steady_try_finally
  | |- steady (for_each _ _ _) => apply steady_for_each; intros ? ?
  | |- determinate (bind _ _) => apply determinate_bind; [|intros ?]
  | |- determinate (try_catch _ _) => apply determinate_try_catch; [|intros ?]
  | |- determinate (for_each _ _ _) => apply determinate_for_each; intros ? ?
  | |- steady (match ?x with _ => _ end) => destruct x
  | |- determinate (match ?x with _ => _ end) => destruct x
  | |- steady _ => solve [auto with steady]
  | |- determinate _ => solve [auto with determinate]
  end.

Ltac effects := repeat effect_step.

End Effects.

(** ** Persisting an artifact *)

Module SaveFacts.
Import Js Sys Http Effects.

(** What a successful [saveImageAndGetLink] with deletion delay [delay]
    leaves behind: one more file write, and one more timer, due [delay]
    after the moment the function returns. *)
Record saved (delay : Z) (path : string) (content : Buffer) (w w' : World)
  : Prop := mkSaved {
  saved_timer : timers w' = (timers w ++ [mkTimer (now w' + delay) path])%list;
  saved_write :
    writes (trace w') = (writes (trace w) ++ [(path, content)])%list;
  saved_now : now w <= now w';
  saved_uuids : uuids w' = uuids w
}.

Ltac run_save :=
  unfold ImageGenerate.saveImageAndGetLink, ImageGenerate.ensureUploadsDir,
    Football.saveImageAndGetLink, Football.ensureUploadsDir,
    try_catch, bind, fs_access, fs_mkdir, fs_writeFile, setTimeout_unlink,
    await_io, modify, get, ret, throw;
  cbn -[String.append Path.join stat Z.mul Z.add];
  repeat (match goal with
          | |- context [match stat ?f ?p with _ => _ end] =>
              destruct (stat f p) as [[?|]|];
              cbn -[String.append Path.join stat Z.mul Z.add]
          end);
  intros [= <- <-] || intros [=].

Ltac saved_tac :=
  split; cbn -[Z.mul Z.add]; rewrite ?writes_app; cbn -[Z.mul Z.add];
    rewrite ?app_nil_r; try reflexivity; try lia.

Lemma football_save E buf filename request w link w' :
  Football.saveImageAndGetLink E buf filename request w = (inr link, w') ->
  saved 3600000 (Path.join (Football.UPLOADS_DIR E) filename) buf w w'.
Proof. run_save; saved_tac. Qed.


Lemma movie_save E buf filename request w link w' :
  Movie.saveImageAndGetLink E buf filename request w = (inr link, w') ->
  saved 3600000 (Path.join (Movie.UPLOADS_DIR E) filename) buf w w'.
Proof. exact (football_save E buf filename request w link w'). Qed.

Lemma html_save E buf filename request w link w' :
  FootballHtml.saveImageAndGetLink E buf filename request w = (inr link, w') ->
  saved 3600000 (Path.join (FootballHtml.UPLOADS_DIR E) filename) buf w w'.
Proof. exact (football_save E buf filename request w link w'). Qed.

End SaveFacts.

(** ** Rendering *)

Module RenderFacts.
Import Js Sys Http Effects SaveFacts.

Lemma bind_inv {A B} (m : M A) (k : A -> M B) w b w' :
  bind m k w = (inr b, w') ->
  exists a w1, m w = (inr a, w1) /\ k a w1 = (inr b, w').
Proof.
  unfold bind. destruct (m w) as [[e|a] w1]; [discriminate|]. eauto.
Qed.

Lemma try_catch_inv {A} (body : M A) (h : exn -> M A) w a w' :
  try_catch body h w = (inr a, w') ->
  body w = (inr a, w')
  \/ exists e w1, body w = (inl e, w1) /\ h e w1 = (inr a, w').
Proof.
  unfold try_catch. destruct (body w) as [[e|a'] w1]; eauto.
Qed.

(** The outcome of a determinate computation, read off one run. *)
Lemma determinate_run {A} (m : M A) w a w1 :
  determinate m -> m w = (inr a, w1) -> forall w0, fst (m w0) = inr a.
Proof.
  intros [r Hr] Hm w0. rewrite Hr. rewrite <- (Hr w), Hm. reflexivity.
Qed.

Lemma steady_run {A} (m : M A) w r w1 :
  steady m -> m w = (r, w1) -> frame w w1.
Proof. intros H Hm. specialize (H w). now rewrite Hm in H. Qed.

Lemma determinate_try_finally {A} (body : M A) (cleanup : M unit) :
  determinate body -> determinate cleanup ->
  determinate (try_finally body cleanup).
Proof.
  intros [r Hr] [c Hc]. exists (match c with inr _ => r | inl e => inl e end).
  intros w. unfold try_finally. specialize (Hr w).
  destruct (body w) as [r' w1]. specialize (Hc w1).
  destruct (cleanup w1) as [[e|[]] w2]; cbn in *; subst; reflexivity.
Qed.

(** [image] is what rendering at [width] x [height] gives, in whatever
    state the world is. *)
Definition rendered (render : Z -> Z -> M Buffer) (width height : Z)
  (image : Buffer) : Prop :=
  forall w, fst (render width height w) = inr image.


(** The three images are in the reply, as [data:] URLs. *)
Definition inline (r : Reply) (landscape portrait square : Buffer) : Prop :=
  payload_field "images" r
  = Some (JObj [ ("landscape", JStr (Base64.jpeg_data_url landscape));
                 ("portrait", JStr (Base64.jpeg_data_url portrait));
                 ("square", JStr (Base64.jpeg_data_url square)) ]).

(** The three images went to disk between [w] and [w'], under names built
    from [prefix] and the session id, and the reply carries three links. *)
Definition stored (dir prefix : string) (session : string) (r : Reply)
  (w w' : World) (landscape portrait square : Buffer) : Prop :=
  (exists l1 l2 l3,
     payload_field "downloads" r
     = Some (JObj [ ("landscape", JStr l1); ("portrait", JStr l2);
                    ("square", JStr l3) ]))
  /\ writes (trace w')
     = (writes (trace w) ++
        [ (Path.join dir (prefix +:+ session +:+ "_landscape.jpg"), landscape);
          (Path.join dir (prefix +:+ session +:+ "_portrait.jpg"), portrait);
          (Path.join dir (prefix +:+ session +:+ "_square.jpg"), square) ])%list.

Section WithEnv.
Context (E : Env).

Lemma football_fallback_steady url w h t :
  steady (Football.downloadImageWithFallback E url w h t).
Proof.
  unfold Football.downloadImageWithFallback, Football.createPlaceholderImage.
  effects.
Qed.

Lemma football_fallback_determinate url w h t :
  determinate (Football.downloadImageWithFallback E url w h t).
Proof.
  unfold Football.downloadImageWithFallback, Football.createPlaceholderImage.
  effects.
Qed.

Lemma movie_fallback_steady url w h t :
  steady (Movie.downloadImageWithFallback E url w h t).
Proof. exact (football_fallback_steady url w h t). Qed.

Lemma movie_fallback_determinate url w h t :
  determinate (Movie.downloadImageWithFallback E url w h t).
Proof. exact (football_fallback_determinate url w h t). Qed.

Lemma legacy_fallback_steady url w h t :
  steady (ImageGenerate.downloadImageWithFallback E url w h t).
Proof.
  unfold ImageGenerate.downloadImageWithFallback,
    ImageGenerate.createPlaceholderImage.
  effects.
Qed.

#[local] Hint Resolve football_fallback_steady movie_fallback_steady
  legacy_fallback_steady : steady.
#[local] Hint Resolve football_fallback_determinate
  movie_fallback_determinate : determinate.

Lemma football_image_steady data w h :
  steady (Football.createFootballScheduleImage E data w h).
Proof.
  unfold Football.createFootballScheduleImage,
    Football.createCompanyLogoComposite, Football.createTeamLogoComposite,
    Football.createChannelLogoComposite, Football.logo_at.
  effects.
Qed.

Lemma football_image_determinate data w h :
  determinate (Football.createFootballScheduleImage E data w h).
Proof.
  unfold Football.createFootballScheduleImage,
    Football.createCompanyLogoComposite, Football.createTeamLogoComposite,
    Football.createChannelLogoComposite, Football.logo_at.
  effects.
Qed.

Lemma movie_image_steady data w h :
  steady (Movie.createPromotionalImage E data w h).
Proof.
  unfold Movie.createPromotionalImage, Movie.createCardBackground. effects.
Qed.

Lemma movie_image_determinate data w h :
  determinate (Movie.createPromotionalImage E data w h).
Proof.
  unfold Movie.createPromotionalImage, Movie.createCardBackground. effects.
Qed.


Lemma html_image_steady html w h : steady (FootballHtml.htmlToImage E html w h).
Proof.
  unfold FootballHtml.htmlToImage. effects.
Qed.

Lemma html_image_determinate html w h :
  determinate (FootballHtml.htmlToImage E html w h).
Proof.
  unfold FootballHtml.htmlToImage. effects.
  apply determinate_try_finally; effects.
Qed.

End WithEnv.

End RenderFacts.

(** ** What the generation handlers answer *)

Module OutcomeFacts.
Import Js Sys Http Logic Effects SaveFacts RenderFacts.

Lemma randomUUID_run E w id w1 :
  randomUUID E w = (inr id, w1) ->
  id = uuid E (uuids w) /\ timers w1 = timers w /\ now w1 = now w
  /\ writes (trace w1) = writes (trace w).
Proof. unfold randomUUID, bind, get, modify, ret. now intros [= <- <-]. Qed.

Lemma send_run c p w r w1 :
  send c p w = (inr r, w1) ->
  code r = c /\ payload r = p /\ timers w1 = timers w /\ now w1 = now w
  /\ trace w1 = trace w.
Proof. intros H. apply send_returned in H as [-> ->]. now cbn. Qed.

(** Splitting a run of [let* x := m in k]. *)
Ltac split_run H :=
  let a := fresh "v" in let w := fresh "w" in let Hm := fresh "Hm" in
  apply bind_inv in H as (a & w & Hm & H).

(** A reply of the [catch] clause of a handler is not a 200. *)
Ltac failed_handler H Hcode :=
  apply bind_inv in H as (? & ? & _ & H);
  apply send_returned in H as [-> _]; discriminate Hcode.

(** The first step of a handler: it is given a new reply. *)
Ltac enter H :=
  let w0 := fresh "w" in let Hnew := fresh "Hnew" in
  apply bind_inv in H as ([] & w0 & Hnew & H);
  unfold new_reply, modify in Hnew; injection Hnew as <-.

Section WithEnv.
Context (E : Env).

(** What a 200 reply of [POST /generate-football-schedule] delivers. *)
Lemma football_reply request body q w reply w' :
  Football.generate_football_schedule E request body q w = (inr reply, w') ->
  code reply = 200 ->
  exists L P S,
    rendered (Football.createFootballScheduleImage E body) 1920 1080 L
    /\ rendered (Football.createFootballScheduleImage E body) 1080 1920 P
    /\ rendered (Football.createFootballScheduleImage E body) 1080 1080 S
    /\ if base64 q then inline reply L P S
       else stored (Football.UPLOADS_DIR E) "football_" (uuid E (uuids w))
              reply w w' L P S.
Proof.
  intros Hrun Hcode. unfold Football.generate_football_schedule in Hrun.
  enter Hrun.
  apply try_catch_inv in Hrun as [Hrun|(e & w0 & _ & Hh)];
    [|failed_handler Hh Hcode].
  apply bind_inv in Hrun as (L & w1 & HL & Hrun).
  apply bind_inv in Hrun as (P & w2 & HP & Hrun).
  apply bind_inv in Hrun as (S & w3 & HS & Hrun).
  exists L, P, S.
  pose proof (football_image_determinate E body) as Hdet.
  split; [exact (determinate_run _ _ _ _ (Hdet _ _) HL)|].
  split; [exact (determinate_run _ _ _ _ (Hdet _ _) HP)|].
  split; [exact (determinate_run _ _ _ _ (Hdet _ _) HS)|].
  pose proof (steady_run _ _ _ _ (football_image_steady E body _ _) HL) as F1.
  pose proof (steady_run _ _ _ _ (football_image_steady E body _ _) HP) as F2.
  pose proof (steady_run _ _ _ _ (football_image_steady E body _ _) HS) as F3.
  destruct q as [[] f]; cbn [base64 Bool.eqb] in *.
  - apply send_run in Hrun as (_ & Hp & _). unfold inline, payload_field.
    rewrite Hp. reflexivity.
  - apply bind_inv in Hrun as (id & w4 & Hid & Hrun).
    apply bind_inv in Hrun as (l1 & w5 & H1 & Hrun).
    apply bind_inv in Hrun as (l2 & w6 & H2 & Hrun).
    apply bind_inv in Hrun as (l3 & w7 & H3 & Hrun).
    apply randomUUID_run in Hid as (-> & _ & _ & Hw4).
    apply football_save in H1 as [_ Hw5 _ _].
    apply football_save in H2 as [_ Hw6 _ _].
    apply football_save in H3 as [_ Hw7 _ _].
    apply send_run in Hrun as (_ & Hp & _ & _ & Ht).
    split.
    + exists l1, l2, l3. unfold payload_field. rewrite Hp. reflexivity.
    + rewrite Ht, Hw7, Hw6, Hw5, Hw4.
      rewrite (frame_writes _ _ F3), (frame_writes _ _ F2),
        (frame_writes _ _ F1).
      rewrite (frame_uuids _ _ F3), (frame_uuids _ _ F2),
        (frame_uuids _ _ F1).
      now rewrite <- !app_assoc.
Qed.

(** What a 200 reply of [POST /generate-images] delivers. *)
Lemma movie_reply request body q w reply w' :
  Movie.generate_images E request body q w = (inr reply, w') ->
  code reply = 200 ->
  exists L P S,
    rendered (Movie.createPromotionalImage E body) 1920 1080 L
    /\ rendered (Movie.createPromotionalImage E body) 1080 1920 P
    /\ rendered (Movie.createPromotionalImage E body) 1080 1080 S
    /\ if base64 q then inline reply L P S
       else stored (Movie.UPLOADS_DIR E) "movie_" (uuid E (uuids w))
              reply w w' L P S.
Proof.
  intros Hrun Hcode. unfold Movie.generate_images in Hrun.
  enter Hrun.
  apply try_catch_inv in Hrun as [Hrun|(e & w0 & _ & Hh)];
    [|failed_handler Hh Hcode].
  apply bind_inv in Hrun as (L & w1 & HL & Hrun).
  apply bind_inv in Hrun as (P & w2 & HP & Hrun).
  apply bind_inv in Hrun as (S & w3 & HS & Hrun).
  exists L, P, S.
  pose proof (movie_image_determinate E body) as Hdet.
  split; [exact (determinate_run _ _ _ _ (Hdet _ _) HL)|].
  split; [exact (determinate_run _ _ _ _ (Hdet _ _) HP)|].
  split; [exact (determinate_run _ _ _ _ (Hdet _ _) HS)|].
  pose proof (steady_run _ _ _ _ (movie_image_steady E body _ _) HL) as F1.
  pose proof (steady_run _ _ _ _ (movie_image_steady E body _ _) HP) as F2.
  pose proof (steady_run _ _ _ _ (movie_image_steady E body _ _) HS) as F3.
  destruct q as [[] f]; cbn [base64 Bool.eqb] in *.
  - apply send_run in Hrun as (_ & Hp & _). unfold inline, payload_field.
    rewrite Hp. reflexivity.
  - apply bind_inv in Hrun as (id & w4 & Hid & Hrun).
    apply bind_inv in Hrun as (l1 & w5 & H1 & Hrun).
    apply bind_inv in Hrun as (l2 & w6 & H2 & Hrun).
    apply bind_inv in Hrun as (l3 & w7 & H3 & Hrun).
    apply randomUUID_run in Hid as (-> & _ & _ & Hw4).
    apply movie_save in H1 as [_ Hw5 _ _].
    apply movie_save in H2 as [_ Hw6 _ _].
    apply movie_save in H3 as [_ Hw7 _ _].
    apply send_run in Hrun as (_ & Hp & _ & _ & Ht).
    split.
    + exists l1, l2, l3. unfold payload_field. rewrite Hp. reflexivity.
    + rewrite Ht, Hw7, Hw6, Hw5, Hw4.
      rewrite (frame_writes _ _ F3), (frame_writes _ _ F2),
        (frame_writes _ _ F1).
      rewrite (frame_uuids _ _ F3), (frame_uuids _ _ F2),
        (frame_uuids _ _ F1).
      now rewrite <- !app_assoc.
Qed.

(** The single image of the markup path: a screenshot of the page at
    1080 x 1920. *)
Definition page_image (body : Football.ScheduleBody) : Z -> Z -> M Buffer :=
  FootballHtml.htmlToImage E (Markup.render E (FootballHtml.generateHTML E body)).

(** What a 200 reply of [POST /generate-football-html] delivers: one
    image. *)
Lemma html_reply request body q w reply w' :
  FootballHtml.generate_football_html E request body q w = (inr reply, w') ->
  code reply = 200 ->
  exists image,
    rendered (page_image body) 1080 1920 image
    /\ payload_field "images" reply = None
    /\ payload_field "downloads" reply = None
    /\ if base64 q then
         payload_field "image" reply = Some (JStr (Base64.jpeg_data_url image))
       else
         (exists link, payload_field "download" reply = Some (JStr link))
         /\ writes (trace w')
            = (writes (trace w) ++
               [ (Path.join (FootballHtml.UPLOADS_DIR E)
                    ("football_html_" +:+ uuid E (uuids w) +:+ "_portrait.jpg"),
                  image) ])%list.
Proof.
  intros Hrun Hcode. unfold FootballHtml.generate_football_html in Hrun.
  enter Hrun.
  apply try_catch_inv in Hrun as [Hrun|(e & w0 & _ & Hh)];
    [|failed_handler Hh Hcode].
  apply bind_inv in Hrun as (image & w1 & Him & Hrun).
  exists image.
  split; [exact (determinate_run _ _ _ _ (html_image_determinate E _ _ _) Him)|].
  pose proof (steady_run _ _ _ _ (html_image_steady E _ _ _) Him) as F1.
  destruct q as [[] f]; cbn [base64 Bool.eqb] in *.
  - apply send_run in Hrun as (_ & Hp & _). unfold payload_field.
    rewrite Hp. repeat split.
  - apply bind_inv in Hrun as (id & w4 & Hid & Hrun).
    apply bind_inv in Hrun as (l1 & w5 & H1 & Hrun).
    apply randomUUID_run in Hid as (-> & _ & _ & Hw4).
    apply html_save in H1 as [_ Hw5 _ _].
    apply send_run in Hrun as (_ & Hp & _ & _ & Ht).
    unfold payload_field. rewrite Hp. repeat split.
    + now exists l1.
    + rewrite Ht, Hw5, Hw4, (frame_writes _ _ F1), (frame_uuids _ _ F1).
      reflexivity.
Qed.

End WithEnv.

End OutcomeFacts.

(** ** Delivery of the rendered images *)

Module DeliveryFacts.
Import Js Sys Http Logic Effects SaveFacts RenderFacts OutcomeFacts App.
Import ModeFacts.

(** A route that answers 200 has passed validation and run its handler. *)
Lemma route_inv {B} schema handler request (body : B) raw w reply w' :
  route schema handler request body raw w = (inr reply, w') ->
  code reply = 200 ->
  exists q, querySchema raw = Some q
            /\ handler request body q w = (inr reply, w').
Proof.
  unfold route. intros Hrun Hcode.
  destruct (schema body);
    [|now apply error_handler_not_200 in Hrun].
  destruct (querySchema raw) as [q|];
    [|now apply error_handler_not_200 in Hrun].
  exists q. split; [reflexivity|].
  apply try_catch_inv in Hrun as [Hrun|(e & w1 & _ & Hh)]; [exact Hrun|].
  now apply error_handler_not_200 in Hh.
Qed.



(** The contents of the files written between [w] and [w']. *)
Definition written (w w' : World) : list Buffer :=
  map snd (drop (length (writes (trace w))) (writes (trace w'))).

Lemma written_app w w' (l : list (string * Buffer)) :
  writes (trace w') = (writes (trace w) ++ l)%list -> written w w' = map snd l.
Proof. intros H. unfold written. now rewrite H, drop_app_length. Qed.




End DeliveryFacts.

(** ** Output formats *)

Module FormatFacts.
Import Js Sys Http Logic Effects SaveFacts RenderFacts OutcomeFacts App.
Import ModeFacts DeliveryFacts.

Definition format_keys (j : option json) : list string :=
  match j with
  | Some (JObj fields) => map fst fields
  | _ => []
  end.

(** The reply has one entry for each of the three aspect ratios. *)
Definition three_outputs (r : Reply) : bool :=
  bool_decide
    (format_keys (payload_field "images" r) = ["landscape"; "portrait"; "square"]
     \/ format_keys (payload_field "downloads" r)
        = ["landscape"; "portrait"; "square"]).

(** [image] is the outcome of rendering at [width] x [height], and it is
    what the JPEG encoder of the imaging library returned for a canvas of
    that size. *)
Definition produced (E : Env) (render : Z -> Z -> M Buffer) (width height : Z)
  (image : Buffer) : Prop :=
  rendered render width height image
  /\ exists background layers,
       sharp_composite_jpeg E background width height layers = Some image.

Definition three_formats (E : Env) (render : Z -> Z -> M Buffer)
  (dir prefix : string) (r : Reply) (w w' : World) : Prop :=
  three_outputs r = true
  /\ exists L P S,
       produced E render 1920 1080 L
       /\ produced E render 1080 1920 P
       /\ produced E render 1080 1080 S
       /\ (inline r L P S
           \/ stored dir prefix (uuid E (uuids w)) r w w' L P S).

(** The way the handler has the page photographed: a viewport of
    1080 x 1920 CSS pixels at two device pixels each, and a JPEG of the full
    page, not of the viewport only. *)
Definition page_viewport : Viewport := mkViewport 1080 1920 2.
Definition page_shot : ScreenshotOptions := mkScreenshotOptions "jpeg" 95 true.

(** One output: the browser's screenshot of the page, taken in that way,
    or the bytes of the markup itself when no screenshot could be taken. *)
Definition one_format (E : Env) (body : Football.ScheduleBody) (r : Reply)
  (w w' : World) : Prop :=
  three_outputs r = false
  /\ exists image,
       rendered (page_image E body) 1080 1920 image
       /\ (let html := Markup.render E (FootballHtml.generateHTML E body) in
           image = html
           \/ exists session,
                puppeteer E = Some session
                /\ session page_viewport html page_shot = Some image)
       /\ (payload_field "image" r = Some (JStr (Base64.jpeg_data_url image))
           \/ (exists link, payload_field "download" r = Some (JStr link))
              /\ written w w' = [image]).

Lemma yields_try_finally {A} (body : M A) cleanup (S : A -> Prop) :
  yields body S -> yields (try_finally body cleanup) S.
Proof.
  intros H w a w'. unfold try_finally.
  destruct (body w) as [[e|a'] w1] eqn:Eb;
    destruct (cleanup w1) as [[e'|[]] w2]; intros [=]; subst.
  exact (H _ _ _ Eb).
Qed.

Lemma yields_sharp_composite E bg w h ops :
  yields (sharp_composite E bg w h ops)
    (fun image => exists background layers,
       sharp_composite_jpeg E background w h layers = Some image).
Proof.
  intros w0 a w'. unfold sharp_composite, bind, modify, await_io, ret, throw.
  destruct (sharp_composite_jpeg E bg w h ops) eqn:Ec; intros [=]; subst.
  eauto.
Qed.

Lemma rendered_yields render width height image (S : Buffer -> Prop) :
  rendered render width height image -> yields (render width height) S ->
  S image.
Proof.
  intros Hr Hy. specialize (Hr Sample.boot).
  destruct (render width height Sample.boot) as [r w1] eqn:Er.
  cbn in Hr. subst r. exact (Hy _ _ _ Er).
Qed.

Section WithEnv.
Context (E : Env).

Lemma football_image_jpeg body w h :
  yields (Football.createFootballScheduleImage E body w h)
    (fun image => exists background layers,
       sharp_composite_jpeg E background w h layers = Some image).
Proof.
  unfold Football.createFootballScheduleImage.
  repeat yields_step. apply yields_sharp_composite.
Qed.

Lemma movie_image_jpeg body w h :
  yields (Movie.createPromotionalImage E body w h)
    (fun image => exists background layers,
       sharp_composite_jpeg E background w h layers = Some image).
Proof.
  unfold Movie.createPromotionalImage.
  repeat yields_step. apply yields_sharp_composite.
Qed.

Lemma page_image_source body :
  yields (page_image E body 1080 1920)
    (fun image =>
       let html := Markup.render E (FootballHtml.generateHTML E body) in
       image = html
       \/ exists session,
            puppeteer E = Some session
            /\ session page_viewport html page_shot = Some image).
Proof.
  unfold page_image, FootballHtml.htmlToImage.
  set (html := Markup.render E (FootballHtml.generateHTML E body)).
  apply yields_try_catch.
  - destruct (puppeteer E) as [session|] eqn:Ep.
    + repeat yields_step. apply yields_try_finally. repeat yields_step.
      fold page_viewport page_shot.
      destruct (session page_viewport html page_shot) as [image|] eqn:Es.
      * apply yields_ret. right. eauto.
      * apply yields_throw.
    + yields_step. apply yields_ret. now left.
  - intros e. yields_step. apply yields_ret. now left.
Qed.

End WithEnv.

Lemma inline_three r L P S : inline r L P S -> three_outputs r = true.
Proof.
  unfold inline, three_outputs. intros ->. apply bool_decide_eq_true. now left.
Qed.

Lemma stored_three dir prefix id r w w' L P S :
  stored dir prefix id r w w' L P S -> three_outputs r = true.
Proof.
  unfold stored, three_outputs. intros [(l1 & l2 & l3 & ->) _].
  apply bool_decide_eq_true. now right.
Qed.

(** C6 (amended). [POST /generate-images] and
    [POST /generate-football-schedule] answer a request body with JPEG
    output in the three aspect ratios, landscape 1920 x 1080, portrait
    1080 x 1920 and square 1080 x 1080, each rendered from that same body;
    [POST /generate-football-html] answers with a single output: the
    full-page JPEG screenshot of the generated page that the browser takes
    with a viewport of 1080 x 1920 at device scale factor 2, or the bytes of
    the markup when no screenshot could be taken. *)
Theorem formats_per_endpoint E request g raw w reply w' :
  serve E request g raw w = (inr reply, w') -> code reply = 200 ->
  match g with
  | GenerateImages body =>
      three_formats E (Movie.createPromotionalImage E body)
        (Movie.UPLOADS_DIR E) "movie_" reply w w'
  | GenerateFootballSchedule body =>
      three_formats E (Football.createFootballScheduleImage E body)
        (Football.UPLOADS_DIR E) "football_" reply w w'
  | GenerateFootballHtml body => one_format E body reply w w'
  end.
Proof.
  intros Hrun Hcode.
  destruct g as [body|body|body]; cbn [serve] in Hrun;
    unfold post_generate_images, post_generate_football_schedule,
      post_generate_football_html in Hrun;
    apply route_inv in Hrun as (q & Eq & Hrun); try exact Hcode.
  - apply movie_reply in Hrun as (L & P & S & HL & HP & HS & Hd);
      [|exact Hcode].
    assert (Hout : inline reply L P S
              \/ stored (Movie.UPLOADS_DIR E) "movie_" (uuid E (uuids w))
                   reply w w' L P S)
      by (destruct (base64 q); auto).
    split.
    + destruct Hout; eauto using inline_three, stored_three.
    + pose proof (fun W H img Hr =>
        rendered_yields _ W H img _ Hr (movie_image_jpeg E body W H)) as Hj.
      exists L, P, S. unfold produced. auto 10.
  - apply football_reply in Hrun as (L & P & S & HL & HP & HS & Hd);
      [|exact Hcode].
    assert (Hout : inline reply L P S
              \/ stored (Football.UPLOADS_DIR E) "football_"
                   (uuid E (uuids w)) reply w w' L P S)
      by (destruct (base64 q); auto).
    split.
    + destruct Hout; eauto using inline_three, stored_three.
    + pose proof (fun W H img Hr =>
        rendered_yields _ W H img _ Hr (football_image_jpeg E body W H)) as Hj.
      exists L, P, S. unfold produced. auto 10.
  - apply html_reply in Hrun as (image & Him & Hn1 & Hn2 & Hd); [|exact Hcode].
    split.
    + unfold three_outputs. rewrite Hn1, Hn2. apply bool_decide_eq_false.
      intros [[=]|[=]].
    + exists image. split; [exact Him|]. split.
      * exact (rendered_yields _ _ _ _ _ Him (page_image_source E body)).
      * destruct (base64 q); [now left|right].
        destruct Hd as [Hl Hw]. split; [exact Hl|].
        now rewrite (written_app _ _ _ Hw).
Qed.

Lemma formats_per_endpoint_witness :
  exists reply w',
    serve Sample.offline Sample.request
      (GenerateFootballSchedule Sample.one_game) Sample.base64_flag Sample.boot
    = (inr reply, w')
    /\ code reply = 200
    /\ three_formats Sample.offline
         (Football.createFootballScheduleImage Sample.offline Sample.one_game)
         (Football.UPLOADS_DIR Sample.offline) "football_" reply Sample.boot w'.
Proof.
  eexists _, _. split; [vm_compute; reflexivity|]. split; [reflexivity|].
  eapply (formats_per_endpoint Sample.offline Sample.request
            (GenerateFootballSchedule Sample.one_game) Sample.base64_flag
            Sample.boot);
    [vm_compute; reflexivity|reflexivity].
Defined.

(** The claim as the specification words it, for every generation
    endpoint, fails on the markup path: its reply has a single image. *)
Lemma html_endpoint_single_output :
  ~ (forall E request g raw w reply w',
       serve E request g raw w = (inr reply, w') -> code reply = 200 ->
       three_outputs reply = true).
Proof.
  intros H.
  eassert (Hrun : serve Sample.online Sample.request
                    (GenerateFootballHtml Sample.one_game) Sample.no_flags
                    Sample.boot = (inr _, _))
    by (vm_compute; reflexivity).
  apply H in Hrun; [|reflexivity].
  vm_compute in Hrun. discriminate.
Qed.

End FormatFacts.

(** ** Retention *)

Module RetentionFacts.
Import Js Sys Http Logic Effects SaveFacts RenderFacts OutcomeFacts App.
Import ModeFacts DeliveryFacts.















End RetentionFacts.

(** ** Escaping of request text in the generated markup *)

Module MarkupFacts.
Import Js Xml Sys Http Markup XmlFacts.

(** Every piece of request text in the template went through
    [escapeXml]. *)
Definition escaped (fs : list frag) : Prop :=
  Forall (fun s => well_escaped s = true) (user_texts fs).

Lemma user_texts_app (a b : list frag) :
  user_texts (a ++ b) = (user_texts a ++ user_texts b)%list.
Proof.
  induction a as [|f a IH]; [reflexivity|].
  destruct f; cbn [user_texts app]; now rewrite IH.
Qed.

Lemma escaped_nil : escaped [].
Proof. constructor. Qed.

Lemma escaped_app (a b : list frag) : escaped a -> escaped b -> escaped (a ++ b).
Proof. unfold escaped. rewrite user_texts_app. apply Forall_app_2. Qed.

Lemma escaped_cons_text s fs : escaped fs -> escaped (UserText (escapeXml s) :: fs).
Proof. intros H. constructor; [apply escapeXml_well_escaped|exact H]. Qed.

Lemma escaped_cons_lit s fs : escaped fs -> escaped (Lit s :: fs).
Proof. intros H. exact H. Qed.

Lemma escaped_cons_int z fs : escaped fs -> escaped (Int z :: fs).
Proof. intros H. exact H. Qed.

Lemma escaped_cons_num q fs : escaped fs -> escaped (Num q :: fs).
Proof. intros H. exact H. Qed.

Lemma escaped_concat (ls : list (list frag)) :
  Forall escaped ls -> escaped (concat ls).
Proof.
  induction 1 as [|l ls Hl _ IH]; [apply escaped_nil|].
  cbn [concat]. now apply escaped_app.
Qed.

Lemma escaped_imap {A} (f : nat -> A -> list frag) (l : list A) :
  (forall i x, escaped (f i x)) -> escaped (concat (imap f l)).
Proof.
  intros H. apply escaped_concat. revert f H.
  induction l as [|x l IH]; intros f H; cbn [imap]; constructor.
  - apply H.
  - apply IH. intros i y. apply H.
Qed.

Lemma escaped_fold {A} (step : list frag * Q -> A -> list frag * Q)
  (lines : list A) :
  (forall acc x, escaped (fst acc) -> escaped (fst (step acc x))) ->
  forall acc, escaped (fst acc) -> escaped (fst (fold_left step lines acc)).
Proof.
  intros Hstep. induction lines as [|x lines IH]; intros acc Hacc; [exact Hacc|].
  cbn [fold_left]. apply IH. now apply Hstep.
Qed.

Ltac escaped_step :=
  lazymatch goal with
  | |- escaped [] => apply escaped_nil
  | |- escaped (UserText (escapeXml _) :: _) => apply escaped_cons_text
  | |- escaped (Lit _ :: _) => apply escaped_cons_lit
  | |- escaped (Int _ :: _) => apply escaped_cons_int
  | |- escaped (Num _ :: _) => apply escaped_cons_num
  | |- escaped (_ ++ _) => apply escaped_app
  | |- escaped (concat (imap _ _)) => apply escaped_imap; intros ? ?
  | |- escaped (match ?x with _ => _ end) => destruct x
  | |- escaped (if ?b then _ else _) => destruct b
  end.

Ltac escaped_tac := repeat escaped_step.

Section WithEnv.
Context (E : Env).

Lemma football_overlay_escaped width height data jogos whatsapp :
  escaped (Football.createFootballScheduleOverlay E width height data jogos
             whatsapp).
Proof.
  unfold Football.createFootballScheduleOverlay, Football.createHeader,
    Football.createGameSection, Football.createGameCard,
    Football.createTimeDisplay, Football.createTeamDisplay,
    Football.createVsSymbol, Football.createChannelDisplay,
    Football.createContactSection, Football.createWatermark,
    Football.WATERMARK_ENABLED.
  cbv zeta. escaped_tac.
Qed.

Lemma movie_overlay_escaped totalWidth totalHeight contentX contentY
  contentWidth titulo descricao contato whatsapp titleSize descSize metaSize :
  escaped (Movie.createAdvancedTextOverlay totalWidth totalHeight contentX
             contentY contentWidth titulo descricao contato whatsapp
             titleSize descSize metaSize).
Proof.
  unfold Movie.createAdvancedTextOverlay, Movie.WATERMARK_ENABLED. cbv zeta.
  match goal with
  | |- context [fold_left ?step ?lines (?init, ?y)] =>
      pose proof (escaped_fold step lines) as Htitle;
      specialize (Htitle ltac:(intros [svg y0] x H; cbn [fst];
                               now escaped_tac) (init, y)
                         ltac:(cbn [fst]; escaped_tac));
      destruct (fold_left step lines (init, y)) as [svg1 y1]
  end.
  cbn [fst] in Htitle.
  match goal with
  | |- context [fold_left ?step ?lines (svg1, ?y)] =>
      pose proof (escaped_fold step lines) as Hdesc;
      specialize (Hdesc ltac:(intros [svg y0] x H; cbn [fst];
                              now escaped_tac) (svg1, y)
                        ltac:(exact Htitle));
      destruct (fold_left step lines (svg1, y)) as [svg2 y2]
  end.
  cbn [fst] in Hdesc.
  escaped_tac; assumption.
Qed.

Lemma legacy_overlay_escaped totalWidth totalHeight contentX contentY
  contentWidth titulo descricao contato whatsapp titleSize descSize metaSize :
  escaped (ImageGenerate.createAdvancedTextOverlay totalWidth totalHeight
             contentX contentY contentWidth titulo descricao contato whatsapp
             titleSize descSize metaSize).
Proof.
  unfold ImageGenerate.createAdvancedTextOverlay. cbv zeta.
  destruct contato as [[|a contato]|]; destruct whatsapp as [[|b whatsapp]|];
    escaped_tac.
Qed.

(** The markup path splices the text fields of the request as they are. *)
Lemma html_user_texts body :
  In (Football.data body) (user_texts (FootballHtml.generateHTML E body)).
Proof.
  unfold FootballHtml.generateHTML. cbv zeta.
  rewrite !user_texts_app. apply in_or_app. left. cbn [user_texts]. now left.
Qed.

End WithEnv.

(** C4. On the markup path the claim fails: for a request whose date
    field is a [script] element, which the body schema of
    [POST /generate-football-html] accepts, [generateHTML] puts that text
    into the page as it is, where the SVG path would have escaped it; the
    page with the element in it is what the browser is given to load, and
    the request is answered with status 200. *)
Theorem html_path_splices_raw_text :
  let body :=
    Football.mkScheduleBody "https://cdn.example/logo.png"
      "<script>alert(1)</script>" [Sample.game "Flamengo" "Chelsea"]
      None None None in
  In "<script>alert(1)</script>"
     (user_texts (FootballHtml.generateHTML Sample.offline body))
  /\ well_escaped "<script>alert(1)</script>" = false
  /\ includes "<title>Jogos do Dia - <script>alert(1)</script></title>"
       (render Sample.offline (FootballHtml.generateHTML Sample.offline body))
     = true
  /\ escaped (Football.createFootballScheduleOverlay Sample.offline 1080 1920
                (Football.data body) (Football.jogos body)
                (Football.whatsapp body))
  /\ FootballHtml.footballScheduleSchema Sample.online body = true
  /\ exists reply w' page,
       App.serve Sample.online Sample.request (App.GenerateFootballHtml body)
         Sample.no_flags Sample.boot = (inr reply, w')
       /\ Http.code reply = 200
       /\ In (Sys.EvPage page) (Sys.trace w')
       /\ includes "<title>Jogos do Dia - <script>alert(1)</script></title>"
            page = true.
Proof.
  cbv zeta. split; [apply html_user_texts|].
  split; [reflexivity|].
  split; [vm_compute; reflexivity|].
  split; [apply football_overlay_escaped|].
  split; [reflexivity|].
  eexists _, _, _. split; [vm_compute; reflexivity|].
  split; [reflexivity|].
  split; [right; left; reflexivity|].
  vm_compute. reflexivity.
Qed.

End MarkupFacts.

(** ** Paths *)

Module PathFacts.
Import Js Path StringFacts.

(** A path segment that [normalize] keeps as it is. *)
Definition plain (seg : string) : Prop :=
  seg <> "" /\ seg <> "." /\ seg <> ".." /\ occurs "/" seg = false.

Lemma split_on_nonempty c s : split_on c s <> [].
Proof.
  destruct s as [|a s]; cbn [split_on]; [discriminate|].
  destruct (Ascii.eqb a c); [discriminate|].
  destruct (split_on c s); discriminate.
Qed.

Lemma split_no_slash s : occurs "/" s = false -> split s = [s].
Proof.
  unfold split. induction s as [|a s IH]; [reflexivity|].
  cbn [occurs split_on]. intros H. apply orb_false_elim in H as [Ha Hs].
  rewrite Ha, (IH Hs). reflexivity.
Qed.

Lemma split_app_slash (a b : string) :
  split (a +:+ "/" +:+ b) = (split a ++ split b)%list.
Proof.
  unfold split. induction a as [|c a IH]; [reflexivity|].
  change (String c a +:+ "/" +:+ b) with (String c (a +:+ "/" +:+ b)).
  cbn [split_on]. rewrite IH.
  destruct (Ascii.eqb c "/"); [reflexivity|].
  pose proof (split_on_nonempty "/" a) as Hne.
  destruct (split_on "/" a) as [|x xs]; [contradiction|reflexivity].
Qed.

Lemma step_plain allow stack seg : plain seg -> step allow stack seg = seg :: stack.
Proof.
  intros (H0 & H1 & H2 & _). unfold step.
  apply String.eqb_neq in H0, H1, H2. now rewrite H0, H1, H2.
Qed.

Lemma step_empty allow stack : step allow stack "" = stack.
Proof. reflexivity. Qed.

Lemma fold_plain allow segs stack :
  Forall plain segs ->
  fold_left (step allow) segs stack = (rev segs ++ stack)%list.
Proof.
  intros H. revert stack. induction H as [|seg segs Hseg _ IH]; intros stack;
    [reflexivity|].
  cbn [fold_left rev]. rewrite (step_plain _ _ _ Hseg), IH.
  now rewrite <- app_assoc.
Qed.

(** [unsplit] of a list that ends with [x]: the segments before it, each
    followed by a separator, then [x]. *)
Fixpoint leading (segs : list string) : string :=
  match segs with
  | [] => ""
  | s :: rest => s +:+ "/" +:+ leading rest
  end.

Lemma unsplit_snoc segs x : unsplit (segs ++ [x]) = leading segs +:+ x.
Proof.
  induction segs as [|s segs IH]; [reflexivity|].
  cbn [app leading]. rewrite !append_assoc, <- IH.
  destruct (segs ++ [x])%list eqn:E; [now destruct segs|reflexivity].
Qed.

Lemma split_leading segs rest :
  Forall plain segs ->
  split (leading segs +:+ rest) = (segs ++ split rest)%list.
Proof.
  induction 1 as [|s segs (_ & _ & _ & Hs) _ IH]; [reflexivity|].
  cbn [leading]. rewrite !append_assoc, split_app_slash, IH.
  now rewrite (split_no_slash _ Hs).
Qed.

Lemma ends_with_slash_app a b :
  b <> "" -> ends_with_slash (a +:+ b) = ends_with_slash b.
Proof.
  intros Hb. induction a as [|c a IH]; [reflexivity|].
  cbn [String.append ends_with_slash]. rewrite IH.
  destruct (a +:+ b) eqn:E; [|reflexivity].
  destruct a; [cbn in E; contradiction|discriminate].
Qed.

Lemma no_slash_not_trailing s : occurs "/" s = false -> ends_with_slash s = false.
Proof.
  induction s as [|c s IH]; [reflexivity|].
  cbn [occurs ends_with_slash]. intros H.
  apply orb_false_elim in H as [Hc Hs].
  destruct s; [exact Hc|now apply IH].
Qed.

Lemma append_nonempty_r (a b : string) : b <> "" -> a +:+ b <> "".
Proof. intros Hb. destruct a; [exact Hb|discriminate]. Qed.

Lemma unsplit_leading segs (b : string) :
  segs <> [] -> unsplit segs +:+ "/" +:+ b = leading segs +:+ b.
Proof.
  induction segs as [|s segs IH]; [contradiction|]. intros _.
  destruct segs as [|s' segs].
  - cbn [unsplit leading]. now rewrite !append_assoc.
  - change (unsplit (s :: s' :: segs)) with (s +:+ "/" +:+ unsplit (s' :: segs)).
    change (leading (s :: s' :: segs))
      with (s +:+ "/" +:+ leading (s' :: segs)).
    rewrite !append_assoc, IH by discriminate. reflexivity.
Qed.

(** Normalising an absolute path: plain segments, then the segments of
    [b]. *)
Lemma normalize_segments segs b :
  Forall plain segs -> b <> "" ->
  let body := unsplit (rev (fold_left (step false) (split b) (rev segs))) in
  body <> "" ->
  normalize ("/" +:+ leading segs +:+ b)
  = "/" +:+ (if ends_with_slash b then body +:+ "/" else body).
Proof.
  intros Hsegs Hne body Hbody. unfold normalize.
  cbn [String.append String.eqb].
  change (Js.starts_with "/" (String "/" (leading segs +:+ b))) with true.
  cbn [negb].
  replace (ends_with_slash (String "/" (leading segs +:+ b)))
    with (ends_with_slash b).
  2: { symmetry. change (String "/" (leading segs +:+ b))
         with ("/" +:+ leading segs +:+ b).
       rewrite <- append_assoc, ends_with_slash_app; trivial. }
  unfold normalizeString.
  change (split (String "/" (leading segs +:+ b)))
    with ("" :: split (leading segs +:+ b)).
  cbn [fold_left]. rewrite step_empty.
  rewrite (split_leading _ _ Hsegs), fold_left_app, (fold_plain _ _ _ Hsegs).
  rewrite app_nil_r. fold body.
  apply String.eqb_neq in Hbody. rewrite Hbody. reflexivity.
Qed.

(** The same when the segments of [b] leave [last] on top of [kept]. *)
Lemma normalize_absolute segs b kept last :
  Forall plain segs -> plain last ->
  ends_with_slash b = false -> b <> "" ->
  fold_left (step false) (split b) (rev segs) = last :: rev kept ->
  normalize ("/" +:+ leading segs +:+ b) = "/" +:+ unsplit (kept ++ [last]).
Proof.
  intros Hsegs Hlast Hb Hne Hfold.
  rewrite (normalize_segments segs b Hsegs Hne).
  - rewrite Hfold, Hb. cbn [rev]. now rewrite rev_involutive.
  - rewrite Hfold. cbn [rev]. rewrite rev_involutive, unsplit_snoc.
    apply append_nonempty_r, Hlast.
Qed.

(** An absolute path of plain segments, as [process.cwd()] returns it. *)
Definition absolute (p : string) (segs : list string) : Prop :=
  Forall plain segs /\ p = "/" +:+ unsplit segs.

Lemma join_absolute p segs b kept last :
  absolute p segs -> plain last ->
  ends_with_slash b = false -> b <> "" ->
  fold_left (step false) (split b) (rev segs) = last :: rev kept ->
  join p b = "/" +:+ unsplit (kept ++ [last]).
Proof.
  intros [Hsegs ->] Hlast Hb Hne Hfold.
  assert (Hjoin : join ("/" +:+ unsplit segs) b
                  = normalize ("/" +:+ unsplit segs +:+ "/" +:+ b)).
  { destruct b; [contradiction|reflexivity]. }
  rewrite Hjoin. destruct segs as [|s segs].
  - apply (normalize_absolute [] ("/" +:+ b) kept last);
      assumption || (destruct b; [contradiction|discriminate]) || idtac.
    destruct b; [contradiction|exact Hb].
  - rewrite unsplit_leading by discriminate.
    apply normalize_absolute; assumption.
Qed.

Lemma plain_temp_images : plain "temp-images".
Proof. repeat split; discriminate. Qed.

(** [UPLOADS_DIR] under a working directory of plain segments. *)
Lemma uploads_dir p segs :
  absolute p segs -> absolute (join p "temp-images") (segs ++ ["temp-images"]).
Proof.
  intros Habs. split.
  - apply Forall_app_2; [apply Habs|].
    constructor; [apply plain_temp_images|constructor].
  - apply (join_absolute p segs "temp-images" segs "temp-images").
    + exact Habs.
    + apply plain_temp_images.
    + reflexivity.
    + discriminate.
    + change (split "temp-images") with ["temp-images"]. cbn [fold_left].
      now rewrite (step_plain _ _ _ plain_temp_images).
Qed.


Lemma unsplit_app (a b : list string) :
  a <> [] -> b <> [] -> unsplit (a ++ b) = unsplit a +:+ "/" +:+ unsplit b.
Proof.
  intros Ha Hb. induction a as [|x a IH]; [contradiction|].
  destruct a as [|y a].
  - destruct b; [contradiction|reflexivity].
  - change (unsplit ((x :: y :: a) ++ b))
      with (x +:+ "/" +:+ unsplit ((y :: a) ++ b)).
    rewrite IH by discriminate.
    change (unsplit (x :: y :: a)) with (x +:+ "/" +:+ unsplit (y :: a)).
    now rewrite !append_assoc.
Qed.

(** *** Names that climb *)

(** What a name does when its segments are followed from a directory: the
    number counts the steps taken above that directory, the list holds the
    names descended by afterwards, the last one first.  Empty segments and
    [.] stay where they are; [..] undoes the last name, or else climbs. *)
Definition climb (acc : nat * list string) (seg : string) : nat * list string :=
  if String.eqb seg "" || String.eqb seg "." then acc
  else if String.eqb seg ".." then
    match snd acc with
    | _ :: below => (fst acc, below)
    | [] => (S (fst acc), [])
    end
  else (fst acc, seg :: snd acc).

Definition ascent (f : string) : nat * list string :=
  fold_left climb (split f) (0%nat, []).










(** *** Paths and their segments *)








(** *** The path of a download *)






End PathFacts.

(** ** The path served by the download handlers *)

Module TraversalFacts.
Import Js Path Sys Http App StringFacts PathFacts DownloadFacts.




(** Names that leave the uploads directory by other ways than one leading
    [..]: several steps up, a step up into a sibling directory, a step up
    after a name has been undone. *)
Example climbing_names :
  let uploads := Football.UPLOADS_DIR Sample.offline in
  (ascent "../../etc/passwd" = (2%nat, ["passwd"; "etc"])
   /\ join uploads "../../etc/passwd" = "/srv/etc/passwd"
   /\ inside uploads (join uploads "../../etc/passwd") = false)
  /\ (ascent "../src/index.ts" = (1%nat, ["index.ts"; "src"])
      /\ join uploads "../src/index.ts" = "/srv/app/src/index.ts"
      /\ inside uploads (join uploads "../src/index.ts") = false)
  /\ (ascent "a/../../x" = (1%nat, ["x"])
      /\ join uploads "a/../../x" = "/srv/app/x"
      /\ inside uploads (join uploads "a/../../x") = false)
  /\ (ascent "../temp-images/x.jpg" = (1%nat, ["x.jpg"; "temp-images"])
      /\ join uploads "../temp-images/x.jpg" = "/srv/app/temp-images/x.jpg"
      /\ inside uploads (join uploads "../temp-images/x.jpg") = true).
Proof. repeat split; reflexivity. Qed.


Example parent_segment_stays_inside :
  In ".." (split "x/../b.jpg")
  /\ join (Football.UPLOADS_DIR Sample.offline) "x/../b.jpg"
     = "/srv/app/temp-images/b.jpg".
Proof. split; [right; left; reflexivity|reflexivity]. Qed.

End TraversalFacts.

(** * Further properties of the code *)

(** ** Algebra of [escapeXml] *)

Module EscapeLaws.
Import Js Xml StringFacts XmlFacts.

(** Some character of [s] satisfies [p]. *)
Fixpoint any (p : ascii -> bool) (s : string) : bool :=
  match s with
  | EmptyString => false
  | String a rest => p a || any p rest
  end.

Lemma any_app p (x y : string) : any p (x +:+ y) = any p x || any p y.
Proof.
  induction x as [|a x IH]; [reflexivity|].
  cbn [String.append any]. now rewrite IH, orb_assoc.
Qed.

Lemma length_app (x y : string) :
  String.length (x +:+ y) = (String.length x + String.length y)%nat.
Proof. induction x as [|a x IH]; cbn; [reflexivity|now rewrite IH]. Qed.

Lemma entity_length a :
  (if special a then 4 <= String.length (entity a) <= 6
   else String.length (entity a) = 1)%nat.
Proof.
  destruct (special a) eqn:S.
  - destruct (special_cases a S) as [ -> | [ -> | [ -> | [ -> | -> ] ] ] ];
      cbn; lia.
  - now rewrite (entity_plain a S).
Qed.

Lemma entity_amp a : special a = true -> any special (entity a) = true.
Proof.
  intros S.
  destruct (special_cases a S) as [ -> | [ -> | [ -> | [ -> | -> ] ] ] ];
    reflexivity.
Qed.

(** Escaping never shortens a text, and lengthens it exactly when a
    special character is present. *)
Lemma escapeXml_length s :
  (String.length s <= String.length (escapeXml s) <= 6 * String.length s)%nat
  /\ (any special s = true ->
      (String.length s < String.length (escapeXml s))%nat).
Proof.
  induction s as [|a s [IH1 IH2]]; [split; [cbn; lia|discriminate]|].
  rewrite escapeXml_cons, length_app. cbn [String.length any].
  pose proof (entity_length a) as Ha.
  destruct (special a); cbn [orb]; split; try lia.
  intros H. apply IH2 in H. lia.
Qed.

Lemma escapeXml_clean s : any special s = false -> escapeXml s = s.
Proof.
  induction s as [|a s IH]; [reflexivity|].
  cbn [any]. intros H. apply orb_false_elim in H as [Ha Hs].
  now rewrite escapeXml_cons, (entity_plain a Ha), (IH Hs).
Qed.

Lemma escapeXml_keeps_special s :
  any special s = true -> any special (escapeXml s) = true.
Proof.
  induction s as [|a s IH]; [discriminate|].
  cbn [any]. rewrite escapeXml_cons, any_app. intros H.
  destruct (special a) eqn:S; [now rewrite entity_amp|].
  cbn [orb] in H. rewrite (IH H). apply orb_true_r.
Qed.

(** X1. [escapeXml] distributes over concatenation: escaping the pieces of
    a text one by one and joining them is the same as escaping the joined
    text, so the five replacement passes never create or destroy an entity
    across a boundary. *)
Theorem escapeXml_app (a b : string) :
  escapeXml (a +:+ b) = escapeXml a +:+ escapeXml b.
Proof.
  induction a as [|c a IH]; [reflexivity|].
  cbn [String.append]. now rewrite !escapeXml_cons, IH, append_assoc.
Qed.

(** X2. [escapeXml] leaves a text unchanged exactly when the text has none
    of the five special characters, and it is idempotent on exactly those
    texts: escaping twice what contains a special character changes it again
    (the [&] of an entity is escaped once more). *)
Theorem escapeXml_fixed_point (s : string) :
  (escapeXml s = s <-> any special s = false)
  /\ (escapeXml (escapeXml s) = escapeXml s <-> any special s = false).
Proof.
  assert (Hfix : forall t, escapeXml t = t <-> any special t = false).
  { intros t. split; [|apply escapeXml_clean].
    intros H. destruct (any special t) eqn:E; [|reflexivity].
    apply (proj2 (escapeXml_length t)) in E. rewrite H in E. lia. }
  split; [apply Hfix|]. split.
  - intros H. apply Hfix in H.
    destruct (any special s) eqn:E; [|reflexivity].
    apply escapeXml_keeps_special in E. congruence.
  - intros H. now rewrite (escapeXml_clean s H), (escapeXml_clean s H).
Qed.

End EscapeLaws.

(** ** Word wrapping *)

Module WrapFacts.
Import Js StringFacts XmlFacts EscapeLaws.

Lemma utf16_length_app (x y : string) :
  utf16_length (x +:+ y) = (utf16_length x + utf16_length y)%nat.
Proof.
  induction x as [|a x IH]; [reflexivity|].
  cbn [String.append utf16_length]. rewrite IH. lia.
Qed.

(** The body of the loop of [wrapText] in movieGenerate.ts. *)
Definition movie_step (max : Z) : list string * string -> string ->
  list string * string :=
  fun '(lines, currentLine) word =>
    if Z.of_nat (utf16_length (currentLine +:+ word)) <=? max
    then
      (lines,
       currentLine +:+ (if truthy (Some currentLine) then " " else EmptyString) +:+ word)
    else if truthy (Some currentLine)
      then ((lines ++ [currentLine])%list, word)
      else ((lines ++ [word])%list, currentLine).

(** The body of the loop of [wrapText] in imageGenerate.ts. *)
Definition legacy_step (max : Z) : list string * string -> string ->
  list string * string :=
  fun '(lines, currentLine) word =>
    if Z.of_nat (utf16_length (currentLine +:+ word)) <=? max
    then
      (lines,
       currentLine +:+ (if truthy (Some currentLine) then " " else EmptyString) +:+ word)
    else
      ((if truthy (Some currentLine)
        then (lines ++ [currentLine])%list else lines),
       word).

(** [if (currentLine) lines.push(currentLine)] *)
Definition flush (state : list string * string) : list string :=
  let '(lines, currentLine) := state in
  if truthy (Some currentLine) then (lines ++ [currentLine])%list else lines.

Lemma movie_wrapText_fold text max :
  Movie.wrapText text max
  = flush (fold_left (movie_step max) (split_on " " text) ([], EmptyString)).
Proof. reflexivity. Qed.

Lemma legacy_wrapText_fold text max :
  ImageGenerate.wrapText text max
  = firstn 4
      (flush (fold_left (legacy_step max) (split_on " " text)
                ([], EmptyString))).
Proof.
  unfold ImageGenerate.wrapText, flush.
  change (fun '(lines, currentLine) word => _) with (legacy_step max).
  now destruct (fold_left (legacy_step max) (split_on " " text) ([], EmptyString)).
Qed.

Lemma truthy_nonempty (s : string) : truthy (Some s) = true <-> s <> EmptyString.
Proof. destruct s; cbn; split; congruence. Qed.

Lemma truthy_empty (s : string) : truthy (Some s) = false <-> s = EmptyString.
Proof. destruct s; cbn; split; congruence. Qed.

(** *** No text is lost *)

(** [s.replace(/ /g, '')]: the text without its spaces. *)
Definition squeeze (s : string) : string := replace_all " " EmptyString s.

Lemma squeeze_app (a b : string) : squeeze (a +:+ b) = squeeze a +:+ squeeze b.
Proof. apply replace_all_app. Qed.

Lemma concat_snoc (lines : list string) (line : string) :
  String.concat EmptyString (lines ++ [line]) = String.concat EmptyString lines +:+ line.
Proof.
  induction lines as [|l lines IH]; [reflexivity|].
  cbn [app]. destruct lines as [|l' lines].
  - reflexivity.
  - change (String.concat EmptyString (l :: (l' :: lines) ++ [line]))
      with (l +:+ EmptyString +:+ String.concat EmptyString ((l' :: lines) ++ [line])).
    rewrite IH.
    change (String.concat EmptyString (l :: l' :: lines))
      with (l +:+ EmptyString +:+ String.concat EmptyString (l' :: lines)).
    cbn [String.append]. now rewrite append_assoc.
Qed.

(** The letters held by a state of the loop. *)
Definition held (state : list string * string) : string :=
  squeeze (String.concat EmptyString (fst state) +:+ snd state).

Lemma movie_step_held max state word :
  held (movie_step max state word) = held state +:+ squeeze word.
Proof.
  destruct state as [lines cur]. unfold movie_step, held. cbn [fst snd].
  destruct (Z.of_nat (utf16_length (cur +:+ word)) <=? max).
  - cbn [fst snd]. rewrite !squeeze_app. rewrite <- !append_assoc.
    f_equal. destruct (truthy (Some cur)); apply append_nil_r.
  - destruct (truthy (Some cur)) eqn:T; cbn [fst snd].
    + now rewrite concat_snoc, !squeeze_app.
    + apply truthy_empty in T as ->.
      now rewrite concat_snoc, !append_nil_r, squeeze_app.
Qed.

Lemma fold_held max words state :
  held (fold_left (movie_step max) words state)
  = held state +:+ String.concat EmptyString (map squeeze words).
Proof.
  revert state. induction words as [|w words IH]; intros state.
  - cbn. now rewrite append_nil_r.
  - cbn [fold_left map]. rewrite IH, movie_step_held, append_assoc. f_equal.
    destruct words; [cbn; now rewrite ?append_nil_r|reflexivity].
Qed.

Lemma flush_held state : squeeze (String.concat EmptyString (flush state)) = held state.
Proof.
  destruct state as [lines cur]. unfold flush, held. cbn [fst snd].
  destruct (truthy (Some cur)) eqn:T; [now rewrite concat_snoc|].
  apply truthy_empty in T as ->. now rewrite append_nil_r.
Qed.

Lemma squeeze_words text :
  String.concat EmptyString (map squeeze (split_on " " text)) = squeeze text.
Proof.
  induction text as [|a text IH]; [reflexivity|].
  cbn [split_on]. unfold squeeze in *. cbn [replace_all].
  destruct (Ascii.eqb a " ") eqn:E.
  - cbn [map]. rewrite <- IH.
    destruct (split_on " " text) eqn:Es; [reflexivity|].
    cbn [map]. reflexivity.
  - pose proof (PathFacts.split_on_nonempty " " text) as Hne.
    destruct (split_on " " text) as [|x xs]; [contradiction|].
    cbn [map] in *. cbn [replace_all]. rewrite E.
    cbn [String.append]. rewrite <- IH.
    destruct (map (replace_all " " EmptyString) xs); reflexivity.
Qed.

Lemma wrapText_letters (text : string) (max : Z) :
  squeeze (String.concat EmptyString (Movie.wrapText text max)) = squeeze text.
Proof.
  rewrite movie_wrapText_fold, flush_held, fold_held.
  now rewrite squeeze_words.
Qed.

(** X3. [wrapText] of movieGenerate.ts loses no text: the lines, read one
    after the other, hold the characters of the input other than spaces, all
    of them and in the same order, whatever the budget is. *)
Theorem wrapText_keeps_text (text : string) (max : Z) :
  squeeze (String.concat EmptyString (Movie.wrapText text max)) = squeeze text.
Proof.
  rewrite movie_wrapText_fold, flush_held. unfold flush.
  rewrite fold_held. cbn [held fst snd String.concat String.append].
  apply squeeze_words.
Qed.

(** *** Length of the lines *)

(** A line is within the budget plus one, or it is a single word of the
    text that is longer than the budget. *)
Definition fits (max : Z) (words : list string) (line : string) : Prop :=
  Z.of_nat (utf16_length line) <= max + 1
  \/ (In line words /\ max < Z.of_nat (utf16_length line)).

Lemma movie_step_fits max words state word :
  0 <= max -> In word words ->
  Forall (fun l => l <> EmptyString /\ fits max words l) (fst state) ->
  fits max words (snd state) ->
  let state' := movie_step max state word in
  Forall (fun l => l <> EmptyString /\ fits max words l) (fst state')
  /\ fits max words (snd state').
Proof.
  intros Hmax Hin Hlines Hcur. destruct state as [lines cur].
  cbn [fst snd] in *. unfold movie_step.
  destruct (Z.of_nat (utf16_length (cur +:+ word)) <=? max) eqn:Hfit.
  - cbn [fst snd]. split; [exact Hlines|]. left.
    apply Z.leb_le in Hfit. rewrite !utf16_length_app in *.
    destruct (truthy (Some cur));
      [change (utf16_length " ") with 1%nat
      |change (utf16_length EmptyString) with 0%nat]; lia.
  - apply Z.leb_gt in Hfit.
    assert (Hword : fits max words word).
    { destruct (Z_le_gt_dec (Z.of_nat (utf16_length word)) max);
        [left; lia|right; split; [exact Hin|lia]]. }
    destruct (truthy (Some cur)) eqn:T; cbn [fst snd].
    + split; [|exact Hword]. apply Forall_app_2; [exact Hlines|].
      constructor; [|constructor]. split; [|exact Hcur].
      now apply truthy_nonempty.
    + split; [|exact Hcur]. apply Forall_app_2; [exact Hlines|].
      constructor; [|constructor]. apply truthy_empty in T as ->.
      cbn [String.append] in Hfit. split.
      * intros ->. cbn in Hfit. lia.
      * right. split; [exact Hin|lia].
Qed.

Lemma fold_fits max words ws state :
  0 <= max -> (forall w, In w ws -> In w words) ->
  Forall (fun l => l <> EmptyString /\ fits max words l) (fst state) ->
  fits max words (snd state) ->
  let state' := fold_left (movie_step max) ws state in
  Forall (fun l => l <> EmptyString /\ fits max words l) (fst state')
  /\ fits max words (snd state').
Proof.
  intros Hmax. revert state. induction ws as [|w ws IH];
    intros state Hws Hlines Hcur; [now split|].
  cbn [fold_left].
  destruct (movie_step_fits max words state w Hmax) as [H1 H2];
    [apply Hws; now left|assumption..|].
  apply IH; [intros w' Hw'; apply Hws; now right|assumption..].
Qed.

(** X4. With a budget of [max >= 0] characters, no line of [wrapText]
    (movieGenerate.ts) is empty, and every line has at most [max + 1]
    characters (the joining space is not counted by the test of the loop) or
    is a single word of the text that is longer than the budget by itself.
    Characters are UTF-16 code units, as [length] counts them. *)
Theorem wrapText_line_length (text : string) (max : Z) :
  0 <= max ->
  Forall (fun line =>
            line <> EmptyString /\ fits max (split_on " " text) line)
    (Movie.wrapText text max).
Proof.
  intros Hmax. rewrite movie_wrapText_fold.
  destruct (fold_fits max (split_on " " text) (split_on " " text)
              ([], EmptyString) Hmax) as [H1 H2];
    [auto|constructor|left; cbn; lia|].
  destruct (fold_left _ _ _) as [lines cur]. cbn [fst snd flush] in *.
  destruct (truthy (Some cur)) eqn:T; [|exact H1].
  apply Forall_app_2; [exact H1|]. constructor; [|constructor].
  split; [now apply truthy_nonempty|exact H2].
Qed.

Lemma wrapText_line_length_witness :
  Movie.wrapText "ab cd extraordinary ef" 4 = ["ab cd"; "extraordinary"; "ef"]
  /\ Forall (fun line =>
               line <> EmptyString
               /\ fits 4 (split_on " " "ab cd extraordinary ef") line)
       (Movie.wrapText "ab cd extraordinary ef" 4).
Proof.
  split; [reflexivity|].
  apply (wrapText_line_length "ab cd extraordinary ef" 4). lia.
Defined.

(** Characters are counted as JS counts them, not as bytes. *)
Example accented_text_wrapped :
  Movie.wrapText "São João é campeão" 9 = ["São João é"; "campeão"].
Proof. vm_compute. reflexivity. Qed.

(** *** The two versions *)

(** The states of the two loops after the same words: they are equal, or
    the version of movieGenerate.ts has already pushed an over-long word
    that the version of imageGenerate.ts still holds as its current line. *)
Definition in_step (max : Z) (m l : list string * string) : Prop :=
  m = l
  \/ (snd m = EmptyString /\ fst m = (fst l ++ [snd l])%list
      /\ max < Z.of_nat (utf16_length (snd l))).

Lemma steps_in_step max m l word :
  0 <= max -> in_step max m l ->
  in_step max (movie_step max m word) (legacy_step max l word).
Proof.
  intros Hmax [ <- | (Hc & HL & Hlong)].
  - destruct m as [lines cur]. unfold movie_step, legacy_step.
    destruct (Z.of_nat (utf16_length (cur +:+ word)) <=? max) eqn:Hfit;
      [now left|].
    destruct (truthy (Some cur)) eqn:T; [now left|].
    right. apply truthy_empty in T as ->. apply Z.leb_gt in Hfit.
    cbn [fst snd String.append] in *. auto.
  - destruct m as [lines cur], l as [lines' cur']. cbn [fst snd] in *.
    subst cur lines. unfold movie_step, legacy_step.
    assert (Hl : (Z.of_nat (utf16_length (cur' +:+ word)) <=? max) = false).
    { apply Z.leb_gt. rewrite utf16_length_app. lia. }
    rewrite Hl.
    assert (T : truthy (Some cur') = true).
    { apply truthy_nonempty. intros ->. cbn in Hlong. lia. }
    rewrite T. cbn [String.append truthy].
    destruct (Z.of_nat (utf16_length word) <=? max) eqn:Hfit; [now left|].
    right. apply Z.leb_gt in Hfit. cbn [fst snd]. auto.
Qed.

Lemma folds_in_step max words m l :
  0 <= max -> in_step max m l ->
  in_step max (fold_left (movie_step max) words m)
    (fold_left (legacy_step max) words l).
Proof.
  intros Hmax. revert m l. induction words as [|w words IH]; intros m l H;
    [exact H|].
  cbn [fold_left]. apply IH. now apply steps_in_step.
Qed.

Lemma flush_in_step max m l : 0 <= max -> in_step max m l -> flush m = flush l.
Proof.
  intros Hmax [ <- | (Hc & HL & Hlong)]; [reflexivity|].
  destruct m as [lines cur], l as [lines' cur']. cbn [fst snd] in *.
  subst cur lines. unfold flush.
  assert (T : truthy (Some cur') = true).
  { apply truthy_nonempty. intros ->. cbn in Hlong. lia. }
  now rewrite T.
Qed.

(** X5. For a budget [max >= 0], [wrapText] of imageGenerate.ts returns
    the first four lines of what [wrapText] of movieGenerate.ts returns: the
    two loops break the text at the same places, and the older one drops
    whatever comes after the fourth line. *)
Theorem legacy_wrapText_first_four (text : string) (max : Z) :
  0 <= max ->
  ImageGenerate.wrapText text max = firstn 4 (Movie.wrapText text max).
Proof.
  intros Hmax. rewrite legacy_wrapText_fold, movie_wrapText_fold. f_equal.
  symmetry. apply (flush_in_step max); [exact Hmax|].
  apply folds_in_step; [exact Hmax|now left].
Qed.

Lemma legacy_wrapText_first_four_witness :
  Movie.wrapText "a b c d e f" 1 = ["a"; "b"; "c"; "d"; "e"; "f"]
  /\ ImageGenerate.wrapText "a b c d e f" 1 = ["a"; "b"; "c"; "d"].
Proof.
  split; [reflexivity|].
  rewrite (legacy_wrapText_first_four "a b c d e f" 1); [reflexivity|lia].
Defined.

(** Below zero the two versions part: the older one skips the empty
    words that the newer one keeps as lines. *)
Example negative_budget_differs :
  Movie.wrapText "a  b" (-1) = ["a"; EmptyString; "b"]
  /\ ImageGenerate.wrapText "a  b" (-1) = ["a"; "b"].
Proof. split; reflexivity. Qed.

End WrapFacts.

(** ** Truncation of the title (imageGenerate.ts) *)

Module TruncationFacts.
Import Js Xml Sys Markup StringFacts EscapeLaws MarkupFacts.

Lemma replacement_length : utf16_length replacement = 1%nat.
Proof. reflexivity. Qed.

(** [substring(0, n)] has [n] code units, or all there are. *)
Lemma take_units_length n (s : string) :
  utf16_length (take_units n s) = Nat.min n (utf16_length s).
Proof.
  revert n. induction s as [|a s IH]; intros n; [now destruct n|].
  cbn [take_units utf16_length].
  assert (Hu : units a = if continuation a then 0%nat
                         else if pair_lead a then 2%nat else 1%nat)
    by reflexivity.
  destruct (continuation a) eqn:C.
  - cbn [utf16_length]. rewrite Hu, IH. lia.
  - destruct n as [|m]; [reflexivity|].
    destruct (pair_lead a) eqn:P.
    + destruct m as [|k]; [rewrite replacement_length, Hu; lia|].
      cbn [utf16_length]. rewrite Hu, IH. lia.
    + cbn [utf16_length]. rewrite Hu, IH. lia.
Qed.

Lemma substring_length n (s : string) :
  (utf16_length (substring 0 n s) <= n)%nat.
Proof.
  unfold substring. rewrite Nat.sub_0_r, take_units_length. lia.
Qed.

Lemma ends_with_app_same (t u : string) : ends_with u (t +:+ u) = true.
Proof.
  induction t as [|c t IH].
  - cbn [String.append]. destruct u; cbn [ends_with];
      now rewrite String.eqb_refl.
  - cbn [String.append ends_with]. rewrite IH. apply orb_true_r.
Qed.

(** X6. In the overlay of imageGenerate.ts the first text is the escaped
    title, cut to its budget of [floor(contentWidth / (titleFontSize * 0.6))]
    characters, counted as [length] and [substring] count them (UTF-16 code
    units): a title within the budget is shown whole, a longer one is cut
    to its first [budget - 3] characters followed by three dots, and what is
    shown never has more characters than the budget, or three when the
    budget is smaller than the dots.  The font size is taken positive, as
    the caller computes it; the rationals of the model divide by zero
    differently from JS numbers. *)
Theorem legacy_title_within_budget totalWidth totalHeight
  contentX contentY contentWidth titulo descricao contato whatsapp
  titleFontSize descFontSize metaFontSize :
  (0 < titleFontSize)%Q ->
  let budget := Qfloor (contentWidth / (titleFontSize * 0.6)) in
  exists title rest,
    user_texts (ImageGenerate.createAdvancedTextOverlay totalWidth totalHeight
                  contentX contentY contentWidth titulo descricao contato
                  whatsapp titleFontSize descFontSize metaFontSize)
    = escapeXml title :: rest
    /\ Z.of_nat (utf16_length title) <= Z.max budget 3
    /\ (Z.of_nat (utf16_length titulo) <= budget -> title = titulo)
    /\ (budget < Z.of_nat (utf16_length titulo) ->
        ends_with "..." title = true
        /\ title = substring 0 (Z.to_nat (budget - 3)) titulo +:+ "...").
Proof.
  intros _ budget.
  assert (Htexts : exists rest,
    user_texts (ImageGenerate.createAdvancedTextOverlay totalWidth totalHeight
                  contentX contentY contentWidth titulo descricao contato
                  whatsapp titleFontSize descFontSize metaFontSize)
    = escapeXml (if budget <? Z.of_nat (utf16_length titulo)
                 then substring 0 (Z.to_nat (budget - 3)) titulo +:+ "..."
                 else titulo) :: rest).
  { unfold ImageGenerate.createAdvancedTextOverlay. cbv zeta. fold budget.
    destruct contato as [[|a contato]|]; destruct whatsapp as [[|b whatsapp]|];
      rewrite !user_texts_app; cbn [user_texts app]; eexists; reflexivity. }
  destruct Htexts as [rest Htexts].
  exists (if budget <? Z.of_nat (utf16_length titulo)
          then substring 0 (Z.to_nat (budget - 3)) titulo +:+ "..."
          else titulo), rest.
  split; [exact Htexts|]. clear Htexts.
  destruct (budget <? Z.of_nat (utf16_length titulo)) eqn:Hcut.
  - apply Z.ltb_lt in Hcut. split; [|split; [lia|]].
    + rewrite WrapFacts.utf16_length_app.
      pose proof (substring_length (Z.to_nat (budget - 3)) titulo).
      change (utf16_length "...") with 3%nat. lia.
    + intros _. split; [apply ends_with_app_same|reflexivity].
  - apply Z.ltb_ge in Hcut. split; [lia|]. split; [reflexivity|lia].
Qed.

Lemma legacy_title_within_budget_witness :
  exists title rest,
    user_texts (ImageGenerate.createAdvancedTextOverlay 1920 1080
                  600 100 120 "Filme de Teste" "Sinopse" None None 20 18 14)
    = escapeXml title :: rest
    /\ title = "Filme d...".
Proof.
  destruct (legacy_title_within_budget 1920 1080 600 100 120
              "Filme de Teste" "Sinopse" None None 20 18 14)
    as (title & rest & Htexts & _ & _ & Hcut); [reflexivity|].
  exists title, rest. split; [exact Htexts|].
  destruct Hcut as (_ & ->); [vm_compute; reflexivity|reflexivity].
Defined.

(** Characters are counted as JS counts them, not as bytes: with a budget
    of ten, seven characters of an accented title are kept. *)
Example accented_title_cut :
  user_texts (ImageGenerate.createAdvancedTextOverlay 1920 1080
                600 100 120 "Ação e Emoção no Cinema" "Sinopse" None None
                20 18 14)
  = ["Ação e ..."; "Sinopse"].
Proof. vm_compute. reflexivity. Qed.

End TruncationFacts.

(** ** Computations that return *)

Module Total.
Import Js Sys Http Logic Effects SaveFacts.

(** [m] returns, in every state of the world, a value that satisfies
    [P]. *)
Definition returns {A} (m : M A) (P : A -> Prop) : Prop :=
  forall w, exists a w', m w = (inr a, w') /\ P a.

(** The markup path: whatever the browser does, an image comes back. *)
Lemma html_image_returns E html width height :
  returns (FootballHtml.htmlToImage E html width height)
    (fun image =>
       match puppeteer E with
       | Some session =>
           match session (mkViewport width height 2) html
                   (mkScreenshotOptions "jpeg" 95 true) with
           | Some shot => image = shot
           | None => image = html
           end
       | None => image = html
       end).
Proof.
  intros w. unfold FootballHtml.htmlToImage, try_catch, try_finally, bind,
    logger, modify, await_io, ret, throw.
  destruct (puppeteer E) as [session|]; [|eauto].
  destruct (session _ html _); eauto.
Qed.

(** *** The headers of the reply under construction

    [m] sets no header: started on a reply without headers, it leaves a
    reply without headers, whether it returns or throws. *)
Definition tidy {A} (m : M A) : Prop :=
  forall w, out_headers w = [] -> out_headers (snd (m w)) = [].

Lemma tidy_ret {A} (a : A) : tidy (ret a).
Proof. intros w H. exact H. Qed.

Lemma tidy_throw {A} e : tidy (@throw A e).
Proof. intros w H. exact H. Qed.

Lemma tidy_bind {A B} (m : M A) (k : A -> M B) :
  tidy m -> (forall a, tidy (k a)) -> tidy (bind m k).
Proof.
  intros Hm Hk w H. unfold bind. specialize (Hm w H).
  destruct (m w) as [[e|a] w1]; [exact Hm|]. now apply Hk.
Qed.

Lemma tidy_try_catch {A} (body : M A) (h : exn -> M A) :
  tidy body -> (forall e, tidy (h e)) -> tidy (try_catch body h).
Proof.
  intros Hb Hh w H. unfold try_catch. specialize (Hb w H).
  destruct (body w) as [[e|a] w1]; [now apply Hh|exact Hb].
Qed.

Lemma tidy_steady {A} (m : M A) : steady m -> tidy m.
Proof. intros Hm w H. now rewrite (frame_headers _ _ (Hm w)). Qed.

Lemma tidy_send c p : tidy (send c p).
Proof.
  intros w H. unfold send, bind, get, modify, ret, throw.
  now destruct (refused (out_headers w) p).
Qed.

Lemma tidy_randomUUID E : tidy (randomUUID E).
Proof. intros w H. exact H. Qed.

Lemma tidy_save E buf filename request :
  tidy (Football.saveImageAndGetLink E buf filename request).
Proof.
  intros w H.
  unfold Football.saveImageAndGetLink, Football.ensureUploadsDir, try_catch,
    bind, fs_access, fs_mkdir, fs_writeFile, setTimeout_unlink, await_io,
    modify, get, ret, throw.
  cbn -[stat String.append Path.join Z.mul].
  repeat (match goal with
          | |- context [match stat ?f ?p with _ => _ end] =>
              destruct (stat f p) as [[?|]|];
              cbn -[stat String.append Path.join Z.mul]
          end);
    exact H.
Qed.

(** A reply without headers takes what the [catch] clause of a handler
    sends. *)
Lemma catch_answers level text c p w :
  out_headers w = [] ->
  exists hs w',
    (exec logger level text in send c p) w = (inr (mkReply c hs p), w')
    /\ fs w' = fs w /\ timers w' = timers w
    /\ writes (trace w') = writes (trace w).
Proof.
  intros H. unfold bind, logger, modify.
  rewrite send_accepted
    by (cbn [out_headers emit]; rewrite H; apply accepted_without_headers).
  eexists _, _. split; [reflexivity|]. cbn. rewrite writes_app. cbn.
  now rewrite app_nil_r.
Qed.

(** A handler whose [try] block sets no header always answers: with what
    the block sends, or with what the [catch] clause sends. *)
Lemma handler_answers (body : M Reply) level text c (p : exn -> Payload)
  (Q : Reply -> Prop) :
  tidy body -> yields body Q -> (forall e hs, Q (mkReply c hs (p e))) ->
  returns
    (exec new_reply in
     try_catch body (fun e => exec logger level text in send c (p e))) Q.
Proof.
  intros Htidy Hbody Hcatch w. unfold bind at 1, new_reply, modify, try_catch.
  specialize (Htidy (set_out_headers (fun _ => []) w) eq_refl).
  destruct (body (set_out_headers (fun _ => []) w)) as [[e|r] w1] eqn:Eb.
  - destruct (catch_answers level text c (p e) w1 Htidy)
      as (hs & w' & -> & _).
    eauto.
  - exists r, w1. split; [reflexivity|]. exact (Hbody _ _ _ Eb).
Qed.

(** *** What stays on the disk

    [w'] has the files, the pending deletions and the file writes of
    [w]. *)
Record calm (w w' : World) : Prop := mkCalm {
  calm_fs : fs w' = fs w;
  calm_timers : timers w' = timers w;
  calm_writes : writes (trace w') = writes (trace w)
}.

Lemma calm_refl w : calm w w.
Proof. now split. Qed.

Lemma calm_trans w1 w2 w3 : calm w1 w2 -> calm w2 w3 -> calm w1 w3.
Proof. intros [] []. split; etransitivity; eassumption. Qed.

(** [m] writes no file and schedules no deletion. *)
Definition gentle {A} (m : M A) : Prop := forall w, calm w (snd (m w)).

Lemma gentle_ret {A} (a : A) : gentle (ret a).
Proof. intros w. apply calm_refl. Qed.

Lemma gentle_throw {A} e : gentle (@throw A e).
Proof. intros w. apply calm_refl. Qed.

Lemma gentle_bind {A B} (m : M A) (k : A -> M B) :
  gentle m -> (forall a, gentle (k a)) -> gentle (bind m k).
Proof.
  intros Hm Hk w. unfold bind. specialize (Hm w).
  destruct (m w) as [[e|a] w1]; [exact Hm|].
  eapply calm_trans; [exact Hm|apply Hk].
Qed.

Lemma gentle_try_catch {A} (body : M A) (h : exn -> M A) :
  gentle body -> (forall e, gentle (h e)) -> gentle (try_catch body h).
Proof.
  intros Hb Hh w. unfold try_catch. specialize (Hb w).
  destruct (body w) as [[e|a] w1]; [|exact Hb].
  eapply calm_trans; [exact Hb|apply Hh].
Qed.

Lemma gentle_steady {A} (m : M A) : steady m -> gentle m.
Proof. intros Hm w. destruct (Hm w). now split. Qed.

Lemma gentle_headers f : gentle (modify (set_out_headers f)).
Proof. intros w. now split. Qed.

Lemma gentle_send c p : gentle (send c p).
Proof.
  intros w. unfold send, bind, get, modify, ret, throw.
  destruct (refused (out_headers w) p); now split.
Qed.

End Total.

(** ** The life of a generation request *)

Module ServeFacts.
Import Js Sys Http App Logic DispatchFacts Effects RenderFacts Total ModeFacts.

(** The body schema of the route that [g] goes to. *)
Definition valid (E : Env) (g : Generation) : bool :=
  match g with
  | GenerateImages body => Movie.imageGenerationSchema E body
  | GenerateFootballSchedule body => Football.footballScheduleSchema E body
  | GenerateFootballHtml body => FootballHtml.footballScheduleSchema E body
  end.

(** Its handler. *)
Definition handle (E : Env) (request : Request) (g : Generation) (q : Query)
  : M Reply :=
  match g with
  | GenerateImages body => Movie.generate_images E request body q
  | GenerateFootballSchedule body =>
      Football.generate_football_schedule E request body q
  | GenerateFootballHtml body =>
      FootballHtml.generate_football_html E request body q
  end.

Lemma serve_route E request g raw :
  serve E request g raw
  = if valid E g then
      match querySchema raw with
      | Some query =>
          try_catch (handle E request g query)
            (fun error => handleError (Thrown error) request)
      | None => handleError (SchemaValidationError "querystring") request
      end
    else handleError (SchemaValidationError "body") request.
Proof. destruct g; reflexivity. Qed.

Lemma bind_ok {A B} (m : M A) (k : A -> M B) w a w1 :
  m w = (inr a, w1) -> bind m k w = k a w1.
Proof. intros H. unfold bind. now rewrite H. Qed.

Lemma try_ok {A} (body : M A) (h : exn -> M A) w a w1 :
  body w = (inr a, w1) -> try_catch body h w = (inr a, w1).
Proof. intros H. unfold try_catch. now rewrite H. Qed.

(** The function that renders the images of a request. *)
Definition renderer (E : Env) (g : Generation) : Z -> Z -> M Buffer :=
  match g with
  | GenerateImages body => Movie.createPromotionalImage E body
  | GenerateFootballSchedule body => Football.createFootballScheduleImage E body
  | GenerateFootballHtml body => OutcomeFacts.page_image E body
  end.

Lemma renderer_steady E g width height : steady (renderer E g width height).
Proof.
  destruct g; cbn [renderer];
    [apply movie_image_steady|apply football_image_steady
    |apply html_image_steady].
Qed.

(** One step through a [try] block that sets no header. *)
Ltac tidy_step :=
  lazymatch goal with
  | |- tidy (bind _ _) => apply tidy_bind; [|intros ?]
  | |- tidy (send _ _) => apply tidy_send
  | |- tidy (randomUUID _) => apply tidy_randomUUID
  | |- tidy (if ?b then _ else _) => destruct b
  | |- tidy (Movie.createPromotionalImage ?E ?body _ _) =>
      apply tidy_steady, (renderer_steady E (GenerateImages body))
  | |- tidy (Football.createFootballScheduleImage ?E ?body _ _) =>
      apply tidy_steady, (renderer_steady E (GenerateFootballSchedule body))
  | |- tidy (FootballHtml.htmlToImage _ _ _ _) =>
      apply tidy_steady, html_image_steady
  | |- tidy _ => exact (tidy_save _ _ _ _)
  end.

(** The status of what a handler sends. *)
Definition ok_or_failed (r : Reply) : Prop := code r = 200 \/ code r = 500.

Lemma handle_returns E request g q :
  returns (handle E request g q) ok_or_failed.
Proof.
  destruct g; cbn [handle];
    unfold Movie.generate_images, Football.generate_football_schedule,
      FootballHtml.generate_football_html;
    (apply handler_answers; [| |intros e hs; now right]);
    try (repeat tidy_step);
    repeat yields_step;
    destruct (Bool.eqb (base64 q) true); repeat yields_step; now left.
Qed.

(** X7. A generation request is always answered: no exception leaves the
    route.  The status is 400 exactly when the body or the query string fails
    its schema, and then nothing was fetched, rendered, written or scheduled;
    otherwise it is 200 or 500. *)
Theorem serve_always_answers E request g raw w :
  exists reply w',
    serve E request g raw w = (inr reply, w')
    /\ (code reply = 200 \/ code reply = 400 \/ code reply = 500)
    /\ (code reply = 400 <-> valid E g = false \/ querySchema raw = None)
    /\ (code reply = 400 ->
        fs w' = fs w /\ timers w' = timers w /\ trace w' = trace w
        /\ ticks w' = ticks w /\ now w' = now w).
Proof.
  assert (Hrefused : forall part,
    exists reply w',
      handleError (SchemaValidationError part) request w = (inr reply, w')
      /\ code reply = 400
      /\ fs w' = fs w /\ timers w' = timers w /\ trace w' = trace w
      /\ ticks w' = ticks w /\ now w' = now w).
  { intros part.
    destruct (handleError_answers (SchemaValidationError part) request w)
      as (reply & w' & Hrun & Hcode & Hfs & Ht & Hticks & Hnow & _ & Htrace).
    exists reply, w'. rewrite Htrace by reflexivity. auto 10. }
  rewrite serve_route. destruct (valid E g) eqn:Hvalid.
  - destruct (querySchema raw) as [q|] eqn:Hq.
    + destruct (handle_returns E request g q w) as (reply & w' & Hrun & Hcode).
      exists reply, w'. rewrite (try_ok _ _ _ _ _ Hrun).
      split; [reflexivity|]. unfold ok_or_failed in Hcode.
      split; [tauto|]. split; [|intros H; lia].
      split; [intros H; lia|intros [H|H]; discriminate].
    + destruct (Hrefused "querystring") as (reply & w' & Hrun & Hcode & Hw).
      exists reply, w'. split; [exact Hrun|].
      split; [tauto|]. split; [|now intros _]. split; auto.
  - destruct (Hrefused "body") as (reply & w' & Hrun & Hcode & Hw).
    exists reply, w'. split; [exact Hrun|].
    split; [tauto|]. split; [|now intros _]. split; auto.
Qed.

(** *** Requests for inline images *)

Lemma query_inline raw :
  raw_base64 raw = QString "true" -> flag (raw_file raw) <> None ->
  exists f, querySchema raw = Some (mkQuery true f).
Proof.
  intros Hb Hf. unfold querySchema. rewrite Hb. cbn [flag String.eqb].
  destruct (flag (raw_file raw)) as [f|]; [|contradiction].
  exists f. reflexivity.
Qed.

Lemma gentle_dispatch error request : gentle (handleError error request).
Proof.
  intros w.
  destruct (handleError_answers error request w)
    as (reply & w' & Hrun & _ & Hfs & Ht & _).
  rewrite Hrun. cbn [snd]. split; [exact Hfs|exact Ht|].
  revert Hrun. unfold handleError, setErrorHandler, bind, modify, logger.
  destruct (hasZodFastifySchemaValidationErrors error);
    [|destruct (isResponseSerializationError error);
      [|destruct (is_bad_status_code error)]];
    cbn -[send]; intros Hrun; apply send_returned in Hrun as [_ ->];
    cbn; rewrite ?writes_app; cbn; now rewrite ?app_nil_r.
Qed.

(** One step through a handler that writes nothing. *)
Ltac gentle_step :=
  lazymatch goal with
  | |- gentle (bind _ _) => apply gentle_bind; [|intros ?]
  | |- gentle (try_catch _ _) => apply gentle_try_catch; [|intros ?]
  | |- gentle (send _ _) => apply gentle_send
  | |- gentle new_reply => apply gentle_headers
  | |- gentle (logger _ _) => apply gentle_steady, steady_logger
  | |- gentle (Movie.createPromotionalImage ?E ?body _ _) =>
      apply gentle_steady, (renderer_steady E (GenerateImages body))
  | |- gentle (Football.createFootballScheduleImage ?E ?body _ _) =>
      apply gentle_steady, (renderer_steady E (GenerateFootballSchedule body))
  | |- gentle (FootballHtml.htmlToImage _ _ _ _) =>
      apply gentle_steady, html_image_steady
  end.

(** In inline mode the handlers only render and send. *)
Lemma inline_handler_gentle E request g f :
  gentle (handle E request g (mkQuery true f)).
Proof.
  destruct g; cbn [handle];
    unfold Movie.generate_images, Football.generate_football_schedule,
      FootballHtml.generate_football_html;
    cbn [base64 Bool.eqb]; repeat gentle_step.
Qed.

(** X8. A request with [base64=true] leaves nothing behind, whatever its
    outcome is (images, a rejected body, a rendering that fails): it is
    answered, no file is written and no deletion is scheduled, on each of
    the three generation routes and in every state of the world. *)
Theorem inline_request_writes_nothing E request g raw w :
  raw_base64 raw = QString "true" ->
  exists reply w',
    serve E request g raw w = (inr reply, w')
    /\ fs w' = fs w /\ timers w' = timers w
    /\ writes (trace w') = writes (trace w).
Proof.
  intros Hb.
  assert (Hgentle : gentle (serve E request g raw)).
  { rewrite serve_route. destruct (valid E g); [|apply gentle_dispatch].
    unfold querySchema. rewrite Hb. cbn [flag String.eqb].
    destruct (flag (raw_file raw)) as [f|]; [|apply gentle_dispatch].
    apply gentle_try_catch; [apply inline_handler_gentle|].
    intros e. apply gentle_dispatch. }
  assert (Hreturns : exists reply w', serve E request g raw w = (inr reply, w')).
  { rewrite serve_route. destruct (valid E g).
    - destruct (querySchema raw) as [q|].
      + destruct (handle_returns E request g q w) as (reply & w' & Hrun & _).
        exists reply, w'. now rewrite (try_ok _ _ _ _ _ Hrun).
      + destruct (handleError_answers (SchemaValidationError "querystring")
                    request w) as (reply & w' & Hrun & _).
        eauto.
    - destruct (handleError_answers (SchemaValidationError "body") request w)
        as (reply & w' & Hrun & _).
      eauto. }
  destruct Hreturns as (reply & w' & Hrun).
  specialize (Hgentle w). rewrite Hrun in Hgentle.
  destruct Hgentle as [Hfs Htimers Hwrites].
  exists reply, w'. auto.
Qed.

Lemma inline_request_writes_nothing_witness :
  exists reply w',
    serve Sample.offline Sample.request
      (GenerateImages Sample.movie) Sample.base64_flag Sample.boot
    = (inr reply, w')
    /\ code reply = 200 /\ fs w' = fs Sample.boot
    /\ timers w' = timers Sample.boot.
Proof.
  destruct (inline_request_writes_nothing Sample.offline Sample.request
              (GenerateImages Sample.movie) Sample.base64_flag Sample.boot)
    as (reply & w' & Hrun & Hfs & Htimers & _); [reflexivity|].
  exists reply, w'. split; [exact Hrun|].
  split; [|split; [exact Hfs|exact Htimers]].
  eassert (Hsample : serve Sample.offline Sample.request
                       (GenerateImages Sample.movie) Sample.base64_flag
                       Sample.boot = (inr _, _))
    by (vm_compute; reflexivity).
  rewrite Hsample in Hrun. now injection Hrun as <- _.
Defined.

(** X9. On the markup route a valid request with [base64=true] cannot
    fail, whatever the environment: the reply has status 200 and carries, as
    a JPEG data URL, the full-page screenshot of the generated page that the
    browser takes with a viewport of 1080 x 1920 at device scale factor 2,
    when a browser is installed and takes it, and the bytes of the page
    itself in every other case. *)
Theorem page_request_cannot_fail E request body raw w :
  FootballHtml.footballScheduleSchema E body = true ->
  raw_base64 raw = QString "true" -> flag (raw_file raw) <> None ->
  let page := Markup.render E (FootballHtml.generateHTML E body) in
  let image :=
    match puppeteer E with
    | Some session =>
        default page
          (session (mkViewport 1080 1920 2) page
             (mkScreenshotOptions "jpeg" 95 true))
    | None => page
    end in
  exists reply w',
    serve E request (GenerateFootballHtml body) raw w = (inr reply, w')
    /\ code reply = 200
    /\ payload_field "image" reply = Some (JStr (Base64.jpeg_data_url image)).
Proof.
  intros Hvalid Hb Hf page image.
  destruct (query_inline raw Hb Hf) as [f Hq].
  rewrite serve_route. cbn [valid handle]. rewrite Hvalid, Hq.
  set (w0 := set_out_headers (fun _ => []) w).
  destruct (html_image_returns E page 1080 1920 w0)
    as (shot & w1 & Eshot & Hshot).
  assert (Himage : shot = image).
  { subst image. destruct (puppeteer E) as [session|]; [|exact Hshot].
    now destruct (session _ page _). }
  subst shot.
  pose proof (steady_run _ _ _ _ (html_image_steady E _ _ _) Eshot)
    as [_ _ _ Fh _ _].
  unfold FootballHtml.generate_football_html. cbn [base64 Bool.eqb].
  fold page. eexists _, _. split.
  { apply try_ok. unfold bind at 1, new_reply, modify. fold w0.
    apply try_ok. rewrite (bind_ok _ _ _ _ _ Eshot).
    apply send_accepted. rewrite Fh. reflexivity. }
  split; reflexivity.
Qed.

Lemma page_request_cannot_fail_witness :
  exists reply w',
    serve Sample.offline Sample.request
      (GenerateFootballHtml Sample.one_game) Sample.base64_flag Sample.boot
    = (inr reply, w')
    /\ code reply = 200.
Proof.
  destruct (page_request_cannot_fail Sample.offline Sample.request
              Sample.one_game Sample.base64_flag Sample.boot)
    as (reply & w' & Hrun & Hcode & _);
    [vm_compute; reflexivity|reflexivity|discriminate|].
  exists reply, w'. split; [exact Hrun|exact Hcode].
Defined.

(** *** The [file] parameter *)

(** X10. The query parameter [file] decides nothing: two requests that
    differ only in its value, given once or not at all, are answered in the
    same way and leave the same world behind. *)
Theorem file_flag_ignored E request g b f1 f2 w :
  flag f1 <> None -> flag f2 <> None ->
  serve E request g (mkRawQuery b f1) w
  = serve E request g (mkRawQuery b f2) w.
Proof.
  intros H1 H2. rewrite !serve_route. destruct (valid E g); [|reflexivity].
  unfold querySchema. cbn [raw_base64 raw_file].
  assert (Hhandle : forall x y1 y2,
            handle E request g (mkQuery x y1) = handle E request g (mkQuery x y2))
    by (intros x y1 y2; destruct g; reflexivity).
  destruct (flag b) as [x|], (flag f1) as [y1|], (flag f2) as [y2|];
    try contradiction; [|reflexivity].
  now rewrite (Hhandle x y1 y2).
Qed.

Lemma file_flag_ignored_witness :
  serve Sample.offline Sample.request (GenerateFootballSchedule Sample.one_game)
    (mkRawQuery QAbsent (QString "true")) Sample.boot
  = serve Sample.offline Sample.request
      (GenerateFootballSchedule Sample.one_game)
      (mkRawQuery QAbsent (QString "false")) Sample.boot.
Proof.
  apply (file_flag_ignored Sample.offline Sample.request
           (GenerateFootballSchedule Sample.one_game)
           QAbsent (QString "true") (QString "false") Sample.boot);
    discriminate.
Defined.

End ServeFacts.

(** ** The artifact store *)

Module StoreFacts.
Import Js Path Sys Http App StringFacts XmlFacts PathFacts DownloadFacts.
Import EscapeLaws Logic Effects RenderFacts OutcomeFacts DeliveryFacts.
Import ModeFacts ServeFacts.

(** *** The deletion callback *)

(** X11. The callback that [saveImageAndGetLink] schedules never throws:
    it removes the file when a regular file is at the path and otherwise
    (the file is already gone, or a directory is there) only logs, leaving
    the file system as it was.  No other path is touched, no timer is added
    or removed, and running it a second time changes nothing more. *)
Theorem unlink_callback_contained E path w :
  exists w',
    unlink_callback E path w = (inr tt, w')
    /\ fs w' = match stat (fs w) path with
               | Some (File _) => delete path (fs w)
               | _ => fs w
               end
    /\ (forall p, p <> path -> fs w' !! p = fs w !! p)
    /\ timers w' = timers w
    /\ (forall w'', unlink_callback E path w' = (inr tt, w'') ->
        fs w'' = fs w').
Proof.
  unfold unlink_callback, try_catch, bind, fs_unlink, await_io, modify, get,
    logger, ret, throw.
  cbn -[stat].
  destruct (stat (fs w) path) as [[c|]|] eqn:Es; cbn -[stat];
    eexists; (split; [reflexivity|]); cbn -[stat];
    (split; [reflexivity|]); (split; [|split; [reflexivity|]]).
  - intros p Hp. now rewrite lookup_delete_ne.
  - assert (Hgone : stat (delete path (fs w)) path = None).
    { unfold stat in *. destruct (ends_with_slash path).
      - destruct (fs w !! drop_last path) as [[]|]; discriminate.
      - apply lookup_delete_eq. }
    rewrite Hgone. now intros w'' [= <-].
  - reflexivity.
  - rewrite Es. now intros w'' [= <-].
  - reflexivity.
  - rewrite Es. now intros w'' [= <-].
Qed.

(** *** Saving, then downloading *)

(** The file system once [ensureUploadsDir] has run. *)
Definition ensured (dir : string) (files : gmap string node)
  : gmap string node :=
  match stat files dir with
  | None => <[dir := Dir]> files
  | Some _ => files
  end.

(** The link that [saveImageAndGetLink] of footballGenerate.ts,
    footballGenerateHtml.ts and movieGenerate.ts builds. *)
Definition link_to (request : Request) (filename : string) : string :=
  or_else (req_headers request !! "x-forwarded-proto")
    (if socket_encrypted request then "https" else "http")
  +:+ "://"
  +:+ match req_headers request !! "x-forwarded-host" with
      | Some (String a rest) => String a rest
      | _ => default "undefined" (req_headers request !! "host")
      end
  +:+ "/api/download/" +:+ filename.

Lemma save_run E buf filename request w :
  let dir := Football.UPLOADS_DIR E in
  let path := join dir filename in
  match stat (ensured dir (fs w)) path with
  | Some Dir =>
      exists e w', Football.saveImageAndGetLink E buf filename request w
                   = (inl e, w')
  | _ =>
      exists w',
        Football.saveImageAndGetLink E buf filename request w
        = (inr (link_to request filename), w')
        /\ fs w' = <[path := File buf]> (ensured dir (fs w))
        /\ uuids w' = uuids w
  end.
Proof.
  intros dir path. unfold ensured.
  unfold Football.saveImageAndGetLink, Football.ensureUploadsDir, try_catch,
    bind, fs_access, fs_mkdir, fs_writeFile, setTimeout_unlink, await_io,
    modify, get, ret, throw.
  fold dir. fold path. cbn -[stat dir path link_to String.append].
  destruct (stat (fs w) dir) as [n|] eqn:Edir;
    cbn -[stat dir path link_to String.append]; rewrite ?Edir;
    cbn -[stat dir path link_to String.append];
    match goal with
    | |- context [stat ?f path] => destruct (stat f path) as [[c|]|]
    end;
    cbn -[stat dir path link_to String.append]; eauto.
Qed.



(** *** From a request for links to the downloads *)

(** Paths of plain names under the uploads directory. *)
Lemma join_uploads E segs name :
  absolute (cwd E) segs -> plain name ->
  let dir := Football.UPLOADS_DIR E in
  join dir name = dir +:+ "/" +:+ name
  /\ ends_with_slash dir = false
  /\ ends_with_slash (join dir name) = false
  /\ join dir name <> dir.
Proof.
  intros Habs Hname dir.
  destruct (uploads_dir (cwd E) segs Habs) as [Hsegs Hdir].
  fold (Football.UPLOADS_DIR E) in Hdir. fold dir in Hdir.
  assert (Hjoin : join dir name = dir +:+ "/" +:+ name).
  { rewrite (join_absolute dir (segs ++ ["temp-images"]) name
               (segs ++ ["temp-images"]) name); [| |exact Hname| | |].
    - rewrite Hdir, unsplit_app, append_assoc; [reflexivity| |discriminate].
      now destruct segs.
    - now split.
    - apply no_slash_not_trailing, Hname.
    - apply Hname.
    - rewrite (split_no_slash name) by apply Hname. cbn [fold_left].
      now rewrite (step_plain _ _ _ Hname). }
  assert (Hlast : forall (a b : string),
            b <> EmptyString -> occurs "/" b = false ->
            ends_with_slash (a +:+ b) = false).
  { intros a b Hb Hs. rewrite ends_with_slash_app by exact Hb.
    now apply no_slash_not_trailing. }
  split; [exact Hjoin|]. split; [|split].
  - rewrite Hdir, unsplit_snoc, <- append_assoc. now apply Hlast.
  - rewrite Hjoin, <- append_assoc. apply Hlast; apply Hname.
  - rewrite Hjoin. intros H.
    apply (f_equal String.length) in H. rewrite !length_app in H.
    cbn in H. lia.
Qed.

(** The name of an artifact is a plain file name when the session id has
    no separator. *)
Lemma artifact_plain (prefix id suffix : string) :
  occurs "/" prefix = false -> occurs "/" id = false ->
  occurs "/" suffix = false -> (3 <= String.length suffix)%nat ->
  plain (prefix +:+ id +:+ suffix).
Proof.
  intros Hp Hi Hs Hl.
  assert (Hlen : (3 <= String.length (prefix +:+ id +:+ suffix))%nat)
    by (rewrite !length_app; lia).
  repeat split; try (intros H; rewrite H in Hlen; cbn in Hlen; lia).
  now rewrite !occurs_app, Hp, Hi, Hs.
Qed.

Lemma ensured_ready dir files :
  ends_with_slash dir = false -> is_Some (ensured dir files !! dir).
Proof.
  intros Hd. unfold ensured, stat. rewrite Hd.
  destruct (files !! dir) eqn:E; [now rewrite E|].
  rewrite lookup_insert_eq. eauto.
Qed.

Lemma ensured_again dir files path n :
  ends_with_slash dir = false -> path <> dir -> is_Some (files !! dir) ->
  ensured dir (<[path := n]> files) = <[path := n]> files.
Proof.
  intros Hd Hp [x Hx]. unfold ensured, stat. rewrite Hd.
  now rewrite lookup_insert_ne, Hx by congruence.
Qed.

(** What a save that returned has done. *)
Lemma save_done E buf name request w link w' :
  Football.saveImageAndGetLink E buf name request w = (inr link, w') ->
  let dir := Football.UPLOADS_DIR E in
  link = link_to request name
  /\ fs w' = <[join dir name := File buf]> (ensured dir (fs w))
  /\ uuids w' = uuids w.
Proof.
  intros Hsave dir.
  pose proof (save_run E buf name request w) as Hrun. cbv zeta in Hrun.
  fold dir in Hrun.
  destruct (stat (ensured dir (fs w)) (join dir name)) as [[c|]|];
    try (destruct Hrun as (w1 & Hrun & Hfs & Hid); rewrite Hsave in Hrun;
         injection Hrun as -> ->; auto).
  destruct Hrun as (e & w1 & Hrun). rewrite Hsave in Hrun. discriminate.
Qed.

Lemma app_same_prefix (a x y : string) : a +:+ x = a +:+ y -> x = y.
Proof.
  induction a as [|c a IH]; [auto|]. cbn [String.append].
  intros [= H]. auto.
Qed.

Section Links.
Context (E : Env) (request : Request) (segs : list string).
Context (prefix message : string) (L P S : Buffer) (w : World).
Hypothesis cwd_absolute : absolute (cwd E) segs.
Hypothesis prefix_plain : occurs "/" prefix = false.
Hypothesis id_plain : occurs "/" (uuid E (uuids w)) = false.

Let dir := Football.UPLOADS_DIR E.
Let name (suffix : string) := prefix +:+ uuid E (uuids w) +:+ suffix.
Let p1 := join dir (name "_landscape.jpg").
Let p2 := join dir (name "_portrait.jpg").
Let p3 := join dir (name "_square.jpg").

Lemma name_plain suffix :
  In suffix ["_landscape.jpg"; "_portrait.jpg"; "_square.jpg"] ->
  plain (name suffix).
Proof.
  intros Hin. apply artifact_plain; try assumption;
    destruct Hin as [ <- | [ <- | [ <- | [] ] ] ]; (reflexivity || cbn; lia).
Qed.

Lemma names_apart s1 s2 :
  In s1 ["_landscape.jpg"; "_portrait.jpg"; "_square.jpg"] ->
  In s2 ["_landscape.jpg"; "_portrait.jpg"; "_square.jpg"] ->
  s1 <> s2 -> join dir (name s1) <> join dir (name s2).
Proof.
  intros H1 H2 Hne Heq. apply Hne.
  destruct (join_uploads E segs (name s1) cwd_absolute (name_plain s1 H1))
    as (E1 & _).
  destruct (join_uploads E segs (name s2) cwd_absolute (name_plain s2 H2))
    as (E2 & _).
  fold dir in E1, E2. rewrite E1, E2 in Heq.
  apply app_same_prefix, app_same_prefix in Heq. unfold name in Heq.
  now apply app_same_prefix, app_same_prefix in Heq.
Qed.

(** The second half of a handler in link mode, once it has returned: a
    session id, three saves, the reply. *)
Lemma links_saved reply w' :
  (let* sessionId := randomUUID E in
   let* landscapeLink :=
     Football.saveImageAndGetLink E L
       (prefix +:+ sessionId +:+ "_landscape.jpg") request in
   let* portraitLink :=
     Football.saveImageAndGetLink E P
       (prefix +:+ sessionId +:+ "_portrait.jpg") request in
   let* squareLink :=
     Football.saveImageAndGetLink E S
       (prefix +:+ sessionId +:+ "_square.jpg") request in
   let downloads :=
     JObj [ ("landscape", JStr landscapeLink);
            ("portrait", JStr portraitLink);
            ("square", JStr squareLink) ] in
   send 200 (Json (JObj
     [ ("success", JBool true);
       ("downloads", downloads);
       ("message", JStr message);
       ("expiresIn", JStr "1 hour") ]))) w
  = (inr reply, w') ->
  payload_field "downloads" reply
  = Some (JObj
      [ ("landscape", JStr (link_to request (name "_landscape.jpg")));
        ("portrait", JStr (link_to request (name "_portrait.jpg")));
        ("square", JStr (link_to request (name "_square.jpg"))) ])
  /\ fs w' = <[p3 := File S]> (<[p2 := File P]> (<[p1 := File L]>
               (ensured dir (fs w)))).
Proof.
  intros Hrun.
  assert (In1 : In "_landscape.jpg"
                  ["_landscape.jpg"; "_portrait.jpg"; "_square.jpg"])
    by (cbn; auto).
  assert (In2 : In "_portrait.jpg"
                  ["_landscape.jpg"; "_portrait.jpg"; "_square.jpg"])
    by (cbn; auto).
  assert (In3 : In "_square.jpg"
                  ["_landscape.jpg"; "_portrait.jpg"; "_square.jpg"])
    by (cbn; auto).
  destruct (join_uploads E segs _ cwd_absolute (name_plain _ In1))
    as (_ & Hd & _ & N1).
  destruct (join_uploads E segs _ cwd_absolute (name_plain _ In2))
    as (_ & _ & _ & N2).
  fold dir in Hd, N1, N2. fold p1 in N1. fold p2 in N2.
  apply bind_inv in Hrun as (id & w0 & Hid & Hrun).
  apply bind_inv in Hrun as (l1 & w1 & H1 & Hrun).
  apply bind_inv in Hrun as (l2 & w2 & H2 & Hrun).
  apply bind_inv in Hrun as (l3 & w3 & H3 & Hrun).
  unfold randomUUID, bind, get, modify, ret in Hid. injection Hid as <- <-.
  apply save_done in H1 as (-> & Fs1 & _).
  apply save_done in H2 as (-> & Fs2 & _).
  apply save_done in H3 as (-> & Fs3 & _).
  apply send_returned in Hrun as [-> ->].
  fold dir in Fs1, Fs2, Fs3. fold (name "_landscape.jpg") in Fs1.
  fold (name "_portrait.jpg") in Fs2. fold (name "_square.jpg") in Fs3.
  fold p1 in Fs1. fold p2 in Fs2. fold p3 in Fs3.
  cbn [fs set_uuids] in Fs1.
  rewrite Fs1, ensured_again in Fs2;
    [|exact Hd|exact N1|now apply ensured_ready].
  rewrite Fs2, ensured_again in Fs3; [|exact Hd|exact N2|].
  2: { rewrite lookup_insert_ne by congruence. now apply ensured_ready. }
  split; [reflexivity|exact Fs3].
Qed.

End Links.

(** The artifacts of a request: format and canvas. *)
Definition artifacts (g : Generation) : list (string * (Z * Z)) :=
  match g with
  | GenerateFootballHtml _ => [("portrait", (1080, 1920))]
  | _ => [("landscape", (1920, 1080)); ("portrait", (1080, 1920));
          ("square", (1080, 1080))]
  end.

Definition artifact_prefix (g : Generation) : string :=
  match g with
  | GenerateImages _ => "movie_"
  | GenerateFootballSchedule _ => "football_"
  | GenerateFootballHtml _ => "football_html_"
  end.

Definition artifact_name (g : Generation) (id format : string) : string :=
  artifact_prefix g +:+ id +:+ "_" +:+ format +:+ ".jpg".

(** The link of a format in a reply. *)
Definition link_of (g : Generation) (format : string) (r : Reply)
  : option json :=
  match g with
  | GenerateFootballHtml _ => payload_field "download" r
  | _ =>
      match payload_field "downloads" r with
      | Some (JObj fields) => field format fields
      | _ => None
      end
  end.

Lemma stat_file files path (buf : Buffer) :
  ends_with_slash path = false -> files !! path = Some (File buf) ->
  stat files path = Some (File buf).
Proof. intros Hs Hl. unfold stat. now rewrite Hs. Qed.

Section Downloads.
Context (E : Env) (request : Request) (segs : list string) (w : World).
Hypothesis cwd_absolute : absolute (cwd E) segs.
Hypothesis id_plain : occurs "/" (uuid E (uuids w)) = false.

(** The three files of a three-format route, once the handler is done. *)
Lemma three_downloads prefix L P S base w' :
  occurs "/" prefix = false ->
  let dir := Football.UPLOADS_DIR E in
  let name suffix := prefix +:+ uuid E (uuids w) +:+ suffix in
  fs w' = <[join dir (name "_square.jpg") := File S]>
            (<[join dir (name "_portrait.jpg") := File P]>
               (<[join dir (name "_landscape.jpg") := File L]> base)) ->
  stat (fs w') (join dir (name "_landscape.jpg")) = Some (File L)
  /\ stat (fs w') (join dir (name "_portrait.jpg")) = Some (File P)
  /\ stat (fs w') (join dir (name "_square.jpg")) = Some (File S).
Proof.
  intros Hprefix dir name Hfs. subst dir name. cbn beta in *.
  assert (In1 : In "_landscape.jpg"
                  ["_landscape.jpg"; "_portrait.jpg"; "_square.jpg"])
    by (cbn; auto).
  assert (In2 : In "_portrait.jpg"
                  ["_landscape.jpg"; "_portrait.jpg"; "_square.jpg"])
    by (cbn; auto).
  assert (In3 : In "_square.jpg"
                  ["_landscape.jpg"; "_portrait.jpg"; "_square.jpg"])
    by (cbn; auto).
  pose proof (names_apart E segs prefix w cwd_absolute Hprefix id_plain
                _ _ In1 In2 ltac:(discriminate)) as A12.
  pose proof (names_apart E segs prefix w cwd_absolute Hprefix id_plain
                _ _ In1 In3 ltac:(discriminate)) as A13.
  pose proof (names_apart E segs prefix w cwd_absolute Hprefix id_plain
                _ _ In2 In3 ltac:(discriminate)) as A23.
  pose proof (fun s Hs =>
                proj1 (proj2 (proj2 (join_uploads E segs _ cwd_absolute
                  (name_plain E prefix w Hprefix id_plain s Hs))))) as Hslash.
  cbv zeta in Hslash.
  split; [|split]; apply stat_file; try (now apply Hslash); rewrite Hfs.
  - rewrite !lookup_insert_ne by congruence. apply lookup_insert_eq.
  - rewrite lookup_insert_ne by congruence. apply lookup_insert_eq.
  - apply lookup_insert_eq.
Qed.

End Downloads.

#[local] Ltac served Hdet Hrun Hstat :=
  eexists;
  split; [exact (determinate_run _ _ _ _ (Hdet _ _) Hrun)|];
  intros ?; apply download_file; exact Hstat.

(** X13. A generation request that is answered with status 200 and was
    not made with [base64=true] can be collected: for each format of the
    route the reply carries the link [protocol://host/api/download/<name>],
    and [GET /download/<name>], asked in the state that the request leaves
    behind, answers 200 with exactly the image that rendering the body at
    that format gives.  The working directory is taken to be an absolute
    path of plain segments and the session id to have no separator. *)
Theorem links_lead_to_the_images E request g raw w segs reply w' :
  serve E request g raw w = (inr reply, w') -> code reply = 200 ->
  raw_base64 raw <> QString "true" ->
  absolute (cwd E) segs -> occurs "/" (uuid E (uuids w)) = false ->
  let id := uuid E (uuids w) in
  forall format width height,
    In (format, (width, height)) (artifacts g) ->
    link_of g format reply
    = Some (JStr (link_to request (artifact_name g id format)))
    /\ exists image,
         rendered (renderer E g) width height image
         /\ forall request',
              exists r w'',
                get_download E request' (artifact_name g id format) w'
                = (inr r, w'')
                /\ code r = 200 /\ payload r = Bytes image.
Proof.
  intros Hrun Hcode Hb Habs Hid id.
  assert (Hhandle : exists f, handle E request g (mkQuery false f) w
                              = (inr reply, w')).
  { destruct g as [body|body|body]; cbn [serve] in Hrun;
      unfold post_generate_images, post_generate_football_schedule,
        post_generate_football_html in Hrun;
      apply route_inv in Hrun as (q & Eq & Hrun); try exact Hcode;
      pose proof (base64_flag raw q Eq) as Hflag;
      destruct q as [[] f]; cbn [base64] in Hflag;
      try (exfalso; apply Hb; now apply Hflag);
      now exists f. }
  destruct Hhandle as [f Hhandle]. clear Hrun.
  destruct g as [body|body|body]; cbn [handle renderer] in *.
  - unfold Movie.generate_images in Hhandle. enter Hhandle.
    apply try_catch_inv in Hhandle as [Hrun|(e & w0 & _ & Hh)];
      [|failed_handler Hh Hcode].
    apply bind_inv in Hrun as (L & w1 & EL & Hrun).
    apply bind_inv in Hrun as (P & w2 & EP & Hrun).
    apply bind_inv in Hrun as (S & w3 & ES & Hrun).
    pose proof (steady_run _ _ _ _ (movie_image_steady E body _ _) EL) as F1.
    pose proof (steady_run _ _ _ _ (movie_image_steady E body _ _) EP) as F2.
    pose proof (steady_run _ _ _ _ (movie_image_steady E body _ _) ES) as F3.
    assert (Fid : uuids w3 = uuids w)
      by (rewrite (frame_uuids _ _ F3), (frame_uuids _ _ F2),
            (frame_uuids _ _ F1); reflexivity).
    assert (Hid3 : occurs "/" (uuid E (uuids w3)) = false)
      by now rewrite Fid.
    cbn [base64 Bool.eqb] in Hrun.
    apply (links_saved E request segs "movie_" _ L P S w3 Habs eq_refl Hid3)
      in Hrun as [Hlinks Hfs].
    rewrite Fid in Hlinks, Hfs.
    destruct (three_downloads E segs w Habs Hid "movie_" L P S _ w' eq_refl Hfs)
      as (D1 & D2 & D3).
    pose proof (movie_image_determinate E body) as Hdet.
    intros format width height
      [[= <- <- <-]|[[= <- <- <-]|[[= <- <- <-]|[]]]];
      (split; [unfold link_of; rewrite Hlinks; reflexivity|]);
      [served Hdet EL D1|served Hdet EP D2|served Hdet ES D3].
  - unfold Football.generate_football_schedule in Hhandle. enter Hhandle.
    apply try_catch_inv in Hhandle as [Hrun|(e & w0 & _ & Hh)];
      [|failed_handler Hh Hcode].
    apply bind_inv in Hrun as (L & w1 & EL & Hrun).
    apply bind_inv in Hrun as (P & w2 & EP & Hrun).
    apply bind_inv in Hrun as (S & w3 & ES & Hrun).
    pose proof (steady_run _ _ _ _ (football_image_steady E body _ _) EL)
      as F1.
    pose proof (steady_run _ _ _ _ (football_image_steady E body _ _) EP)
      as F2.
    pose proof (steady_run _ _ _ _ (football_image_steady E body _ _) ES)
      as F3.
    assert (Fid : uuids w3 = uuids w)
      by (rewrite (frame_uuids _ _ F3), (frame_uuids _ _ F2),
            (frame_uuids _ _ F1); reflexivity).
    assert (Hid3 : occurs "/" (uuid E (uuids w3)) = false)
      by now rewrite Fid.
    cbn [base64 Bool.eqb] in Hrun.
    apply (links_saved E request segs "football_" _ L P S w3 Habs eq_refl Hid3)
      in Hrun as [Hlinks Hfs].
    rewrite Fid in Hlinks, Hfs.
    destruct (three_downloads E segs w Habs Hid "football_" L P S _ w'
                eq_refl Hfs) as (D1 & D2 & D3).
    pose proof (football_image_determinate E body) as Hdet.
    intros format width height
      [[= <- <- <-]|[[= <- <- <-]|[[= <- <- <-]|[]]]];
      (split; [unfold link_of; rewrite Hlinks; reflexivity|]);
      [served Hdet EL D1|served Hdet EP D2|served Hdet ES D3].
  - unfold FootballHtml.generate_football_html in Hhandle. enter Hhandle.
    apply try_catch_inv in Hhandle as [Hrun|(e & w0 & _ & Hh)];
      [|failed_handler Hh Hcode].
    apply bind_inv in Hrun as (image & w1 & Eimage & Hrun).
    pose proof (steady_run _ _ _ _ (html_image_steady E _ _ _) Eimage) as F1.
    cbn [base64 Bool.eqb] in Hrun.
    apply bind_inv in Hrun as (sessionId & w2 & Huuid & Hrun).
    apply bind_inv in Hrun as (link & w3 & Hsave & Hrun).
    unfold randomUUID, bind, get, modify, ret in Huuid.
    injection Huuid as <- <-.
    rewrite (frame_uuids _ _ F1) in Hsave. cbn [uuids set_out_headers] in Hsave.
    fold id in Hsave.
    apply save_done in Hsave as (-> & Hfs & _).
    apply send_returned in Hrun as [-> ->].
    assert (Hname : plain ("football_html_" +:+ id +:+ "_portrait.jpg")).
    { apply artifact_plain; (reflexivity || assumption || cbn; lia). }
    destruct (join_uploads E segs _ Habs Hname) as (_ & _ & Hslash & _).
    intros format width height [[= <- <- <-]|[]].
    split; [reflexivity|]. exists image. split.
    + exact (determinate_run _ _ _ _ (html_image_determinate E _ _ _) Eimage).
    + intros request'. apply download_file. apply stat_file; [exact Hslash|].
      cbn [fs set_out_headers]. rewrite Hfs. apply lookup_insert_eq.
Qed.

Lemma links_lead_to_the_images_witness :
  exists reply w' r w'',
    serve Sample.offline Sample.request
      (GenerateFootballSchedule Sample.one_game) Sample.no_flags Sample.boot
    = (inr reply, w')
    /\ code reply = 200
    /\ link_of (GenerateFootballSchedule Sample.one_game) "portrait" reply
       = Some (JStr
           "http://example.org/api/download/football_session0_portrait.jpg")
    /\ get_download Sample.offline Sample.request
         "football_session0_portrait.jpg" w' = (inr r, w'')
    /\ code r = 200.
Proof.
  eassert (Hrun : serve Sample.offline Sample.request
                    (GenerateFootballSchedule Sample.one_game) Sample.no_flags
                    Sample.boot = (inr _, _))
    by (vm_compute; reflexivity).
  destruct (links_lead_to_the_images Sample.offline Sample.request
              (GenerateFootballSchedule Sample.one_game) Sample.no_flags
              Sample.boot ["srv"; "app"] _ _ Hrun)
    with (format := "portrait") (width := 1080) (height := 1920)
    as (Hlink & image & _ & Hget).
  - reflexivity.
  - discriminate.
  - split; [|reflexivity].
    repeat constructor; (discriminate || reflexivity).
  - reflexivity.
  - cbn. auto.
  - destruct (Hget Sample.request) as (r & w'' & Hdown & Hr & _).
    eexists _, _, r, w''. split; [exact Hrun|].
    repeat split; assumption.
Defined.

End StoreFacts.

(** ** The text of the overlays *)

Module OverlayFacts.
Import Js Xml Sys Markup StringFacts MarkupFacts WrapFacts.

Lemma user_texts_concat_imap {A} (f : nat -> A -> list frag)
  (g : A -> list string) (l : list A) :
  (forall i x, user_texts (f i x) = g x) ->
  user_texts (concat (imap f l)) = flat_map g l.
Proof.
  intros H. revert f H. induction l as [|x l IH]; intros f H; [reflexivity|].
  cbn [imap concat flat_map]. rewrite user_texts_app, H. f_equal.
  apply IH. intros i y. apply H.
Qed.

Lemma user_texts_fold {A} (step : list frag * Q -> A -> list frag * Q)
  (g : A -> list string) (lines : list A) :
  (forall acc x,
     user_texts (fst (step acc x)) = (user_texts (fst acc) ++ g x)%list) ->
  forall acc,
    user_texts (fst (fold_left step lines acc))
    = (user_texts (fst acc) ++ flat_map g lines)%list.
Proof.
  intros H. induction lines as [|x lines IH]; intros acc.
  - cbn. now rewrite app_nil_r.
  - cbn [fold_left flat_map]. now rewrite IH, H, <- app_assoc.
Qed.

Lemma flat_map_singleton {A B} (f : A -> B) (l : list A) :
  flat_map (fun x => [f x]) l = map f l.
Proof. induction l as [|x l IH]; [reflexivity|]. cbn. now rewrite IH. Qed.

Lemma firstn_min {A} (l : list A) n :
  firstn (Nat.min (length l) n) l = firstn n l.
Proof.
  destruct (Nat.le_ge_cases n (length l)) as [H|H].
  - now rewrite Nat.min_r.
  - rewrite Nat.min_l by exact H.
    now rewrite firstn_all, firstn_all2.
Qed.

(** A text field that is given and not empty. *)
Definition shown (field : option string) : list string :=
  match field with
  | Some (String a rest) => [escapeXml (String a rest)]
  | _ => []
  end.

Section WithEnv.
Context (E : Env).

Lemma channel_display_texts centerX gameY canais size :
  user_texts (Football.createChannelDisplay centerX gameY canais size)
  = map (fun canal => escapeXml (Football.channelName canal))
      (firstn 3 canais).
Proof.
  unfold Football.createChannelDisplay. destruct canais as [|c cs];
    [reflexivity|].
  cbv zeta. rewrite !user_texts_app.
  rewrite (user_texts_concat_imap _
             (fun canal => [escapeXml (Football.channelName canal)]))
    by reflexivity.
  rewrite flat_map_singleton, firstn_min.
  cbn [user_texts app].
  destruct (_ <? _)%nat; cbn [user_texts]; now rewrite app_nil_r.
Qed.

(** The texts that one game contributes. *)
Definition game_texts (jogo : Football.Jogo) : list string :=
  escapeXml (Football.horario jogo)
  :: escapeXml (toUpperCase E (Football.timeHome jogo))
  :: escapeXml (toUpperCase E (Football.timeAway jogo))
  :: map (fun canal => escapeXml (Football.channelName canal))
       (firstn 3 (default [] (Football.canais jogo))).

Lemma game_section_texts width gameY index jogo teamSize timeSize channelSize :
  user_texts (Football.createGameSection E width gameY index jogo
                teamSize timeSize channelSize)
  = game_texts jogo.
Proof.
  unfold Football.createGameSection, game_texts. cbv zeta.
  rewrite !user_texts_app.
  cbn [Football.createGameCard Football.createTimeDisplay
       Football.createTeamDisplay Football.createVsSymbol user_texts app].
  do 3 f_equal.
  destruct (Football.canais jogo) as [[|c cs]|]; try reflexivity.
  apply channel_display_texts.
Qed.

(** X14. The text of the SVG overlay of footballGenerate.ts does not depend
    on the canvas: at every width and height it is the escaped date, then for
    each game, in order, its time, the two team names in upper case and the
    names of at most its first three channels, then the WhatsApp contact
    when one is given. *)
Theorem football_overlay_texts width height data jogos whatsapp :
  user_texts (Football.createFootballScheduleOverlay E width height data
                jogos whatsapp)
  = (escapeXml data :: flat_map game_texts jogos ++ shown whatsapp)%list.
Proof.
  unfold Football.createFootballScheduleOverlay. cbv zeta.
  rewrite !user_texts_app.
  rewrite (user_texts_concat_imap _ game_texts)
    by (intros i jogo; apply game_section_texts).
  cbn [Football.createHeader user_texts app]. f_equal. f_equal.
  unfold Football.WATERMARK_ENABLED, shown.
  destruct whatsapp as [[|a rest]|]; cbn; reflexivity.
Qed.

(** X15. The overlay of movieGenerate.ts shows the whole title and the
    whole description, whatever the canvas and the font sizes: its texts are
    the escaped lines of the wrapped title, those of the wrapped description
    and the contacts that are given, and the lines of each hold every
    character of the field other than spaces, in order. *)
Theorem movie_overlay_texts totalWidth totalHeight contentX contentY
  contentWidth titulo descricao contato whatsapp titleSize descSize metaSize :
  exists titleLines descLines,
    user_texts (Movie.createAdvancedTextOverlay totalWidth totalHeight
                  contentX contentY contentWidth titulo descricao contato
                  whatsapp titleSize descSize metaSize)
    = (map escapeXml titleLines ++ map escapeXml descLines
       ++ shown contato ++ shown whatsapp)%list
    /\ squeeze (String.concat EmptyString titleLines) = squeeze titulo
    /\ squeeze (String.concat EmptyString descLines) = squeeze descricao.
Proof.
  exists (Movie.wrapText titulo (Qfloor (contentWidth / (titleSize * 0.6)))),
    (Movie.wrapText descricao (Qfloor (contentWidth / (descSize * 0.6)))).
  split; [|split; apply wrapText_letters].
  unfold Movie.createAdvancedTextOverlay, Movie.WATERMARK_ENABLED. cbv zeta.
  match goal with
  | |- context [fold_left ?step ?lines (?init, ?y)] =>
      pose proof (user_texts_fold step (fun line => [escapeXml line]) lines)
        as Htitle;
      specialize (Htitle ltac:(intros [svg y0] x; cbn [fst];
                               now rewrite user_texts_app) (init, y));
      destruct (fold_left step lines (init, y)) as [svg1 y1]
  end.
  cbn [fst user_texts app] in Htitle.
  match goal with
  | |- context [fold_left ?step ?lines (svg1, ?y)] =>
      pose proof (user_texts_fold step (fun line => [escapeXml line]) lines)
        as Hdesc;
      specialize (Hdesc ltac:(intros [svg y0] x; cbn [fst];
                              now rewrite user_texts_app) (svg1, y));
      destruct (fold_left step lines (svg1, y)) as [svg2 y2]
  end.
  cbn [fst] in Hdesc. rewrite Htitle in Hdesc.
  rewrite !flat_map_singleton in Hdesc.
  destruct contato as [[|a contato]|]; destruct whatsapp as [[|b whatsapp]|];
    rewrite !user_texts_app, ?Hdesc; cbn [user_texts shown app];
    rewrite ?app_nil_r, <- ?app_assoc; reflexivity.
Qed.

(** *** The page of the markup route *)

(** A text field that is given and not empty, as it is. *)
Definition raw (field : option string) : list string :=
  match field with
  | Some (String a rest) => [String a rest]
  | _ => []
  end.

(** The texts that one game contributes to the page. *)
Definition raw_game_texts (jogo : Football.Jogo) : list string :=
  Football.horario jogo
  :: Football.timeHome jogo
  :: toUpperCase E (Football.timeHome jogo)
  :: toUpperCase E (Football.timeAway jogo)
  :: Football.timeAway jogo
  :: flat_map (fun canal => [Football.channelName canal;
                             Football.channelName canal])
       (firstn 3 (default [] (Football.canais jogo))).

Lemma user_texts_concat_map {A} (f : A -> list frag) (g : A -> list string)
  (l : list A) :
  (forall x, user_texts (f x) = g x) ->
  user_texts (concat (map f l)) = flat_map g l.
Proof.
  intros H. induction l as [|x l IH]; [reflexivity|].
  cbn [map concat flat_map]. now rewrite user_texts_app, H, IH.
Qed.

(** X23. Every text that the page of footballGenerateHtml.ts takes from
    the request is spliced in as it is, none is escaped: the date (in the
    title, in the [datetime] attribute and in the header), the background
    colour in the style sheet when no background image is given, for each
    game its time and the two team names (in an [alt] attribute and, in
    upper case, in a heading), the names of its first three channels (in an
    [alt] attribute and in a [span]), and the WhatsApp contact. *)
Theorem html_page_texts (b : Football.ScheduleBody) :
  user_texts (FootballHtml.generateHTML E b)
  = (Football.data b
     :: (if truthy (Football.fundoUrl b) then [] else raw (Football.corFundo b))
     ++ [Football.data b; Football.data b]
     ++ flat_map raw_game_texts (Football.jogos b)
     ++ raw (Football.whatsapp b))%list.
Proof.
  unfold FootballHtml.generateHTML. cbv zeta.
  rewrite !user_texts_app.
  rewrite (user_texts_concat_imap _ raw_game_texts).
  2: { intros i jogo. unfold raw_game_texts. cbv zeta.
       assert (Hitems : forall cs : list Football.Canal,
                 user_texts (concat (map (fun canal =>
                   [Lit (markup "
						<div class=`channel-item` role=`text`>
							<img src=`");
                    UserUrl (Football.logoUrl canal);
                    Lit (markup "` alt=`Logo ");
                    UserText (Football.channelName canal);
                    Lit (markup "` class=`channel-logo` />
							<span class=`channel-name`>");
                    UserText (Football.channelName canal);
                    Lit "</span>
						</div>
					"]) cs))
                 = flat_map (fun canal => [Football.channelName canal;
                                           Football.channelName canal]) cs).
       { intros cs. now apply user_texts_concat_map. }
       destruct (Football.canais jogo) as [[|c cs]|];
         rewrite !user_texts_app, ?Hitems; cbn [default];
         destruct (_ && _); try destruct (_ <? _)%nat;
         cbn [user_texts app firstn flat_map]; now rewrite ?app_nil_r. }
  assert (Hcss : user_texts (FootballHtml.generateCSS b)
                 = if truthy (Football.fundoUrl b) then []
                   else raw (Football.corFundo b)).
  { unfold FootballHtml.generateCSS. cbv zeta. rewrite !user_texts_app.
    destruct (Football.fundoUrl b) as [[|a u]|];
      destruct (Football.corFundo b) as [[|c col]|]; reflexivity. }
  rewrite Hcss. unfold FootballHtml.WATERMARK_ENABLED.
  cbn [user_texts app].
  destruct (Football.whatsapp b) as [[|a rest]|]; cbn [user_texts raw app];
    rewrite ?app_nil_r; reflexivity.
Qed.

End WithEnv.

End OverlayFacts.

(** ** When rendering fails *)

Module FailureFacts.
Import Js Sys Http App Logic Effects RenderFacts Total ServeFacts.

(** The routes that compose their images with the imaging library, in
    three formats. *)
Definition composed (g : Generation) : bool :=
  match g with
  | GenerateFootballHtml _ => false
  | _ => true
  end.

Definition formats : list (Z * Z) := [(1920, 1080); (1080, 1920); (1080, 1080)].

(** Rendering at [width] x [height] throws [e]. *)
Definition throws (render : Z -> Z -> M Buffer) (width height : Z) (e : exn)
  : Prop :=
  exists w w1, render width height w = (inl e, w1).

(** Running the three renderings in order from [w], one of them throws
    [e], in the world [w1]. *)
Definition first_failure (render : Z -> Z -> M Buffer) (w : World) (e : exn)
  (w1 : World) : Prop :=
  render 1920 1080 w = (inl e, w1)
  \/ exists L wL,
       render 1920 1080 w = (inr L, wL)
       /\ (render 1080 1920 wL = (inl e, w1)
           \/ exists P wP,
                render 1080 1920 wL = (inr P, wP)
                /\ render 1080 1080 wP = (inl e, w1)).

Lemma bind_fail {A B} (m : M A) (k : A -> M B) w e w1 :
  m w = (inl e, w1) -> bind m k w = (inl e, w1).
Proof. intros H. unfold bind. now rewrite H. Qed.

Lemma try_fail {A} (body : M A) (h : exn -> M A) w e w1 :
  body w = (inl e, w1) -> try_catch body h w = h e w1.
Proof. intros H. unfold try_catch. now rewrite H. Qed.

Lemma renderer_determinate E g width height :
  determinate (renderer E g width height).
Proof.
  destruct g; cbn [renderer];
    [apply movie_image_determinate|apply football_image_determinate
    |apply html_image_determinate].
Qed.

Lemma first_failure_frame E g w e w1 :
  first_failure (renderer E g) w e w1 -> frame w w1.
Proof.
  intros [H|(L & wL & HL & [H|(P & wP & HP & H)])].
  - exact (steady_run _ _ _ _ (renderer_steady E g _ _) H).
  - eapply frame_trans;
      [exact (steady_run _ _ _ _ (renderer_steady E g _ _) HL)|].
    exact (steady_run _ _ _ _ (renderer_steady E g _ _) H).
  - eapply frame_trans;
      [exact (steady_run _ _ _ _ (renderer_steady E g _ _) HL)|].
    eapply frame_trans;
      [exact (steady_run _ _ _ _ (renderer_steady E g _ _) HP)|].
    exact (steady_run _ _ _ _ (renderer_steady E g _ _) H).
Qed.

(** What a first failure is the failure of. *)
Lemma first_failure_throws render w e w1 :
  first_failure render w e w1 ->
  exists width height, In (width, height) formats /\ throws render width height e.
Proof.
  unfold throws, formats.
  intros [H|(L & wL & HL & [H|(P & wP & HP & H)])];
    [exists 1920, 1080|exists 1080, 1920|exists 1080, 1080];
    (split; [cbn; auto|eauto]).
Qed.

(** A format that throws cannot be rendered in any state of the world, so
    a run of the three renderings does not get past it. *)
Lemma some_failure_first E g width height e w :
  In (width, height) formats -> throws (renderer E g) width height e ->
  exists e' w1, first_failure (renderer E g) w e' w1.
Proof.
  intros Hin (w0 & w0' & Hthrow).
  assert (Hnever : forall w2 image w3,
            renderer E g width height w2 <> (inr image, w3)).
  { intros w2 image w3 H.
    pose proof (determinate_run _ _ _ _ (renderer_determinate E g _ _) H w0)
      as Hfst.
    rewrite Hthrow in Hfst. discriminate. }
  unfold first_failure.
  destruct (renderer E g 1920 1080 w) as [[eL|L] wL] eqn:HL;
    [exists eL, wL; now left|].
  destruct (renderer E g 1080 1920 wL) as [[eP|P] wP] eqn:HP;
    [exists eP, wP; right; exists L, wL; split; [reflexivity|now left]|].
  destruct (renderer E g 1080 1080 wP) as [[eS|S] wS] eqn:HS;
    [exists eS, wS; right; exists L, wL; split; [reflexivity|];
     right; exists P, wP; now split|].
  exfalso.
  destruct Hin as [[= <- <-]|[[= <- <-]|[[= <- <-]|[]]]].
  - exact (Hnever _ _ _ HL).
  - exact (Hnever _ _ _ HP).
  - exact (Hnever _ _ _ HS).
Qed.

(** X16. On the two routes that compose their images, when the rendering
    of one of the three formats throws, the handler answers 500 with
    [success: false] and the message of an error that one of the renderings
    has thrown, in either mode, and nothing has been written or scheduled:
    the renderings all come before the first save.  (Which rendering's error
    is reported, when more than one throws, is left open.) *)
Theorem failed_rendering_is_500 E request g q w width height e :
  composed g = true ->
  In (width, height) formats -> throws (renderer E g) width height e ->
  exists reply w',
    handle E request g q w = (inr reply, w')
    /\ code reply = 500
    /\ payload_field "success" reply = Some (JBool false)
    /\ (exists width' height' e',
          In (width', height') formats
          /\ throws (renderer E g) width' height' e'
          /\ payload_field "message" reply = Some (JStr (message e')))
    /\ fs w' = fs w /\ timers w' = timers w
    /\ writes (trace w') = writes (trace w).
Proof.
  intros Hg Hin Hthrow.
  set (w0 := set_out_headers (fun _ => []) w).
  destruct (some_failure_first E g width height e w0 Hin Hthrow)
    as (e' & w1 & Hfail).
  pose proof (first_failure_frame E g w0 e' w1 Hfail) as [Ffs Ft _ Fh Fw _].
  destruct (first_failure_throws _ _ _ _ Hfail)
    as (width' & height' & Hin' & Hthrow').
  assert (Hbody : forall (k : Buffer -> Buffer -> Buffer -> M Reply),
            (let* L := renderer E g 1920 1080 in
             let* P := renderer E g 1080 1920 in
             let* S := renderer E g 1080 1080 in k L P S) w0 = (inl e', w1)).
  { intros k. destruct Hfail as [H|(L & wL & HL & [H|(P & wP & HP & H)])].
    - now apply bind_fail.
    - rewrite (bind_ok _ _ _ _ _ HL). now apply bind_fail.
    - rewrite (bind_ok _ _ _ _ _ HL), (bind_ok _ _ _ _ _ HP).
      now apply bind_fail. }
  destruct g as [body|body|body]; [| |discriminate Hg];
    cbn [handle renderer] in *;
    unfold Movie.generate_images, Football.generate_football_schedule;
    unfold bind at 1, new_reply, modify; fold w0;
    rewrite (try_fail _ _ _ _ _ (Hbody _));
    match goal with
    | |- context [bind (logger ?level ?text) (fun _ => send ?c ?p) w1] =>
        destruct (catch_answers level text c p w1 Fh)
          as (hs & w' & -> & Hfs & Htimers & Hwrites)
    end;
    eexists _, w'; (split; [reflexivity|]);
    (split; [reflexivity|]); (split; [reflexivity|]);
    (split; [exists width', height', e'; auto|]);
    rewrite Hfs, Htimers, Hwrites, Ffs, Ft, Fw; auto.
Qed.

(** An environment whose compositor rejects everything. *)
Definition no_compositor : Env :=
  mkEnv (cwd Sample.offline) (fetch_result Sample.offline) Sample.resize
    (fun _ _ _ _ => None) None (uuid Sample.offline) (random8 Sample.offline)
    (latency Sample.offline) (is_url Sample.offline)
    (toUpperCase Sample.offline) (toLowerCase Sample.offline)
    (parseInt16 Sample.offline) (show_number Sample.offline).

Lemma failed_rendering_is_500_witness :
  exists reply w',
    handle no_compositor Sample.request
      (GenerateFootballSchedule Sample.one_game) (mkQuery false false)
      Sample.boot = (inr reply, w')
    /\ code reply = 500
    /\ payload_field "success" reply = Some (JBool false)
    /\ fs w' = fs Sample.boot.
Proof.
  eassert (Hfail : Football.createFootballScheduleImage no_compositor
                     Sample.one_game 1080 1080 Sample.boot
                   = (inl (JsError "sharp: composite failed"), _))
    by (vm_compute; reflexivity).
  destruct (failed_rendering_is_500 no_compositor Sample.request
              (GenerateFootballSchedule Sample.one_game) (mkQuery false false)
              Sample.boot 1080 1080 (JsError "sharp: composite failed"))
    as (reply & w' & Hrun & Hcode & Hsuccess & _ & Hfs & _).
  - reflexivity.
  - cbn. auto.
  - eexists _, _. exact Hfail.
  - exists reply, w'. auto 10.
Defined.

End FailureFacts.

(** ** Further edge cases *)

Module RendererFacts.
Import Js Path Sys Http App Logic StringFacts PathFacts DownloadFacts.
Import EscapeLaws Total ServeFacts StoreFacts.

(** X19. [htmlToImage] never throws: it returns the screenshot when a
    browser is installed and takes it (a full-page JPEG, taken with the
    given viewport at device scale factor 2), and the bytes of the markup it
    was given when no browser is installed or the browser fails. *)
Theorem htmlToImage_never_throws E html width height w :
  exists image w',
    FootballHtml.htmlToImage E html width height w = (inr image, w')
    /\ image = match puppeteer E with
               | Some session =>
                   default html
                     (session (mkViewport width height 2) html
                        (mkScreenshotOptions "jpeg" 95 true))
               | None => html
               end.
Proof.
  destruct (html_image_returns E html width height w)
    as (image & w' & Hrun & Himage).
  exists image, w'. split; [exact Hrun|].
  destruct (puppeteer E) as [session|]; [|exact Himage].
  now destruct (session _ html _).
Qed.

(** X20. Under a working directory that is an absolute path of plain
    segments, [path.join(UPLOADS_DIR, name)] is [UPLOADS_DIR/name] for every
    plain file name, and two different plain names never designate the same
    file: artifacts with different names cannot overwrite each other. *)
Theorem plain_names_do_not_collide E segs a b :
  absolute (cwd E) segs -> plain a -> plain b ->
  join (Football.UPLOADS_DIR E) a = Football.UPLOADS_DIR E +:+ "/" +:+ a
  /\ (join (Football.UPLOADS_DIR E) a = join (Football.UPLOADS_DIR E) b ->
      a = b).
Proof.
  intros Habs Ha Hb.
  destruct (join_uploads E segs a Habs Ha) as (Ea & _).
  destruct (join_uploads E segs b Habs Hb) as (Eb & _).
  split; [exact Ea|]. rewrite Ea, Eb. intros H.
  now apply app_same_prefix, app_same_prefix in H.
Qed.

Lemma plain_names_do_not_collide_witness :
  join (Football.UPLOADS_DIR Sample.offline) "a.jpg" = "/srv/app/temp-images/a.jpg"
  /\ (join (Football.UPLOADS_DIR Sample.offline) "a.jpg"
      = join (Football.UPLOADS_DIR Sample.offline) "a.jpg" -> "a.jpg" = "a.jpg").
Proof.
  apply (plain_names_do_not_collide Sample.offline ["srv"; "app"]
           "a.jpg" "a.jpg").
  - split; [repeat constructor; discriminate|reflexivity].
  - repeat split; discriminate.
  - repeat split; discriminate.
Defined.

(** Names that are not plain can share a file. *)
Example other_names_collide :
  join (Football.UPLOADS_DIR Sample.offline) "x/../a.jpg"
  = join (Football.UPLOADS_DIR Sample.offline) "a.jpg".
Proof. reflexivity. Qed.

(** X21. The download route of imageGenerate.ts answers 404, with
    [success: false], for every file name whose file is absent from the
    uploads directory, without touching the file system. *)
Theorem legacy_absent_file_404 E filename w :
  stat (fs w) (join (ImageGenerate.UPLOADS_DIR E) filename) = None ->
  exists reply w',
    ImageGenerate.download E filename w = (inr reply, w')
    /\ code reply = 404
    /\ payload_field "success" reply = Some (JBool false)
    /\ fs w' = fs w.
Proof.
  intros H. run_download. rewrite H. cbn -[send].
  rewrite send_accepted by reflexivity. cbn. eauto 10.
Qed.

Lemma legacy_absent_file_404_witness :
  exists reply w',
    ImageGenerate.download Sample.offline "never_made.jpg" Sample.boot
    = (inr reply, w')
    /\ code reply = 404.
Proof.
  destruct (legacy_absent_file_404 Sample.offline "never_made.jpg" Sample.boot)
    as (reply & w' & Hrun & Hcode & _); [reflexivity|].
  now exists reply, w'.
Defined.

End RendererFacts.

(** ** What a request downloads *)

Module FetchLog.
Import Js Sys Http App Effects RenderFacts Total ServeFacts.

(** The URLs fetched so far. *)
Fixpoint fetches (events : list Event) : list string :=
  match events with
  | [] => []
  | EvFetch url :: rest => url :: fetches rest
  | _ :: rest => fetches rest
  end.

Lemma fetches_app (a b : list Event) :
  fetches (a ++ b) = (fetches a ++ fetches b)%list.
Proof.
  induction a as [|e a IH]; [reflexivity|].
  destruct e; cbn [fetches app]; rewrite ?IH; reflexivity.
Qed.

(** Whenever [m] returns, it has fetched [urls], in this order. *)
Definition logged {A} (m : M A) (urls : list string) : Prop :=
  forall w a w',
    m w = (inr a, w') -> fetches (trace w') = (fetches (trace w) ++ urls)%list.

(** [m] fetches nothing, whether it returns or throws. *)
Definition quiet {A} (m : M A) : Prop :=
  forall w, fetches (trace (snd (m w))) = fetches (trace w).

Lemma quiet_logged {A} (m : M A) : quiet m -> logged m [].
Proof.
  intros H w a w' Hm. specialize (H w). rewrite Hm in H. cbn in H.
  now rewrite app_nil_r.
Qed.

Lemma logged_ret {A} (a : A) : logged (ret a) [].
Proof. intros w a' w' [= _ <-]. now rewrite app_nil_r. Qed.

Lemma logged_bind {A B} (m : M A) (k : A -> M B) u1 u2 :
  logged m u1 -> (forall a, logged (k a) u2) ->
  logged (bind m k) (u1 ++ u2).
Proof.
  intros Hm Hk w b w' H. apply bind_inv in H as (a & w1 & Ha & Hb).
  rewrite (Hk _ _ _ _ Hb), (Hm _ _ _ Ha). now rewrite app_assoc.
Qed.

Lemma logged_bind_quiet {A B} (m : M A) (k : A -> M B) u :
  quiet m -> (forall a, logged (k a) u) -> logged (bind m k) u.
Proof.
  intros Hm Hk. change u with ([] ++ u)%list.
  apply logged_bind; [now apply quiet_logged|exact Hk].
Qed.

(** A [try] whose [catch] clause throws again. *)
Lemma logged_rethrow {A} (body : M A) (h : exn -> M A) u :
  logged body u -> (forall e w, exists e' w', h e w = (inl e', w')) ->
  logged (try_catch body h) u.
Proof.
  intros Hb Hh w a w' H. unfold try_catch in H.
  destruct (body w) as [[e|a0] w1] eqn:Eb.
  - destruct (Hh e w1) as (e' & w2 & Hf). congruence.
  - injection H as <- <-. exact (Hb _ _ _ Eb).
Qed.

Lemma logged_for_each {A S} (g : A -> list string) (xs : list A)
  (body : S -> A -> M S) :
  (forall acc x, logged (body acc x) (g x)) ->
  forall acc, logged (for_each xs acc body) (flat_map g xs).
Proof.
  intros H. induction xs as [|x xs IH]; intros acc; cbn [for_each flat_map].
  - apply logged_ret.
  - apply logged_bind; [apply H|intros acc'; apply IH].
Qed.

Lemma quiet_ret {A} (a : A) : quiet (ret a).
Proof. now intros w. Qed.

Lemma quiet_throw {A} e : quiet (@throw A e).
Proof. now intros w. Qed.

Lemma quiet_bind {A B} (m : M A) (k : A -> M B) :
  quiet m -> (forall a, quiet (k a)) -> quiet (bind m k).
Proof.
  intros Hm Hk w. unfold bind. specialize (Hm w).
  destruct (m w) as [[e|a] w1]; [exact Hm|].
  cbn in Hm. now rewrite Hk.
Qed.

Lemma quiet_try_catch {A} (body : M A) (h : exn -> M A) :
  quiet body -> (forall e, quiet (h e)) -> quiet (try_catch body h).
Proof.
  intros Hb Hh w. unfold try_catch. specialize (Hb w).
  destruct (body w) as [[e|a] w1]; [|exact Hb].
  cbn in Hb. now rewrite Hh.
Qed.

Lemma quiet_modify f :
  (forall w, fetches (trace (f w)) = fetches (trace w)) -> quiet (modify f).
Proof. intros H w. apply H. Qed.

Lemma quiet_emit e : fetches [e] = [] -> quiet (modify (emit e)).
Proof.
  intros H. apply quiet_modify. intros w. cbn.
  now rewrite fetches_app, H, app_nil_r.
Qed.

Lemma quiet_logger level text : quiet (logger level text).
Proof. now apply quiet_emit. Qed.

Lemma quiet_await_io E : quiet (await_io E).
Proof. now apply quiet_modify. Qed.

Lemma quiet_get : quiet get.
Proof. now intros w. Qed.

Lemma quiet_sharp_resize E fit w h buf : quiet (sharp_resize E fit w h buf).
Proof.
  unfold sharp_resize.
  apply quiet_bind; [now apply quiet_emit|]. intros _.
  apply quiet_bind; [apply quiet_await_io|]. intros _.
  destruct (sharp_resize_png E fit w h buf);
    [apply quiet_ret|apply quiet_throw].
Qed.

Lemma quiet_sharp_composite E bg w h ops : quiet (sharp_composite E bg w h ops).
Proof.
  unfold sharp_composite.
  apply quiet_bind; [now apply quiet_emit|]. intros _.
  apply quiet_bind; [apply quiet_await_io|]. intros _.
  destruct (sharp_composite_jpeg E bg w h ops);
    [apply quiet_ret|apply quiet_throw].
Qed.

Lemma quiet_send c p : quiet (send c p).
Proof.
  intros w. unfold send, bind, get, throw, modify, ret.
  now destruct (refused (out_headers w) p).
Qed.

Lemma quiet_randomUUID E : quiet (randomUUID E).
Proof. now intros w. Qed.

Section WithEnv.
Context (E : Env).

(** The fetcher asks for its URL once, whether it ends up with the image
    or with the placeholder. *)
Lemma fallback_fetches_once url width height label w :
  exists buffer w',
    Football.downloadImageWithFallback E url width height label w
    = (inr buffer, w')
    /\ fetches (trace w') = (fetches (trace w) ++ [url])%list.
Proof.
  unfold Football.downloadImageWithFallback, Football.createPlaceholderImage,
    try_catch, bind, fetch, response_buffer, sharp_resize, logger,
    await_io, modify, throw, ret.
  destruct (fetch_result E url) as [e|response]; cbn -[String.append].
  2: destruct (ok response); cbn -[String.append].
  2: destruct (body response) as [b|]; cbn -[String.append].
  2: destruct (sharp_resize_png E Cover width height b) as [image|];
       cbn -[String.append].
  all: eexists _, _; (split; [reflexivity|]); cbn -[String.append];
    rewrite !fetches_app; cbn; now rewrite ?app_nil_r.
Qed.

Lemma fallback_logged url width height label :
  logged (Football.downloadImageWithFallback E url width height label) [url].
Proof.
  intros w a w' H.
  destruct (fallback_fetches_once url width height label w)
    as (b & w1 & Hrun & Hf).
  congruence.
Qed.

Lemma saves_quiet buf filename request :
  quiet (Football.saveImageAndGetLink E buf filename request).
Proof.
  unfold Football.saveImageAndGetLink, Football.ensureUploadsDir,
    fs_access, fs_mkdir, fs_writeFile, setTimeout_unlink.
  apply quiet_bind.
  { apply quiet_try_catch.
    - apply quiet_bind; [apply quiet_await_io|]. intros _.
      apply quiet_bind; [apply quiet_get|]. intros w0.
      destruct (stat (fs w0) _); [apply quiet_ret|apply quiet_throw].
    - intros _. apply quiet_bind; [apply quiet_await_io|]. intros _.
      apply quiet_bind; [apply quiet_get|]. intros w0.
      destruct (stat (fs w0) _) as [[]|]; try apply quiet_throw;
        apply quiet_modify; intros w1; cbn;
        now rewrite fetches_app, app_nil_r. }
  intros _. apply quiet_bind.
  { apply quiet_bind; [apply quiet_await_io|]. intros _.
    apply quiet_bind; [apply quiet_get|]. intros w0.
    destruct (stat (fs w0) _) as [[]|]; try apply quiet_throw;
      apply quiet_modify; intros w1; cbn;
      now rewrite fetches_app, app_nil_r. }
  intros _. apply quiet_bind; [|intros _; apply quiet_ret].
  apply quiet_modify. intros w1. cbn. now rewrite fetches_app, app_nil_r.
Qed.

Lemma logged_as {A} (m : M A) u u' : logged m u -> u = u' -> logged m u'.
Proof. now intros H <-. Qed.

Lemma flat_map_imap_pair {A B} (g : A -> list B) (l : list A) :
  flat_map (fun p : nat * A => g (snd p)) (imap pair l) = flat_map g l.
Proof.
  assert (H : forall (f : nat -> nat),
            flat_map (fun p : nat * A => g (snd p))
              (imap (fun i x => (f i, x)) l) = flat_map g l).
  { induction l as [|x l IH]; intros f; [reflexivity|].
    cbn [imap flat_map snd]. f_equal. apply (IH (f ∘ Datatypes.S)). }
  apply (H id).
Qed.

(** The URL, when one is given. *)
Definition given (url : option string) : list string :=
  match url with
  | Some (String a rest) => [String a rest]
  | _ => []
  end.

(** The logos of the channels of a game that are shown. *)
Definition channel_urls (jogo : Football.Jogo) : list string :=
  map Football.logoUrl (firstn 3 (default [] (Football.canais jogo))).

(** The URLs named by the body of a football request, in the order in which
    a rendering asks for them. *)
Definition football_urls (body : Football.ScheduleBody) : list string :=
  Football.logoEmpresaUrl body :: given (Football.fundoUrl body)
  ++ flat_map (fun jogo => [Football.logoHomeUrl jogo;
                            Football.logoAwayUrl jogo])
       (Football.jogos body)
  ++ flat_map channel_urls (Football.jogos body).

(** The URLs named by the body of a movie request, likewise. *)
Definition movie_urls (body : Movie.ImageBody) : list string :=
  Movie.logoUrl body :: Movie.capaFilmeUrl body
  :: given (Movie.fundoUrl body).

(** The URLs that the server itself downloads for one rendering.  On the
    markup route the images are loaded by the browser while it lays out the
    page; those loads are not the server's and are not accounted for here. *)
Definition asset_urls (g : Generation) : option (list string) :=
  match g with
  | GenerateImages body => Some (movie_urls body)
  | GenerateFootballSchedule body => Some (football_urls body)
  | GenerateFootballHtml _ => None
  end.

Lemma channel_composite_logged canais gameY width size :
  logged (Football.createChannelLogoComposite E canais gameY width size)
    (map Football.logoUrl (firstn 3 canais)).
Proof.
  unfold Football.createChannelLogoComposite.
  destruct canais as [|c cs]; [apply logged_ret|].
  rewrite OverlayFacts.firstn_min.
  eapply logged_as.
  - apply (logged_for_each (fun p : nat * Football.Canal =>
                              [Football.logoUrl (snd p)])).
    intros acc [i canal] w a w' H. cbn [snd].
    unfold try_catch in H. unfold bind at 1 in H.
    destruct (fallback_fetches_once (Football.logoUrl canal) size size
                (substring 0 2 (Football.channelName canal)) w)
      as (logo & w1 & Hlogo & Hf).
    rewrite Hlogo in H. unfold bind in H.
    pose proof (quiet_sharp_resize E Inside size size logo w1) as Hq.
    destruct (sharp_resize E Inside size size logo w1) as [[e|r] w2];
      cbn in Hq, H; injection H as <- <-; cbn; rewrite ?fetches_app; cbn;
      rewrite ?app_nil_r; congruence.
  - rewrite (flat_map_imap_pair (fun canal => [Football.logoUrl canal])).
    apply OverlayFacts.flat_map_singleton.
Qed.

Lemma team_composite_quiet teamLogos i gameY width size positioning :
  quiet (Football.createTeamLogoComposite E teamLogos i gameY width size
           positioning).
Proof.
  unfold Football.createTeamLogoComposite, Football.logo_at.
  apply quiet_bind; [destruct (teamLogos !! _); [apply quiet_ret|apply quiet_throw]|].
  intros home. apply quiet_bind; [apply quiet_sharp_resize|]. intros r1.
  apply quiet_bind; [destruct (teamLogos !! _); [apply quiet_ret|apply quiet_throw]|].
  intros away. apply quiet_bind; [apply quiet_sharp_resize|]. intros r2.
  destruct positioning; apply quiet_ret.
Qed.

Lemma rethrows (text : string) e w :
  exists e' w', (exec logger "error" text in @throw Buffer e) w = (inl e', w').
Proof. eexists _, _. reflexivity. Qed.

Lemma football_image_logged data width height :
  logged (Football.createFootballScheduleImage E data width height)
    (football_urls data).
Proof.
  unfold Football.createFootballScheduleImage.
  apply logged_rethrow; [|intros e w; apply rethrows].
  eapply logged_as.
  - apply logged_bind; [apply fallback_logged|]. intros logo.
    apply (logged_bind _ _ (given (Football.fundoUrl data))).
    { destruct (Football.fundoUrl data) as [[|a u]|]; cbn [given];
        [apply logged_ret|apply fallback_logged|apply logged_ret]. }
    intros background. apply logged_bind.
    { apply (logged_for_each
               (fun jogo => [Football.logoHomeUrl jogo;
                             Football.logoAwayUrl jogo])).
      intros acc jogo.
      apply (logged_bind _ _ [Football.logoHomeUrl jogo]
               [Football.logoAwayUrl jogo]); [apply fallback_logged|].
      intros home. eapply logged_as.
      - apply logged_bind; [apply fallback_logged|]. intros away.
        apply logged_ret.
      - reflexivity. }
    intros teamLogos. apply logged_bind_quiet.
    { unfold Football.createCompanyLogoComposite.
      apply quiet_bind; [apply quiet_sharp_resize|]. intros r.
      apply quiet_ret. }
    intros companyLogo. apply logged_bind.
    { apply (logged_for_each
               (fun p : nat * Football.Jogo => channel_urls (snd p))).
      intros ops [i jogo]. cbn [snd].
      apply logged_bind_quiet; [apply team_composite_quiet|].
      intros teamOps. unfold channel_urls.
      destruct (Football.canais jogo) as [[|c cs]|]; cbn [default firstn map];
        try apply logged_ret.
      eapply logged_as.
      - apply logged_bind; [apply channel_composite_logged|].
        intros channelOps. apply logged_ret.
      - now rewrite app_nil_r. }
    intros ops. apply quiet_logged, quiet_sharp_composite.
  - unfold football_urls. cbn [app]. rewrite flat_map_imap_pair, app_nil_r.
    reflexivity.
Qed.

Lemma movie_image_logged data width height :
  logged (Movie.createPromotionalImage E data width height)
    (movie_urls data).
Proof.
  unfold Movie.createPromotionalImage.
  apply logged_rethrow; [|intros e w; apply rethrows].
  eapply logged_as.
  - apply logged_bind; [apply fallback_logged|]. intros logo.
    apply logged_bind; [apply fallback_logged|]. intros capa.
    apply (logged_bind _ _ (given (Movie.fundoUrl data))).
    { destruct (Movie.fundoUrl data) as [[|a u]|]; cbn [given];
        [apply logged_ret|apply fallback_logged|apply logged_ret]. }
    intros background. apply logged_bind_quiet; [apply quiet_ret|].
    intros card. apply logged_bind_quiet; [apply quiet_sharp_resize|].
    intros r1. apply logged_bind_quiet; [apply quiet_sharp_resize|].
    intros r2. apply quiet_logged, quiet_sharp_composite.
  - unfold movie_urls. cbn [app]. now rewrite app_nil_r.
Qed.

Lemma handle_logged request g q w reply w' urls :
  handle E request g q w = (inr reply, w') -> code reply = 200 ->
  asset_urls g = Some urls ->
  fetches (trace w')
  = (fetches (trace w) ++ urls ++ urls ++ urls)%list.
Proof.
  intros Hrun Hcode Hurls.
  destruct g as [body|body|body]; cbn [handle asset_urls] in Hrun, Hurls;
    [| |discriminate Hurls]; injection Hurls as <-.
  - unfold Movie.generate_images in Hrun. OutcomeFacts.enter Hrun.
    change (trace w) with (trace (set_out_headers (fun _ => []) w)).
    apply try_catch_inv in Hrun as [Hrun|(e & w0 & _ & Hh)];
      [|OutcomeFacts.failed_handler Hh Hcode].
    revert Hrun. apply logged_bind; [apply movie_image_logged|]. intros L.
    apply logged_bind; [apply movie_image_logged|]. intros P.
    eapply logged_as; [|apply app_nil_r].
    apply logged_bind; [apply movie_image_logged|]. intros S.
    destruct (Bool.eqb (base64 q) true);
      [apply quiet_logged, quiet_send|].
    apply quiet_logged. apply quiet_bind; [apply quiet_randomUUID|].
    intros id. repeat (apply quiet_bind; [apply saves_quiet|]; intros ?).
    apply quiet_send.
  - unfold Football.generate_football_schedule in Hrun.
    OutcomeFacts.enter Hrun.
    change (trace w) with (trace (set_out_headers (fun _ => []) w)).
    apply try_catch_inv in Hrun as [Hrun|(e & w0 & _ & Hh)];
      [|OutcomeFacts.failed_handler Hh Hcode].
    revert Hrun. apply logged_bind; [apply football_image_logged|]. intros L.
    apply logged_bind; [apply football_image_logged|]. intros P.
    eapply logged_as; [|apply app_nil_r].
    apply logged_bind; [apply football_image_logged|]. intros S.
    destruct (Bool.eqb (base64 q) true);
      [apply quiet_logged, quiet_send|].
    apply quiet_logged. apply quiet_bind; [apply quiet_randomUUID|].
    intros id. repeat (apply quiet_bind; [apply saves_quiet|]; intros ?).
    apply quiet_send.
Qed.

End WithEnv.

(** X22. A request to one of the two composed routes (movie, football
    schedule) that is answered with status 200 has made the server download
    exactly the URLs that its body names, in either mode: each of them once
    for every rendered format (company logo, optional background, the two
    crests of each game and the logos of at most three channels per game on
    the football route; logo, poster and optional background on the movie
    route), three times in all, and nothing else.  The order of the
    downloads is left open, since the renderings run side by side.  The
    markup route is left out: there the browser loads what the page names. *)
Theorem request_fetches_its_assets E request g raw w reply w' urls :
  serve E request g raw w = (inr reply, w') -> code reply = 200 ->
  asset_urls g = Some urls ->
  exists downloads,
    fetches (trace w') = (fetches (trace w) ++ downloads)%list
    /\ Permutation downloads (urls ++ urls ++ urls).
Proof.
  rewrite serve_route. intros Hrun Hcode Hurls.
  destruct (valid E g);
    [|now destruct (ModeFacts.dispatched_error_not_200 _ _ _ _ _ Hrun)].
  destruct (querySchema raw) as [q|];
    [|now destruct (ModeFacts.dispatched_error_not_200 _ _ _ _ _ Hrun)].
  destruct (handle_returns E request g q w) as (r & w1 & Hr & _).
  rewrite (try_ok _ _ _ _ _ Hr) in Hrun. injection Hrun as -> ->.
  exists (urls ++ urls ++ urls)%list.
  split; [|reflexivity].
  exact (handle_logged E request g q w reply w' urls Hr Hcode Hurls).
Qed.

Lemma request_fetches_its_assets_witness :
  exists reply w' downloads,
    serve Sample.online Sample.request
      (GenerateFootballSchedule Sample.one_game) Sample.no_flags Sample.boot
    = (inr reply, w')
    /\ fetches (trace w') = downloads
    /\ length downloads = 12%nat.
Proof.
  eassert (Hrun : serve Sample.online Sample.request
                    (GenerateFootballSchedule Sample.one_game) Sample.no_flags
                    Sample.boot = (inr _, _))
    by (vm_compute; reflexivity).
  destruct (request_fetches_its_assets _ _ _ _ _ _ _ _ Hrun eq_refl eq_refl)
    as (downloads & Hlog & Hperm).
  eexists _, _, downloads. split; [exact Hrun|]. split; [exact Hlog|].
  rewrite (Permutation_length Hperm). reflexivity.
Defined.

End FetchLog.
